(** * Modem file deployment (deploy.py): a shallow embedding and its properties

    The development follows [Python/BMT/modem_deploy/deploy.py].  Pure helpers
    are Rocq functions on [string]; code that talks to the outside world
    (ping, ssh, sftp, the local file system, sleeping) runs in a small monad
    that records every external call together with the answer it got.  The
    unbounded [while True] loops of the script take a [fuel] argument; a run
    that uses it up is [Looping], which stands for "has not returned yet".

    Logging and the statistics object are write-only sinks: no branch of the
    deployment core reads what they hold, and the runs are modelled without
    them.  The statistics object is modelled on its own, further down. *)

From Stdlib Require Import ZArith Lia Ascii String List Permutation.
From stdpp Require Import base decidable option list gmap sets strings pretty.

Local Open Scope string_scope.
Local Open Scope Z_scope.

(** ** Python's [str] methods used by the script *)

Module PyStr.

(** [s.startswith(p)] *)
Definition startswith (s p : string) : bool := String.prefix p s.

(** [s.endswith(suf)] *)
Fixpoint endswith (s suf : string) : bool :=
  if String.eqb s suf then true
  else match s with
       | "" => false
       | String _ s' => endswith s' suf
       end.

(** [sub in s] *)
Fixpoint contains (sub s : string) : bool :=
  if String.prefix sub s then true
  else match s with
       | "" => false
       | String _ s' => contains sub s'
       end.

(** A non-empty string is true in a condition. *)
Definition truthy (s : string) : bool := negb (String.eqb s "").

(** [c.isspace()] on the ASCII range of [str]: tab, LF, VT, FF, CR, the
    four separators FS GS RS US, and the blank. *)
Definition isspace (c : ascii) : bool :=
  let n := nat_of_ascii c in
  ((9 <=? n) && (n <=? 13) || (28 <=? n) && (n <=? 32))%nat.

Fixpoint lstrip (s : string) : string :=
  match s with
  | "" => ""
  | String c s' => if isspace c then lstrip s' else s
  end.

Fixpoint rstrip (s : string) : string :=
  match s with
  | "" => ""
  | String c s' =>
      let r := rstrip s' in
      if String.eqb r "" && isspace c then "" else String c r
  end.

(** [s.strip()] *)
Definition strip (s : string) : string := rstrip (lstrip s).

(** [s.split(sep)] for a one-character separator: never the empty list. *)
Fixpoint split (sep : ascii) (s : string) : list string :=
  match s with
  | "" => [""]
  | String c s' =>
      if Ascii.eqb c sep then "" :: split sep s'
      else match split sep s' with
           | h :: t => String c h :: t
           | [] => [String c ""]
           end
  end.

(** [s.split()]: the maximal runs of non-blank characters. *)
Fixpoint split_ws_go (cur : string) (s : string) : list string :=
  match s with
  | "" => if String.eqb cur "" then [] else [String.rev cur]
  | String c s' =>
      if isspace c
      then (if String.eqb cur "" then [] else [String.rev cur]) ++ split_ws_go "" s'
      else split_ws_go (String c cur) s'
  end.
Definition split_ws (s : string) : list string := split_ws_go "" s.

(** [s.isdigit()], on ASCII text: at least one character, all in 0..9. *)
Definition is_digit_char (c : ascii) : bool :=
  let n := nat_of_ascii c in ((48 <=? n) && (n <=? 57))%nat.
Fixpoint all_digits (s : string) : bool :=
  match s with
  | "" => true
  | String c s' => is_digit_char c && all_digits s'
  end.
Definition isdigit (s : string) : bool := truthy s && all_digits s.

(** [s.replace(old, new)]: every non-overlapping occurrence, left to right.
    [skip] counts the characters of a matched [old] still to be dropped. *)
Fixpoint replace_go (old new : string) (skip : nat) (s : string) : string :=
  match s with
  | "" => ""
  | String c s' =>
      match skip with
      | S k => replace_go old new k s'
      | O =>
          if String.prefix old s
          then new +:+ replace_go old new (Nat.pred (String.length old)) s'
          else String c (replace_go old new O s')
      end
  end.
Fixpoint intersperse_str (new : string) (s : string) : string :=
  match s with
  | "" => ""
  | String c s' => String c (new +:+ intersperse_str new s')
  end.
Definition replace (s old new : string) : string :=
  if String.eqb old "" then new +:+ intersperse_str new s
  else replace_go old new O s.

End PyStr.

(** ** [posixpath] helpers *)

Module PosixPath.

(** The part of [p] up to and including its last slash ([p[:i]] with
    [i = p.rfind('/') + 1]). *)
Fixpoint head_upto_last_slash (p : string) : string :=
  match p with
  | "" => ""
  | String c p' =>
      if PyStr.contains "/" p then String c (head_upto_last_slash p') else ""
  end.

Fixpoint all_slashes (s : string) : bool :=
  match s with
  | "" => true
  | String c s' => Ascii.eqb c "/" && all_slashes s'
  end.

Fixpoint rstrip_slash (s : string) : string :=
  match s with
  | "" => ""
  | String c s' =>
      let r := rstrip_slash s' in
      if String.eqb r "" && Ascii.eqb c "/" then "" else String c r
  end.

(** [os.path.dirname(p)] *)
Definition dirname (p : string) : string :=
  let head := head_upto_last_slash p in
  if PyStr.truthy head && negb (all_slashes head) then rstrip_slash head
  else head.

(** [os.path.join(a, b)] for two components. *)
Definition join (a b : string) : string :=
  if PyStr.startswith b "/" then b
  else if negb (PyStr.truthy a) || PyStr.endswith a "/" then a +:+ b
  else a +:+ "/" +:+ b.

End PosixPath.

(** ** Network helpers *)

(** [format_ip_for_sftp]: an address with a colon gets brackets unless it
    already starts with one. *)
Definition format_ip_for_sftp (ip : string) : string :=
  if PyStr.contains ":" ip && negb (PyStr.startswith ip "[")
  then "[" +:+ ip +:+ "]"
  else ip.

(** ** Configuration record

    The parsed [config.json].  Keys the script reads with [config[...]] are
    plain fields; keys it reads with [.get(key, default)] are options, [None]
    standing for an absent key. *)

Record EmailConfig := {
  email_enabled : option bool;
  sender_email : option string;
  recipient_emails : option (list string)
}.

Record NotificationConfig := {
  notification_enabled : option bool;
  notify_on : option (list string);
  email : option EmailConfig
}.

Record Config := {
  ssh_port : Z;
  ssh_user : string;
  ssh_password : string;
  ping_interval : Z;
  ping_timeout : Z;
  retry_interval : Z;
  ssh_attempts_per_round : Z;
  ssh_attempt_interval : Z;
  notification : option NotificationConfig
}.

(** ** Exceptions

    The classes of [Exception] the script names or can meet.  [IOError] is
    [OSError] in Python 3. *)

Inductive exn : Set :=
  | TimeoutExpired | OSError | ValueError | TypeError | IndexError
  | RuntimeError | NameError | EOFError
  | SSHException | AuthenticationException | BadHostKeyException
  | ExceptionPexpect | PexpectEOF | PexpectTIMEOUT.

Global Instance exn_eq_dec : EqDecision exn.
Proof. solve_decision. Defined.

(** [issubclass(e, c)] *)
Definition subclass (e c : exn) : bool :=
  match e, c with
  | AuthenticationException, SSHException
  | BadHostKeyException, SSHException
  | PexpectEOF, ExceptionPexpect
  | PexpectTIMEOUT, ExceptionPexpect => true
  | _, _ => bool_decide (e = c)
  end.

(** Does [except (c1, ..., cn)] catch [e]? *)
Definition caught_by (classes : list exn) (e : exn) : bool :=
  existsb (subclass e) classes.

(** ** External calls and the environment *)

Inductive pattern := Pat (s : string) | EOF | TIMEOUT.

Inductive call :=
  | SubprocessRun (argv : list string) (input : option string) (timeout : Z)
  | Sleep (secs : Z)
  | PathExists (path : string)
  | ReadFile (path : string)
  | OsStat (path : string)
  | SshConnect (ip : string) (port : Z) (user password : string) (timeout : Z)
  | SshExec (cmd : string) (timeout : option Z)
  | SshClose
  | TransportOpen (ip : string) (port : Z)
  | TransportConnect (user password : string)
  | SftpFromTransport
  | SftpMkdir (path : string)
  | SftpStat (path : string)
  | SftpPut (local remote : string)
  | SftpClose
  | TransportClose
  | PexpectSpawn (cmd : string) (timeout : Z)
  | PexpectExpect (patterns : list pattern) (timeout : Z)
  | PexpectSendline (line : string)
  | PexpectClose.

(** What a call gives back: an integer (exit status, matched index, size,
    truth value) with the text of stdout and stderr, or an exception. *)
Inductive reply :=
  | Ok (code : Z) (out err : string)
  | Raises (e : exn).

Global Instance pattern_eq_dec : EqDecision pattern.
Proof. solve_decision. Defined.
Global Instance call_eq_dec : EqDecision call.
Proof. solve_decision. Defined.
Global Instance reply_eq_dec : EqDecision reply.
Proof. solve_decision. Defined.

Definition trace := list (call * reply).

(** The outside world answers a call knowing everything that happened
    before it. *)
Definition environment := trace -> call -> reply.

(** What the interpreter found at import time, the platform, the hash
    function of [hashlib], the configuration and the world. *)
Record World := {
  HAS_PARAMIKO : bool;
  HAS_PEXPECT : bool;
  win32 : bool;
  sha256_hexdigest : string -> string;
  config : Config;
  env : environment
}.

(** ** The monad: a trace of calls, an exception, or a loop still running *)

Inductive outcome (A : Type) :=
  | Returns (a : A) (t : trace)
  | Raised (e : exn) (t : trace)
  | Looping.
Arguments Returns {A} a t.
Arguments Raised {A} e t.
Arguments Looping {A}.

Definition M (A : Type) := trace -> outcome A.

Definition ret {A} (a : A) : M A := fun t => Returns a t.
Definition raise {A} (e : exn) : M A := fun t => Raised e t.
Definition bind {A B} (m : M A) (k : A -> M B) : M B :=
  fun t => match m t with
           | Returns a t' => k a t'
           | Raised e t' => Raised e t'
           | Looping => Looping
           end.

Notation "'let*' x := m 'in' k" := (bind m (fun x => k))
  (at level 10, x name, m at level 100, k at level 200).
Notation "'do' m 'then' k" := (bind m (fun _ => k))
  (at level 10, m at level 100, k at level 200).

(** [try: m  except classes: h] *)
Definition try_except {A} (m : M A) (classes : list exn) (h : exn -> M A) : M A :=
  fun t => match m t with
           | Raised e t' => if caught_by classes e then h e t' else Raised e t'
           | o => o
           end.

(** [try: m  except Exception: h] *)
Definition try_except_Exception {A} (m : M A) (h : exn -> M A) : M A :=
  fun t => match m t with
           | Raised e t' => h e t'
           | o => o
           end.

(** [try: m  finally: c], where [c] swallows its own exceptions. *)
Definition finally {A B} (m : M A) (c : M B) : M A :=
  fun t => match m t with
           | Returns a t' =>
               match c t' with
               | Returns _ t'' | Raised _ t'' => Returns a t''
               | Looping => Looping
               end
           | Raised e t' =>
               match c t' with
               | Returns _ t'' | Raised _ t'' => Raised e t''
               | Looping => Looping
               end
           | Looping => Looping
           end.

Section Primitives.
Variable W : World.

(** Ask the world, and write the call and its answer down. *)
Definition perform (c : call) : M reply :=
  fun t => let r := env W t c in Returns r (t ++ [(c, r)])%list.

(** A call whose exception propagates. *)
Definition invoke (c : call) : M (Z * string * string) :=
  let* r := perform c in
  match r with
  | Ok code out err => ret (code, out, err)
  | Raises e => raise e
  end.

(** [time.sleep(n)] for a length [n] that is not negative, where it returns;
    on a negative length Python raises [ValueError], which this model does
    not have: what is proved of a pause is stated for [0 <= n] where the
    result depends on the pause being taken. *)
Definition sleep (n : Z) : M unit := do perform (Sleep n) then ret tt.

(** [os.path.exists(p)]: never raises. *)
Definition os_path_exists (p : string) : M bool :=
  let* r := perform (PathExists p) in
  match r with
  | Ok code _ _ => ret (negb (code =? 0))
  | Raises _ => ret false
  end.
End Primitives.

(** ** Network functions *)

Section Network.
Variable W : World.

(** The command line of the one-packet ping, per platform. *)
Definition ping_argv (ip : string) : list string :=
  if win32 W
  then ["ping"; "-n"; "1"; "-w"; pretty (ping_timeout (config W) * 1000); ip]
  else ["ping"; "-c"; "1"; "-W"; pretty (ping_timeout (config W)); ip].

(** [ping_check] *)
Definition ping_check (ip : string) : M bool :=
  try_except
    (let* result :=
       invoke W (SubprocessRun (ping_argv ip) None (ping_timeout (config W) + 1)) in
     ret (result.1.1 =? 0))
    [TimeoutExpired; OSError; ValueError]
    (fun _ => ret false).

(** [wait_for_ping]: the attempt counter only feeds the log. *)
Fixpoint wait_for_ping (fuel : nat) (ip : string) : M bool :=
  match fuel with
  | O => fun _ => Looping
  | S fuel' =>
      let* ok := ping_check ip in
      if ok then ret true
      else do sleep W (ping_interval (config W)) then wait_for_ping fuel' ip
  end.

(** [ssh_connection], a context manager: [body] is what runs under
    [with].  The client object exists before [connect], so it is closed on
    every path once paramiko is there.  Without paramiko the [RuntimeError]
    raised in the [try] reaches an [except] clause that names
    [paramiko.AuthenticationException]; evaluating that name fails, and
    what leaves the function is a [NameError]. *)
Definition ssh_connection {A} (ip : string) (timeout : Z) (body : M A) : M A :=
  if negb (HAS_PARAMIKO W) then raise NameError
  else
    finally
      (do invoke W (SshConnect ip (ssh_port (config W)) (ssh_user (config W))
                      (ssh_password (config W)) timeout)
       then body)
      (perform W SshClose).

(** One pass of the [try] block in the SSH loop: [true] is [return True]. *)
Definition ssh_probe (ip : string) : M bool :=
  try_except_Exception
    (ssh_connection ip 5
       (let* r := invoke W (SshExec "echo test" (Some 3)) in
        ret (r.1.1 =? 0)))
    (fun _ => ret false).

(** [for ssh_try_count in range(1, n + 1)]: [true] when an attempt
    returned, [false] when the range ran out. *)
Fixpoint ssh_attempts (n : nat) (ip : string) : M bool :=
  match n with
  | O => ret false
  | S n' =>
      let* ok := ssh_probe ip in
      if ok then ret true
      else do sleep W (ssh_attempt_interval (config W)) then ssh_attempts n' ip
  end.

(** The [while True] of [wait_for_ssh_ready]. *)
Fixpoint wait_for_ssh_ready_loop (fuel : nat) (ip : string) : M bool :=
  match fuel with
  | O => fun _ => Looping
  | S fuel' =>
      do wait_for_ping fuel ip then
      let* ok := ssh_attempts (Z.to_nat (ssh_attempts_per_round (config W))) ip in
      if ok then ret true else wait_for_ssh_ready_loop fuel' ip
  end.

(** [wait_for_ssh_ready] *)
Definition wait_for_ssh_ready (fuel : nat) (ip : string) : M bool :=
  if negb (HAS_PARAMIKO W) then do wait_for_ping fuel ip then ret true
  else wait_for_ssh_ready_loop fuel ip.

End Network.

(** ** File transfer *)

Definition FILE_DIR : string := "file".
Definition COMPLETE_TXT : string := "complete.txt".

(** An [Optional[str]] in a condition. *)
Definition opt_truthy (o : option string) : bool :=
  match o with
  | Some s => PyStr.truthy s
  | None => false
  end.

Section Transfer.
Variable W : World.

(** The [for d in dirs] loop of [check_remote_directory].  The script
    catches [(IOError, OSError)], one class in Python 3. *)
Fixpoint make_dirs (dirs : list string) (current_path : string) : M unit :=
  match dirs with
  | [] => ret tt
  | d :: ds =>
      let current_path :=
        if PyStr.truthy current_path then current_path +:+ "/" +:+ d
        else "/" +:+ d in
      do try_except
           (do invoke W (SftpMkdir current_path) then ret tt)
           [OSError]
           (fun _ =>
              try_except
                (do invoke W (SftpStat current_path) then ret tt)
                [OSError]
                (fun _ => ret tt))
      then make_dirs ds current_path
  end.

(** [check_remote_directory] *)
Definition check_remote_directory (remote_file_path : string) : M unit :=
  let remote_dir := PosixPath.dirname remote_file_path in
  if negb (PyStr.truthy remote_dir) then ret tt
  else
    try_except_Exception
      (let remote_dir :=
         if negb (PyStr.startswith remote_dir "/") then "/" +:+ remote_dir
         else remote_dir in
       let dirs := List.filter PyStr.truthy (PyStr.split "/" remote_dir) in
       make_dirs dirs "")
      (fun _ => ret tt).

(** [sftp_connection], a context manager.  Each of [transport] and [sftp]
    is closed in the [finally] once it has been assigned. *)
Definition sftp_connection {A} (ip : string) (body : M A) : M A :=
  if negb (HAS_PARAMIKO W) then raise NameError
  else
    do invoke W (TransportOpen ip (ssh_port (config W))) then
    finally
      (do invoke W (TransportConnect (ssh_user (config W)) (ssh_password (config W))) then
       do invoke W SftpFromTransport then
       finally body (perform W SftpClose))
      (perform W TransportClose).

(** What [send_file_sftp_paramiko] does under [with sftp_connection]. *)
Definition paramiko_upload (local_file_path remote_file_path : string) : M bool :=
  do check_remote_directory remote_file_path then
  do invoke W (SftpPut local_file_path remote_file_path) then
  try_except
    (let* remote_stat := invoke W (SftpStat remote_file_path) in
     let* local_stat := invoke W (OsStat local_file_path) in
     ret (remote_stat.1.1 =? local_stat.1.1))
    [OSError]
    (fun _ => ret false).

(** [send_file_sftp_paramiko] *)
Definition send_file_sftp_paramiko (ip local_file_path remote_file_path : string)
  : M bool :=
  try_except_Exception
    (sftp_connection ip (paramiko_upload local_file_path remote_file_path))
    (fun _ => ret false).

(** [get_file_hash]: the file's bytes come from the world, the digest is
    [hashlib]'s. *)
Definition get_file_hash (file_path : string) : M (option string) :=
  try_except
    (let* r := invoke W (ReadFile file_path) in
     ret (Some (sha256_hexdigest W r.1.2)))
    [OSError]
    (fun _ => ret None).

(** [get_remote_file_hash] *)
Definition get_remote_file_hash (ip remote_file_path : string) : M (option string) :=
  try_except_Exception
    (ssh_connection W ip 10
       (let* r := invoke W (SshExec ("sha256sum " +:+ remote_file_path) None) in
        let output := PyStr.strip r.1.2 in
        if PyStr.truthy output then
          match PyStr.split_ws output with
          | hash_value :: _ => ret (Some hash_value)
          | [] => raise IndexError
          end
        else ret None))
    (fun _ => ret None).

Definition sftp_cmd (sftp_ip : string) : string :=
  "sftp -P " +:+ pretty (ssh_port (config W)) +:+ " "
  +:+ "-o HostKeyAlgorithms=ssh-rsa "
  +:+ "-o StrictHostKeyChecking=no "
  +:+ "-o ConnectTimeout=10 "
  +:+ ssh_user (config W) +:+ "@" +:+ sftp_ip.

Definition prompt_patterns : list pattern := [Pat "sftp>"; EOF; TIMEOUT].

(** The part of [send_file_sftp_pexpect] that follows [child.close()].
    [exitstatus] is the answer of [close]; a child ended by a signal has
    none, which like any non-zero status is not [== 0]. *)
Definition verify_after_pexpect (exitstatus : Z)
    (ip local_file_path remote_file_path : string) : M bool :=
  if exitstatus =? 0 then
    let* local_hash := get_file_hash local_file_path in
    if opt_truthy local_hash && HAS_PARAMIKO W then
      do sleep W 1 then
      let* remote_hash := get_remote_file_hash ip remote_file_path in
      if opt_truthy remote_hash then
        if bool_decide (local_hash = remote_hash) then ret true else ret false
      else ret true
    else ret true
  else ret false.

(** The dialogue with the [sftp] child, up to its exit status. *)
Definition pexpect_dialogue (ip local_file_path remote_file_path : string) : M Z :=
  let sftp_ip := format_ip_for_sftp ip in
  do invoke W (PexpectSpawn (sftp_cmd sftp_ip) 30) then
  let* index :=
    invoke W (PexpectExpect [Pat "password:"; Pat "Password:"; EOF; TIMEOUT] 10) in
  do (if index.1.1 <? 2 then
        do invoke W (PexpectSendline (ssh_password (config W))) then
        do invoke W (PexpectExpect prompt_patterns 10) then ret tt
      else ret tt) then
  do invoke W (PexpectSendline ("rm " +:+ remote_file_path)) then
  do invoke W (PexpectExpect prompt_patterns 10) then
  do invoke W (PexpectSendline
                 ("put " +:+ local_file_path +:+ " " +:+ remote_file_path)) then
  do invoke W (PexpectExpect prompt_patterns 30) then
  do invoke W (PexpectSendline "quit") then
  do invoke W (PexpectExpect [EOF] 5) then
  let* closed := invoke W PexpectClose in
  ret closed.1.1.

(** [send_file_sftp_pexpect] *)
Definition send_file_sftp_pexpect (ip local_file_path remote_file_path : string)
  : M bool :=
  if negb (HAS_PEXPECT W) then ret false
  else
    try_except
      (let* exitstatus := pexpect_dialogue ip local_file_path remote_file_path in
       verify_after_pexpect exitstatus ip local_file_path remote_file_path)
      [ExceptionPexpect; OSError; ValueError]
      (fun _ => ret false).

Definition sftp_argv (sftp_ip : string) : list string :=
  ["sftp"; "-P"; pretty (ssh_port (config W));
   "-o"; "HostKeyAlgorithms ssh-rsa";
   "-o"; "StrictHostKeyChecking=no";
   "-o"; "ConnectTimeout=10";
   ssh_user (config W) +:+ "@" +:+ sftp_ip].

(** [send_file_sftp_subprocess] *)
Definition send_file_sftp_subprocess (ip local_file_path remote_file_path : string)
  : M bool :=
  let sftp_ip := format_ip_for_sftp ip in
  let sftp_commands :=
    "put " +:+ local_file_path +:+ " " +:+ remote_file_path
    +:+ String "010" "quit" +:+ String "010" "" in
  try_except
    (let* result := invoke W (SubprocessRun (sftp_argv sftp_ip) (Some sftp_commands) 30) in
     ret (result.1.1 =? 0))
    [TimeoutExpired; OSError; ValueError]
    (fun _ => ret false).

(** [send_file_with_fallback] *)
Definition send_file_with_fallback (ip local_file_path remote_file_path : string)
  : M bool :=
  let* sent_pexpect :=
    (if HAS_PEXPECT W then send_file_sftp_pexpect ip local_file_path remote_file_path
     else ret false) in
  if sent_pexpect then ret true
  else
    let* sent_paramiko :=
      (if HAS_PARAMIKO W then send_file_sftp_paramiko ip local_file_path remote_file_path
       else ret false) in
    if sent_paramiko then ret true
    else send_file_sftp_subprocess ip local_file_path remote_file_path.

End Transfer.

(** ** Remote commands and the per-host worker *)

(** [make_remote_file_path] *)
Definition make_remote_file_path (remote_path filename : string) : string :=
  if PyStr.endswith remote_path "/" then remote_path +:+ filename +:+ ".BMT"
  else remote_path +:+ "/" +:+ filename +:+ ".BMT".

Definition mv_command (remote_file_path : string) : string :=
  let remote_file_original := PyStr.replace remote_file_path ".BMT" "" in
  "mv " +:+ remote_file_path +:+ " " +:+ remote_file_original.

Definition ps_command (filename : string) : string :=
  "ps | grep " +:+ filename +:+ " | grep -v grep | awk '{print $1}'".

Definition kill_command (pid : string) : string := "kill -9 " +:+ pid.

Section Worker.
Variable W : World.

(** [for pid in pids.split('\n')] *)
Fixpoint kill_pids (pids : list string) : M unit :=
  match pids with
  | [] => ret tt
  | pid :: rest =>
      let pid := PyStr.strip pid in
      do (if PyStr.truthy pid && PyStr.isdigit pid then
            try_except_Exception
              (do invoke W (SshExec (kill_command pid) None) then ret tt)
              (fun _ => ret tt)
          else ret tt)
      then kill_pids rest
  end.

(** [execute_remote_commands] *)
Definition execute_remote_commands (ip remote_file_path filename : string) : M bool :=
  try_except_Exception
    (ssh_connection W ip 10
       (let* moved := invoke W (SshExec (mv_command remote_file_path) None) in
        if negb (moved.1.1 =? 0) then ret false
        else
          let* listed := invoke W (SshExec (ps_command filename) None) in
          let pids := PyStr.strip listed.1.2 in
          do (if PyStr.truthy pids then kill_pids (PyStr.split "010" pids)
              else ret tt)
          then ret true))
    (fun _ => ret false).

(** [send_single_file] *)
Fixpoint send_single_file (fuel : nat)
    (ip filename local_file_path remote_file_path : string) (move_mode : bool)
  : M bool :=
  match fuel with
  | O => fun _ => Looping
  | S fuel' =>
      let* success := send_file_with_fallback W ip local_file_path remote_file_path in
      if success then
        if move_mode && HAS_PARAMIKO W then
          let* done := execute_remote_commands ip remote_file_path filename in
          if done then ret true
          else
            do sleep W 2 then
            send_single_file fuel' ip filename local_file_path remote_file_path move_mode
        else ret true
      else
        do sleep W 5 then
        send_single_file fuel' ip filename local_file_path remote_file_path move_mode
  end.

(** One pass of the [for filename, remote_path in file_map.items()] body. *)
Definition process_entry (fuel : nat) (ip : string) (move_mode : bool)
    (entry : string * string) : M unit :=
  let filename := entry.1 in
  let remote_path := entry.2 in
  let local_file_path := PosixPath.join FILE_DIR filename in
  let* found := os_path_exists W local_file_path in
  if negb found then ret tt
  else
    let remote_file_path := make_remote_file_path remote_path filename in
    do send_single_file fuel ip filename local_file_path remote_file_path move_mode
    then ret tt.

(** The manifest is a [dict]: its items in insertion order. *)
Fixpoint process_entries (fuel : nat) (ip : string) (move_mode : bool)
    (file_map : list (string * string)) : M unit :=
  match file_map with
  | [] => ret tt
  | entry :: rest =>
      do process_entry fuel ip move_mode entry then
      process_entries fuel ip move_mode rest
  end.

(** [process_single_ip] *)
Definition process_single_ip (fuel : nat) (ip : string)
    (file_map : list (string * string)) (move_mode : bool) : M bool :=
  try_except_Exception
    (do wait_for_ssh_ready W fuel ip then
     do process_entries fuel ip move_mode file_map then
     ret true)
    (fun _ => ret false).

End Worker.

(** ** Text files: the host list and the completion ledger *)

Definition LF : string := String "010" "".
Definition CR : string := String "013" "".

(** Reading a text file translates [CR LF] and [CR] to [LF]. *)
Definition universal_newlines (text : string) : string :=
  PyStr.replace (PyStr.replace text (CR +:+ LF) LF) CR LF.

(** [line.strip() for line in f if line.strip()].  A line terminator is
    white space and blank lines are dropped, so iterating over the file is
    splitting its text at the newlines. *)
Definition stripped_lines (text : string) : list string :=
  List.filter PyStr.truthy (List.map PyStr.strip (PyStr.split "010" (universal_newlines text))).

(** [read_ip_list], on the text of an existing, readable [ip.txt]. *)
Definition read_ip_list (text : string) : list string :=
  List.filter (fun line => negb (PyStr.startswith line "#")) (stripped_lines text).

(** How the file system treats one call of [record_complete_ip]. *)
Inductive ledger_io := IoFine | ReadFails | AppendFails.

(** [init_complete_file]; [file] is the text of [complete.txt], [None] when
    there is no such file.  An [OSError] of [os.remove] is swallowed. *)
Definition init_complete_file (remove_fails : bool) (file : option string)
  : option string :=
  match file with
  | Some text => if remove_fails then Some text else None
  | None => None
  end.

(** [record_complete_ip].  An [OSError] while reading or appending is
    swallowed and leaves the file as it was. *)
Definition record_complete_ip (io : ledger_io) (ip : string) (file : option string)
  : option string :=
  match file with
  | Some text =>
      match io with
      | ReadFails => Some text
      | _ =>
          let existing_ips := stripped_lines text in
          if bool_decide (ip ∉ existing_ips) then
            match io with
            | AppendFails => Some text
            | _ => Some (text +:+ ip +:+ LF)
            end
          else Some text
      end
  | None =>
      match io with
      | AppendFails => None
      | _ => Some (ip +:+ LF)
      end
  end.

(** ** Notifications *)

(** One call of [send_notification] from [main]: the event tag it was given,
    the subject, and whether the message got as far as the SMTP session. *)
Record dispatch := {
  event : list string;
  subject : string;
  smtp : bool
}.

Definition empty_email : EmailConfig :=
  {| email_enabled := None; sender_email := None; recipient_emails := None |}.
Definition empty_notification : NotificationConfig :=
  {| notification_enabled := None; notify_on := None; email := None |}.

(** [config.get('notification', {})] *)
Definition notification_config (c : Config) : NotificationConfig :=
  default empty_notification (notification c).
(** [config.get('notification', {}).get('enabled', False)] *)
Definition notification_on (c : Config) : bool :=
  default false (notification_enabled (notification_config c)).
(** [tag in config.get('notification', {}).get('notify_on', [])] *)
Definition listed (c : Config) (tag : string) : bool :=
  bool_decide (tag ∈ default [] (notify_on (notification_config c))).
(** [notification_config.get('email', {}).get('enabled', False)] *)
Definition email_on (c : Config) : bool :=
  default false (email_enabled (default empty_email (email (notification_config c)))).

(** [send_email_notification], up to the SMTP session: [true] when the
    message is handed to the mail server. *)
Definition send_email_notification (c : Config) : bool :=
  if negb (email_on c) then false
  else
    let email_config := default empty_email (email (notification_config c)) in
    let sender := default "" (sender_email email_config) in
    let recipients := default [] (recipient_emails email_config) in
    if negb (PyStr.truthy sender) || bool_decide (recipients = []) then false
    else true.

(** [send_notification]; its [notify_on] argument is not read. *)
Definition send_notification (c : Config) (subject : string) (notify_on : list string)
  : list dispatch :=
  [{| event := notify_on; subject := subject;
      smtp := if negb (notification_on c) then false
              else if email_on c then send_email_notification c else false |}].

(** ** The fleet orchestrator: [main] from [init_complete_file] on *)

(** Where [main] stands.  [remaining_ip] is local to one pass of the
    [while]: it is computed when the pass begins and not touched again.
    [futures] are the hosts whose worker [as_completed] has not yet handed
    back. *)
Inductive phase :=
  | LoopHead
  | InRound (remaining_ip : list string) (futures : list string)
  | AfterLoop
  | Finished.

Record run_state := {
  success_ip : gset string;
  complete_txt : option string;
  dispatched : list dispatch;
  at_phase : phase
}.

(** What moves [main] forward.  The pool runs the workers side by side, so
    which future completes next is not fixed: [FutureDone n] is
    [as_completed] yielding the [n]-th outstanding one, whose worker ran
    against its host's world [e] and returned within [fuel] loop passes;
    [io] is how the file system treats the ledger at that moment. *)
Inductive main_event :=
  | EnterRound
  | FutureDone (n : nat) (e : environment) (fuel : nat) (io : ledger_io)
  | RoundOver
  | Epilogue.

Definition with_env (W : World) (e : environment) : World :=
  {| HAS_PARAMIKO := HAS_PARAMIKO W; HAS_PEXPECT := HAS_PEXPECT W;
     win32 := win32 W; sha256_hexdigest := sha256_hexdigest W;
     config := config W; env := e |}.

Definition notify_start (c : Config) (ip_list : list string) : list dispatch :=
  if notification_on c && listed c "start" then
    send_notification c
      ("Deploy Started - " +:+ pretty (length ip_list) +:+ " IP") ["start"]
  else [].

Definition notify_ip_success (c : Config) (ip : string) : list dispatch :=
  if notification_on c && listed c "ip_success" then
    send_notification c ("IP " +:+ ip +:+ " Completed") ["ip_success"]
  else [].

Definition notify_complete (c : Config) (success : gset string)
    (ip_list : list string) : list dispatch :=
  if notification_on c then
    if listed c "complete" && (size success =? length ip_list)%nat then
      send_notification c
        ("Deploy Complete - " +:+ pretty (size success) +:+ "/"
         +:+ pretty (length ip_list) +:+ " IP") ["complete"]
    else []
  else [].

(** [[ip for ip in ip_list if ip not in success_ip]] *)
Definition not_yet_successful (ip_list : list string) (success : gset string)
  : list string :=
  List.filter (fun ip => bool_decide (ip ∉ success)) ip_list.

Section Orchestrator.
Variable W : World.
Variable ip_list : list string.
Variable file_map : list (string * string).
Variable move_mode : bool.

(** From the input checks to the first test of the [while].
    [old_complete_txt] is what a previous run left behind. *)
Definition main_start (remove_fails : bool) (old_complete_txt : option string)
  : option run_state :=
  if bool_decide (ip_list = []) then None
  else if bool_decide (file_map = []) then None
  else Some {| success_ip := ∅;
               complete_txt := init_complete_file remove_fails old_complete_txt;
               dispatched := notify_start (config W) ip_list;
               at_phase := LoopHead |}.

Definition main_step (ev : main_event) (s : run_state) : option run_state :=
  match at_phase s, ev with
  | LoopHead, EnterRound =>
      if (size (success_ip s) <? length ip_list)%nat then
        let remaining_ip := not_yet_successful ip_list (success_ip s) in
        if bool_decide (remaining_ip = []) then
          Some {| success_ip := success_ip s; complete_txt := complete_txt s;
                  dispatched := dispatched s; at_phase := AfterLoop |}
        else
          Some {| success_ip := success_ip s; complete_txt := complete_txt s;
                  dispatched := dispatched s;
                  at_phase := InRound remaining_ip remaining_ip |}
      else
        Some {| success_ip := success_ip s; complete_txt := complete_txt s;
                dispatched := dispatched s; at_phase := AfterLoop |}
  | InRound remaining_ip futures, FutureDone n e fuel io =>
      match futures !! n with
      | None => None
      | Some ip =>
          match process_single_ip (with_env W e) fuel ip file_map move_mode [] with
          | Returns true _ =>
              let success := {[ip]} ∪ success_ip s in
              Some {| success_ip := success;
                      complete_txt := record_complete_ip io ip (complete_txt s);
                      dispatched :=
                        (dispatched s ++ notify_ip_success (config W) ip)%list;
                      at_phase := InRound remaining_ip (delete n futures) |}
          | Returns false _ | Raised _ _ =>
              Some {| success_ip := success_ip s; complete_txt := complete_txt s;
                      dispatched := dispatched s;
                      at_phase := InRound remaining_ip (delete n futures) |}
          | Looping => None
          end
      end
  | InRound _ [], RoundOver =>
      Some {| success_ip := success_ip s; complete_txt := complete_txt s;
              dispatched := dispatched s; at_phase := LoopHead |}
  | AfterLoop, Epilogue =>
      Some {| success_ip := success_ip s; complete_txt := complete_txt s;
              dispatched :=
                (dispatched s ++ notify_complete (config W) (success_ip s) ip_list)%list;
              at_phase := Finished |}
  | _, _ => None
  end.

Fixpoint main_run (evs : list main_event) (s : run_state) : option run_state :=
  match evs with
  | [] => Some s
  | ev :: rest =>
      match main_step ev s with
      | Some s' => main_run rest s'
      | None => None
      end
  end.

End Orchestrator.

(** ** More of the script: the manifest, the configuration, the operator *)

(** A Python [dict] with string keys: its items in insertion order. *)
Module Dict.

Section Items.
Context {V : Type}.

(** [d.get(k)] *)
Fixpoint get (k : string) (d : list (string * V)) : option V :=
  match d with
  | [] => None
  | (k', v) :: rest => if String.eqb k k' then Some v else get k rest
  end.

(** [d[k] = v]: a key already there keeps its place and takes the value. *)
Fixpoint set (k : string) (v : V) (d : list (string * V)) : list (string * V) :=
  match d with
  | [] => [(k, v)]
  | (k', v') :: rest =>
      if String.eqb k k' then (k, v) :: rest else (k', v') :: set k v rest
  end.

(** [d.update(other)] *)
Definition update (d other : list (string * V)) : list (string * V) :=
  fold_left (fun acc item => set item.1 item.2 acc) other d.

(** [list(d.keys())] *)
Definition keys (d : list (string * V)) : list string := List.map fst d.

End Items.

End Dict.

(** [s.split(sep, 1)] on a text that holds [sep]: what comes before the
    first one and what comes after it. *)
Fixpoint split_once (sep : ascii) (s : string) : string * string :=
  match s with
  | "" => ("", "")
  | String c s' =>
      if Ascii.eqb c sep then ("", s')
      else (String c (split_once sep s').1, (split_once sep s').2)
  end.

(** What [read_file] makes of one stripped line that is neither empty nor a
    comment: the file name and the remote directory. *)
Definition read_file_entry (line : string) : string * string :=
  let entry :=
    if PyStr.contains "=" line then
      let parts := split_once "=" line in
      (PyStr.strip parts.1, PyStr.strip parts.2)
    else (line, "/usr/local/bin/") in
  let filename := entry.1 in
  let path := entry.2 in
  let path :=
    if PyStr.truthy path && negb (PyStr.endswith path "/") then path +:+ "/"
    else path in
  (filename, path).

(** The [for line in f] loop of [read_file], on the stripped lines. *)
Definition read_file_lines (lines : list string) (file_map_dict : list (string * string))
  : list (string * string) :=
  fold_left
    (fun file_map_dict line =>
       if PyStr.startswith line "#" then file_map_dict
       else
         let entry := read_file_entry line in
         Dict.set entry.1 entry.2 file_map_dict)
    lines file_map_dict.

(** [read_file], on the text of an existing, readable [file.txt]. *)
Definition read_file (text : string) : list (string * string) :=
  read_file_lines (stripped_lines text) [].

(** The remote path the deployment plan shows for an entry, in [main] and
    in [build_notification_message]; [move_mode] is [None] where the caller
    of the latter leaves it out. *)
Definition plan_path (move_mode : option bool) (remote_path filename : string) : string :=
  match move_mode with
  | Some true => PosixPath.join remote_path filename
  | Some false => make_remote_file_path remote_path filename
  | None => make_remote_file_path remote_path filename
  end.

(** ** The configuration file *)

(** What [json.load] returns. *)
#[warnings="-register-all"]
Inductive json :=
  | JNull
  | JBool (b : bool)
  | JInt (n : Z)
  | JFloat (repr : string)
  | JStr (s : string)
  | JList (items : list json)
  | JDict (items : list (string * json)).

(** [default_config] of [load_config] *)
Definition default_config : list (string * json) :=
  [("ssh", JDict [("port", JInt 22); ("user", JStr "root"); ("password", JStr "")]);
   ("ping", JDict [("interval", JInt 5); ("timeout", JInt 2)]);
   ("retry", JDict [("interval", JInt 10); ("ssh_attempts_per_round", JInt 10);
                    ("ssh_attempt_interval", JInt 3)]);
   ("notification",
    JDict [("enabled", JBool true);
           ("notify_on", JList [JStr "start"; JStr "ip_success"; JStr "complete"]);
           ("email",
            JDict [("enabled", JBool true);
                   ("smtp_server", JStr "smtp.gmail.com");
                   ("smtp_port", JInt 587);
                   ("sender_email", JStr "asj87451107@gmail.com");
                   ("sender_password", JStr "");
                   ("recipient_emails", JList [JStr "sjan@gaias.co.kr"])])])].

(** Is this value the string [key]?  ([element == key] in [key in a_list].) *)
Definition is_str (key : string) (j : json) : bool :=
  match j with
  | JStr s => String.eqb s key
  | _ => false
  end.

(** One pass of [for key in merged_config].  [key in config] is a look-up
    in an object, a search in a list, a substring test in a string and a
    [TypeError] in anything else; [config[key]] with a string key is a
    [TypeError] in a list and in a string. *)
Definition merge_key (config : json) (merged_config : list (string * json))
    (key : string) : exn + list (string * json) :=
  match config with
  | JDict items =>
      match Dict.get key items with
      | None => inr merged_config
      | Some theirs =>
          match Dict.get key merged_config, theirs with
          | Some (JDict mine), JDict other =>
              inr (Dict.set key (JDict (Dict.update mine other)) merged_config)
          | _, _ => inr (Dict.set key theirs merged_config)
          end
      end
  | JList items =>
      if existsb (is_str key) items then inl TypeError else inr merged_config
  | JStr s =>
      if PyStr.contains key s then inl TypeError else inr merged_config
  | JNull | JBool _ | JInt _ | JFloat _ => inl TypeError
  end.

Fixpoint merge_keys (config : json) (keys : list string)
    (merged_config : list (string * json)) : exn + list (string * json) :=
  match keys with
  | [] => inr merged_config
  | key :: rest =>
      match merge_key config merged_config key with
      | inl e => inl e
      | inr merged_config => merge_keys config rest merged_config
      end
  end.

(** The merge of [load_config]: [merged_config = default_config.copy()],
    then the loop over its keys. *)
Definition merge_config (config : json) : exn + list (string * json) :=
  merge_keys config (Dict.keys default_config) default_config.

(** How [load_config] finds [config.json]: not there (and whether writing
    the default meets an [OSError]), there but not to be opened or read,
    not in the file's encoding, not JSON, or parsed. *)
Inductive config_file :=
  | NoConfigFile (write_fails : bool)
  | Unreadable
  | NotText
  | NotJson
  | Parsed (config : json).

(** [load_config].  [OSError] and [json.JSONDecodeError] are caught; a
    [UnicodeDecodeError] is a [ValueError] that is neither. *)
Definition load_config (f : config_file) : exn + list (string * json) :=
  match f with
  | NoConfigFile _ => inr default_config
  | Unreadable => inr default_config
  | NotText => inl ValueError
  | NotJson => inr default_config
  | Parsed config => merge_config config
  end.

(** What [load_config] leaves in [config.json] when there was none. *)
Definition created_config (f : config_file) : option (list (string * json)) :=
  match f with
  | NoConfigFile false => Some default_config
  | _ => None
  end.

(** The section of [default_config] under [key]. *)
Definition default_section (key : string) : list (string * json) :=
  match Dict.get key default_config with
  | Some (JDict section) => section
  | _ => []
  end.

(** What the merge leaves under [key] for a parsed object [items]: the
    default section when the object has no such key, the default section
    updated with the object's when that is an object too, and otherwise the
    object's value as it is. *)
Definition merged_section (items : list (string * json)) (key : string) : json :=
  match Dict.get key items with
  | None => JDict (default_section key)
  | Some (JDict other) => JDict (Dict.update (default_section key) other)
  | Some theirs => theirs
  end.
(** ** The operator and the host keys *)

(** [s.lower()] on ASCII text. *)
Definition lower_char (c : ascii) : ascii :=
  let n := nat_of_ascii c in
  if ((65 <=? n) && (n <=? 90))%nat then ascii_of_nat (n + 32) else c.

Fixpoint lower (s : string) : string :=
  match s with
  | "" => ""
  | String c s' => String (lower_char c) (lower s')
  end.

(** [get_mode_input]; [inputs] are the lines [input()] hands over one call
    after the other, and at the end of the input it raises [EOFError]. *)
Fixpoint get_mode_input (inputs : list string) : exn + bool :=
  match inputs with
  | [] => inl EOFError
  | line :: rest =>
      let mode_input := lower (PyStr.strip line) in
      if String.eqb mode_input "move" then inr true
      else if String.eqb mode_input "nomove" then inr false
      else get_mode_input rest
  end.

(** The guard of the host-key loop of [main]: [ip and not ip.startswith('#')] *)
Definition host_key_guard (ip : string) : bool :=
  PyStr.truthy ip && negb (PyStr.startswith ip "#").

Section HostKeys.
Variable W : World.

(** [os.path.expanduser("~/.ssh/known_hosts")], as the operator's
    environment has it. *)
Variable known_hosts_file : string.




End HostKeys.
(** ** The statistics object *)

Module Stats.

Section Stats.

(** What [time.time()] returns; the methods only store it. *)
Variable Time : Type.

Record DeploymentStats := {
  start_time : option Time;
  end_time : option Time;
  total_ip : Z;
  success_ip : Z;
  fail_ip : Z;
  ip_time : gmap string Z
}.

(** [DeploymentStats()] *)
Definition init : DeploymentStats :=
  {| start_time := None; end_time := None;
     total_ip := 0; success_ip := 0; fail_ip := 0; ip_time := ∅ |}.

(** [record_reset], at clock reading [now] *)
Definition record_reset (now : Time) (self : DeploymentStats) : DeploymentStats :=
  {| start_time := Some now; end_time := None;
     total_ip := 0; success_ip := 0; fail_ip := 0; ip_time := ∅ |}.

(** [stats.total_ip = n], as [main] assigns it *)
Definition set_total_ip (n : Z) (self : DeploymentStats) : DeploymentStats :=
  {| start_time := start_time self; end_time := end_time self;
     total_ip := n; success_ip := success_ip self; fail_ip := fail_ip self;
     ip_time := ip_time self |}.

(** [record_success] *)
Definition record_success (ip : string) (elapsed : Z) (self : DeploymentStats)
  : DeploymentStats :=
  let success_ip := success_ip self + 1 in
  {| start_time := start_time self; end_time := end_time self;
     total_ip := total_ip self; success_ip := success_ip;
     fail_ip := total_ip self - success_ip;
     ip_time := <[ip := elapsed]> (ip_time self) |}.

(** [record_fail] *)
Definition record_fail (self : DeploymentStats) : DeploymentStats :=
  {| start_time := start_time self; end_time := end_time self;
     total_ip := total_ip self; success_ip := success_ip self;
     fail_ip := total_ip self - success_ip self;
     ip_time := ip_time self |}.

(** What a worker tells the statistics when it is done. *)
Inductive report :=
  | Succeeded (ip : string) (elapsed : Z)
  | Failed.

Definition record (self : DeploymentStats) (r : report) : DeploymentStats :=
  match r with
  | Succeeded ip elapsed => record_success ip elapsed self
  | Failed => record_fail self
  end.

(** The hosts of the reports of success. *)
Definition succeeded (reports : list report) : list string :=
  omap (fun r => match r with Succeeded ip _ => Some ip | Failed => None end) reports.

End Stats.

Arguments start_time {Time} _.
Arguments end_time {Time} _.
Arguments total_ip {Time} _.
Arguments success_ip {Time} _.
Arguments fail_ip {Time} _.
Arguments ip_time {Time} _.
Arguments init {Time}.
Arguments record_reset {Time} now self.
Arguments set_total_ip {Time} n self.
Arguments record_success {Time} ip elapsed self.
Arguments record_fail {Time} self.
Arguments record {Time} self r.

End Stats.

(** ** Sample configurations and worlds, for the examples below *)

Module Sample.

Definition cfg : Config :=
  {| ssh_port := 22; ssh_user := "root"; ssh_password := "pw";
     ping_interval := 5; ping_timeout := 2;
     retry_interval := 10; ssh_attempts_per_round := 2; ssh_attempt_interval := 3;
     notification := None |}.

(** A stand-in for the digest: the examples only compare its values. *)
Definition digest (data : string) : string := "sha256:" +:+ data.

(** Every call succeeds; local files exist and hold ["data"]; the remote
    [sha256sum] prints the digest of the same bytes; [ps] lists two
    processes and a header line. *)
Definition calm : environment := fun _ c =>
  match c with
  | PathExists _ => Ok 1 "" ""
  | ReadFile _ => Ok 0 "data" ""
  | SshExec cmd _ =>
      if String.prefix "sha256sum" cmd then Ok 0 (digest "data" +:+ "  /tmp/f.BMT" +:+ LF) ""
      else if String.prefix "ps " cmd then Ok 0 ("PID" +:+ LF +:+ " 12" +:+ LF +:+ "77 " +:+ LF) ""
      else Ok 0 "" ""
  | _ => Ok 0 "" ""
  end.

Definition world (paramiko pexpect : bool) (e : environment) : World :=
  {| HAS_PARAMIKO := paramiko; HAS_PEXPECT := pexpect; win32 := false;
     sha256_hexdigest := digest; config := cfg; env := e |}.


(** The SSH daemon refuses the first four connections. *)
Definition sshd_late : environment := fun t c =>
  match c with
  | SshConnect _ _ _ _ _ =>
      if (length (List.filter (fun ev => match ev.1 with
                                         | SshConnect _ _ _ _ _ => true
                                         | _ => false
                                         end) t) <? 4)%nat
      then Raises SSHException else Ok 0 "" ""
  | _ => Ok 0 "" ""
  end.

(** The remote file does not hold the bytes that were sent. *)
Definition tampered : environment := fun _ c =>
  match c with
  | PathExists _ => Ok 1 "" ""
  | ReadFile _ => Ok 0 "data" ""
  | SshExec cmd _ =>
      if String.prefix "sha256sum" cmd
      then Ok 0 (digest "other" +:+ "  /tmp/f.BMT" +:+ LF) ""
      else Ok 0 "" ""
  | _ => Ok 0 "" ""
  end.

(** [mv] works, [ps] lists three lines, and no process lets itself be
    killed: one [kill] exits with status one, the other loses the channel. *)
Definition unkillable : environment := fun _ c =>
  match c with
  | SshExec cmd _ =>
      if String.prefix "ps " cmd then Ok 0 ("12 34" +:+ LF +:+ " 56" +:+ LF +:+ "78") ""
      else if String.prefix "kill -9 56" cmd then Ok 1 "" "No such process"
      else if String.prefix "kill" cmd then Raises SSHException
      else Ok 0 "" ""
  | _ => Ok 0 "" ""
  end.

(** [mv] fails. *)
Definition read_only_disk : environment := fun _ c =>
  match c with
  | SshExec cmd _ =>
      if String.prefix "mv " cmd then Ok 1 "" "Read-only file system" else Ok 0 "" ""
  | _ => Ok 0 "" ""
  end.

(** [/usr] and [/usr/local] are already on the remote side. *)
Definition half_there : environment := fun _ c =>
  match c with
  | SftpMkdir p =>
      if bool_decide (p ∈ ["/usr"; "/usr/local"]) then Raises OSError else Ok 0 "" ""
  | _ => Ok 0 "" ""
  end.

(** Mail is on, and only the start and the end of a run are to be told. *)
Definition cfg_start_and_complete : Config :=
  {| ssh_port := 22; ssh_user := "root"; ssh_password := "pw";
     ping_interval := 5; ping_timeout := 2;
     retry_interval := 10; ssh_attempts_per_round := 2; ssh_attempt_interval := 3;
     notification :=
       Some {| notification_enabled := Some true;
               notify_on := Some ["start"; "complete"];
               email :=
                 Some {| email_enabled := Some true;
                         sender_email := Some "ops@example.org";
                         recipient_emails := Some ["team@example.org"] |} |} |}.

Definition world_start_and_complete : World :=
  {| HAS_PARAMIKO := false; HAS_PEXPECT := false; win32 := false;
     sha256_hexdigest := digest; config := cfg_start_and_complete; env := calm |}.

(** An [ip.txt] with a comment, a blank line and padded lines. *)
Definition ip_txt : string :=
  "# bench 3" +:+ LF +:+ "10.0.0.7" +:+ LF +:+ LF +:+ "  fde0::1 " +:+ CR +:+ LF.

Definition manifest : list (string * string) := [("svc", "/usr/local/bin/")].

(** Both workers return in the first round, the second host first. *)
Definition both_succeed : list main_event :=
  [EnterRound; FutureDone 1 calm 1 IoFine; FutureDone 0 calm 1 IoFine;
   RoundOver; EnterRound; Epilogue].

(** The disk is full when the second host is to be recorded. *)
Definition disk_full : list main_event :=
  [EnterRound; FutureDone 1 calm 1 IoFine; FutureDone 0 calm 1 AppendFails;
   RoundOver; EnterRound; Epilogue].

End Sample.

(** ** Vocabulary of the properties *)

Local Open Scope list_scope.

(** [only P m]: whatever [m] does, it returns or raises after adding to the
    trace nothing but events that satisfy [P]. *)
Definition only (P : call * reply -> Prop) {A} (m : M A) : Prop :=
  forall t,
    match m t with
    | Returns _ t' | Raised _ t' => exists new, t' = (t ++ new)%list /\ Forall P new
    | Looping => True
    end.

(** [begins W c m]: the first thing [m] does is the call [c]. *)
Definition begins (W : World) (c : call) {A} (m : M A) : Prop :=
  forall t,
    match m t with
    | Returns _ t' | Raised _ t' => exists rest, t' = t ++ (c, env W t c) :: rest
    | Looping => True
    end.

Definition any_event (_ : call * reply) : Prop := True.

Definition ping_call (W : World) (ip : string) : call :=
  SubprocessRun (ping_argv W ip) None (ping_timeout (config W) + 1).

(** What happens between two pings that did not get through: a pause, or a
    ping that did not exit with status zero. *)
Definition fruitless (W : World) (ip : string) (ev : call * reply) : Prop :=
  (exists n r, ev = (Sleep n, r)) \/
  (exists r, ev = (ping_call W ip, r) /\ forall out err, r <> Ok 0 out err).

Definition ssh_probe_call (W : World) (ip : string) : call :=
  SshConnect ip (ssh_port (config W)) (ssh_user (config W)) (ssh_password (config W)) 5.







Definition is_ssh_call (c : call) : bool :=
  match c with
  | SshConnect _ _ _ _ _ | SshExec _ _ | SshClose => true
  | _ => false
  end.

Definition no_ssh (ev : call * reply) : Prop := is_ssh_call ev.1 = false.

(** The directories on the way to a file, outermost first: each is its
    parent, a slash, and the next segment of the path. *)
Fixpoint directory_chain (parent : string) (segments : list string) : list string :=
  match segments with
  | [] => []
  | d :: ds => (parent +:+ "/" +:+ d) :: directory_chain (parent +:+ "/" +:+ d) ds
  end.

(** The non-empty pieces between the slashes of the directory part. *)
Definition directory_segments (remote_file_path : string) : list string :=
  List.filter PyStr.truthy (PyStr.split "/" (PosixPath.dirname remote_file_path)).

(** The paths of the [mkdir] calls of a trace, in order. *)
Definition mkdirs_of (t : trace) : list string :=
  omap (fun ev => match ev.1 with SftpMkdir p => Some p | _ => None end) t.

Definition mkdir_or_stat (ev : call * reply) : Prop :=
  exists p, ev.1 = SftpMkdir p \/ ev.1 = SftpStat p.

(** Does a call ask the remote side to create a directory? *)
Definition creates_directory (c : call) : bool :=
  match c with
  | SftpMkdir _ => true
  | PexpectSendline line => PyStr.contains "mkdir" line
  | SubprocessRun _ (Some input) _ => PyStr.contains "mkdir" input
  | SshExec cmd _ => PyStr.contains "mkdir" cmd
  | _ => false
  end.

Definition set_phase (s : run_state) (p : phase) : run_state :=
  {| success_ip := success_ip s; complete_txt := complete_txt s;
     dispatched := dispatched s; at_phase := p |}.

(** The moves of [main_step], one constructor per way through it. *)
Inductive transition (W : World) (ip_list : list string)
    (file_map : list (string * string)) (move_mode : bool)
  : main_event -> run_state -> run_state -> Prop :=
  | enter_round s remaining_ip :
      at_phase s = LoopHead ->
      (size (success_ip s) < length ip_list)%nat ->
      remaining_ip = not_yet_successful ip_list (success_ip s) ->
      remaining_ip <> [] ->
      transition W ip_list file_map move_mode EnterRound s
        (set_phase s (InRound remaining_ip remaining_ip))
  | leave_loop s :
      at_phase s = LoopHead ->
      (length ip_list <= size (success_ip s))%nat
      \/ not_yet_successful ip_list (success_ip s) = [] ->
      transition W ip_list file_map move_mode EnterRound s (set_phase s AfterLoop)
  | worker_succeeded s remaining_ip futures n e fuel io ip t :
      at_phase s = InRound remaining_ip futures ->
      futures !! n = Some ip ->
      process_single_ip (with_env W e) fuel ip file_map move_mode [] = Returns true t ->
      transition W ip_list file_map move_mode (FutureDone n e fuel io) s
        {| success_ip := {[ip]} ∪ success_ip s;
           complete_txt := record_complete_ip io ip (complete_txt s);
           dispatched := dispatched s ++ notify_ip_success (config W) ip;
           at_phase := InRound remaining_ip (delete n futures) |}
  | worker_failed s remaining_ip futures n e fuel io ip :
      at_phase s = InRound remaining_ip futures ->
      futures !! n = Some ip ->
      (exists t, process_single_ip (with_env W e) fuel ip file_map move_mode []
                 = Returns false t)
      \/ (exists x t, process_single_ip (with_env W e) fuel ip file_map move_mode []
                      = Raised x t) ->
      transition W ip_list file_map move_mode (FutureDone n e fuel io) s
        (set_phase s (InRound remaining_ip (delete n futures)))
  | round_over s remaining_ip :
      at_phase s = InRound remaining_ip [] ->
      transition W ip_list file_map move_mode RoundOver s (set_phase s LoopHead)
  | epilogue s :
      at_phase s = AfterLoop ->
      transition W ip_list file_map move_mode Epilogue s
        {| success_ip := success_ip s; complete_txt := complete_txt s;
           dispatched :=
             dispatched s ++ notify_complete (config W) (success_ip s) ip_list;
           at_phase := Finished |}.

(** A dispatch is masked when its one tag is among the three events, is
    listed in [notify_on] with notifications enabled, and reached the mail
    server only with mail enabled. *)
Definition masked (c : Config) (d : dispatch) : Prop :=
  exists tag,
    event d = [tag] /\ tag ∈ ["start"; "ip_success"; "complete"] /\
    notification_on c = true /\ listed c tag = true /\
    (smtp d = true -> email_on c = true).

(** What [main] dispatches for the event [tag] when it gets to the place
    where that event is told: one message under [subject] when notifications
    are enabled and [tag] is listed in [notify_on], and nothing otherwise. *)
Definition told (c : Config) (tag subject : string) : list dispatch :=
  if notification_on c && listed c tag then
    [{| event := [tag]; subject := subject; smtp := send_email_notification c |}]
  else [].

(** [entries_done W fuel ip move_mode file_map t t']: starting from trace
    [t], each entry of the manifest, in order, was either found missing
    locally or sent by a [send_single_file] that returned [True]; [t'] is the
    trace at the end. *)
Inductive entries_done (W : World) (fuel : nat) (ip : string) (move_mode : bool)
  : list (string * string) -> trace -> trace -> Prop :=
  | done_nil t : entries_done W fuel ip move_mode [] t t
  | done_missing filename remote_path rest t t1 t' :
      os_path_exists W (PosixPath.join FILE_DIR filename) t = Returns false t1 ->
      entries_done W fuel ip move_mode rest t1 t' ->
      entries_done W fuel ip move_mode ((filename, remote_path) :: rest) t t'
  | done_sent filename remote_path rest t t1 t2 t' :
      os_path_exists W (PosixPath.join FILE_DIR filename) t = Returns true t1 ->
      send_single_file W fuel ip filename (PosixPath.join FILE_DIR filename)
        (make_remote_file_path remote_path filename) move_mode t1 = Returns true t2 ->
      entries_done W fuel ip move_mode rest t2 t' ->
      entries_done W fuel ip move_mode ((filename, remote_path) :: rest) t t'.

(** The worker of one future, the one [FutureDone n e fuel io] stands for:
    its call of [process_single_ip] for [ip], against the world [e] of that
    event and within the [fuel] of that event, got through the readiness
    gate and through every entry of the manifest, and returned [True]. *)
Definition whole_worker (W : World) (file_map : list (string * string))
    (move_mode : bool) (e : environment) (fuel : nat) (ip : string) : Prop :=
  exists t1 t',
    wait_for_ssh_ready (with_env W e) fuel ip [] = Returns true t1 /\
    entries_done (with_env W e) fuel ip move_mode file_map t1 t' /\
    process_single_ip (with_env W e) fuel ip file_map move_mode [] = Returns true t'.

(** A step of the run that puts [ip] into the success set: the future that
    completes is the one of [ip] in the round under way, and its worker is
    a whole one. *)
Definition placed_by (W : World) (file_map : list (string * string))
    (move_mode : bool) (ev : main_event) (s : run_state) (ip : string) : Prop :=
  exists n e fuel io remaining_ip futures,
    ev = FutureDone n e fuel io /\
    at_phase s = InRound remaining_ip futures /\
    futures !! n = Some ip /\
    whole_worker W file_map move_mode e fuel ip.

(** What holds of the run state at every point of the loop. *)
Definition run_invariant (W : World) (ip_list : list string)
    (file_map : list (string * string)) (move_mode : bool) (s : run_state) : Prop :=
  (forall h, h ∈ success_ip s -> h ∈ ip_list) /\
  (forall remaining_ip futures,
      at_phase s = InRound remaining_ip futures ->
      (forall h, h ∈ futures -> h ∈ remaining_ip) /\
      (forall h, h ∈ remaining_ip -> h ∈ ip_list) /\
      (forall h, h ∈ not_yet_successful ip_list (success_ip s) -> h ∈ remaining_ip)).

Definition has_char (c : ascii) (s : string) : bool := PyStr.contains (String c "") s.

(** A host as [read_ip_list] yields it: a stripped, non-empty line. *)
Definition host_line (h : string) : Prop :=
  PyStr.strip h = h /\ h <> "" /\ has_char "010" h = false /\ has_char "013" h = false.

(** The text that holds the given hosts, one per line. *)
Definition ledger_text (hosts : list string) : string :=
  fold_right (fun h acc => h +:+ LF +:+ acc) "" hosts.


(** No [OSError] on [complete.txt] at this step. *)
Definition ledger_fine (ev : main_event) : Prop :=
  match ev with
  | FutureDone _ _ _ io => io = IoFine
  | _ => True
  end.

(** The ledger holds the success set, each host on a line of its own. *)
Definition ledger_invariant (s : run_state) : Prop :=
  exists hosts,
    NoDup hosts /\ Forall host_line hosts /\
    (forall h, h ∈ hosts <-> h ∈ success_ip s) /\
    (complete_txt s = None /\ hosts = [] \/ complete_txt s = Some (ledger_text hosts)).



(** The text is empty or its last character satisfies [P]. *)
Fixpoint last_in (P : ascii -> bool) (s : string) : bool :=
  match s with
  | "" => true
  | String c s' =>
      match s' with
      | "" => P c
      | _ => last_in P s'
      end
  end.


(** [below o1 o2]: [o2] is [o1], or [o1] is a loop that had not finished. *)
Definition below {A} (o1 o2 : outcome A) : Prop := o1 = Looping \/ o1 = o2.

(** [m1] run with less fuel, [m2] with more. *)
Definition more_fuel {A} (m1 m2 : M A) : Prop := forall t, below (m1 t) (m2 t).

(** *** Vocabulary of the further properties *)

(** A line the operator typed answers the question with [move] ([true]) or
    [nomove] ([false]), padding and case apart. *)
Definition answers (line : string) (move : bool) : Prop :=
  lower (PyStr.strip line) = if move then "move" else "nomove".

(** A line that is no answer. *)
Definition no_answer (line : string) : Prop :=
  ~ answers line true /\ ~ answers line false.

(** The remote commands of a run that leaves the running software alone:
    the probe of the readiness gate and the hash of an uploaded file. *)
Definition harmless_call (c : call) : Prop :=
  match c with
  | SshExec cmd _ => cmd = "echo test" \/ exists path, cmd = "sha256sum " +:+ path
  | _ => True
  end.

Definition harmless (ev : call * reply) : Prop := harmless_call ev.1.
(** [adds R m]: whatever [m] does, what it adds to the trace satisfies [R]. *)
Definition adds (R : trace -> Prop) {A} (m : M A) : Prop :=
  forall t,
    match m t with
    | Returns _ t' | Raised _ t' => exists new, t' = t ++ new /\ R new
    | Looping => True
    end.

(** Sessions: an [SSHClient] is there from the attempt to connect on, a
    transport once its constructor has returned, an SFTP client once
    [from_transport] has. *)
Definition opens_ssh (ev : call * reply) : bool :=
  match ev.1 with
  | SshConnect _ _ _ _ _ => true
  | _ => false
  end.

Definition closes_ssh (ev : call * reply) : bool :=
  match ev.1 with
  | SshClose => true
  | _ => false
  end.

Definition opens_transport (ev : call * reply) : bool :=
  match ev with
  | (TransportOpen _ _, Ok _ _ _) => true
  | _ => false
  end.

Definition closes_transport (ev : call * reply) : bool :=
  match ev.1 with
  | TransportClose => true
  | _ => false
  end.

Definition opens_sftp (ev : call * reply) : bool :=
  match ev with
  | (SftpFromTransport, Ok _ _ _) => true
  | _ => false
  end.

Definition closes_sftp (ev : call * reply) : bool :=
  match ev.1 with
  | SftpClose => true
  | _ => false
  end.

Definition count (f : call * reply -> bool) (t : trace) : nat :=
  length (List.filter f t).

(** As many sessions closed as opened, of each kind. *)
Definition no_leak (new : trace) : Prop :=
  count opens_ssh new = count closes_ssh new /\
  count opens_transport new = count closes_transport new /\
  count opens_sftp new = count closes_sftp new.

(** An event that neither opens nor closes a session. *)
Definition no_session (ev : call * reply) : Prop :=
  opens_ssh ev = false /\ closes_ssh ev = false /\
  opens_transport ev = false /\ closes_transport ev = false /\
  opens_sftp ev = false /\ closes_sftp ev = false.
(** The batch [send_file_sftp_subprocess] feeds to [sftp], and its call. *)
Definition sftp_batch (local_file_path remote_file_path : string) : string :=
  "put " +:+ local_file_path +:+ " " +:+ remote_file_path
  +:+ String "010" "quit" +:+ String "010" "".

Definition sftp_subprocess_call (W : World) (ip local_file_path remote_file_path : string)
  : call :=
  SubprocessRun (sftp_argv W (format_ip_for_sftp ip))
    (Some (sftp_batch local_file_path remote_file_path)) 30.

(** A [mkdir] or a [stat] on a path that begins at the root. *)
Definition from_the_root (ev : call * reply) : Prop :=
  exists p, (ev.1 = SftpMkdir p \/ ev.1 = SftpStat p) /\ PyStr.startswith p "/" = true.

(** A pause of the given length. *)
Definition is_sleep (secs : Z) (ev : call * reply) : bool :=
  bool_decide (ev.1 = Sleep secs).

Module Scene.

(** The [sftp] binary cannot log in; neither library is of help. *)
Definition sftp_refused : environment := fun _ c =>
  match c with
  | PathExists _ => Ok 1 "" ""
  | SubprocessRun ("sftp" :: _) _ _ => Ok 255 "" "Permission denied"
  | _ => Ok 0 "" ""
  end.

(** A configuration that asks for no SSH attempt at all. *)
Definition cfg_no_attempts : Config :=
  {| ssh_port := 22; ssh_user := "root"; ssh_password := "pw";
     ping_interval := 5; ping_timeout := 2;
     retry_interval := 10; ssh_attempts_per_round := 0; ssh_attempt_interval := 3;
     notification := None |}.

Definition world_no_attempts : World :=
  {| HAS_PARAMIKO := true; HAS_PEXPECT := false; win32 := false;
     sha256_hexdigest := Sample.digest; config := cfg_no_attempts; env := Sample.calm |}.

(** No SSH daemon answers. *)
Definition sshd_down : environment := fun _ c =>
  match c with
  | SshConnect _ _ _ _ _ => Raises SSHException
  | _ => Ok 0 "" ""
  end.

End Scene.
(** [main] has left the round loop. *)
Definition loop_left (s : run_state) : Prop :=
  at_phase s = AfterLoop \/ at_phase s = Finished.

(** A dispatch for the end of the run. *)
Definition tells_complete (d : dispatch) : Prop := event d = ["complete"].

Module Roster.

(** An [ip.txt] that names one host twice. *)
Definition twice : list string := ["10.0.0.7"; "10.0.0.7"].

(** Both workers of the one round succeed; the next pass through the loop
    head finds no host left and breaks out. *)
Definition run : list main_event :=
  [EnterRound; FutureDone 0 Sample.calm 1 IoFine; FutureDone 0 Sample.calm 1 IoFine;
   RoundOver; EnterRound; Epilogue].

End Roster.

(* ================================================================== *)
(** * Properties *)

(** ** Sanity checks of the string helpers *)

Example strip_ex : PyStr.strip "  12 34 " = "12 34".
Proof. reflexivity. Qed.
Example split_ex : PyStr.split "010" ("1" +:+ String "010" "" +:+ "22") = ["1"; "22"].
Proof. reflexivity. Qed.
Example split_ws_ex : PyStr.split_ws "ab  cd e" = ["ab"; "cd"; "e"].
Proof. reflexivity. Qed.
Example replace_ex : PyStr.replace "/a.BMT/b.BMT" ".BMT" "" = "/a/b".
Proof. reflexivity. Qed.
Example replace_ex2 : PyStr.replace "aaa" "aa" "b" = "ba".
Proof. reflexivity. Qed.
Example dirname_ex : PosixPath.dirname "/usr/local/bin/svc.BMT" = "/usr/local/bin".
Proof. reflexivity. Qed.
Example dirname_ex2 : PosixPath.dirname "svc.BMT" = "".
Proof. reflexivity. Qed.
Example dirname_ex3 : PosixPath.dirname "//svc" = "//".
Proof. reflexivity. Qed.
Example join_ex : PosixPath.join "file" "svc" = "file/svc".
Proof. reflexivity. Qed.
Example format_ip_v6 : format_ip_for_sftp "fde0::1" = "[fde0::1]".
Proof. reflexivity. Qed.
Example format_ip_v4 : format_ip_for_sftp "10.0.0.7" = "10.0.0.7".
Proof. reflexivity. Qed.

Example pretty_port : pretty 22 = "22".
Proof. reflexivity. Qed.

(** ** Reasoning about runs *)

Lemma bind_returns {A B} (m : M A) (k : A -> M B) t b t' :
  bind m k t = Returns b t' ->
  exists a t1, m t = Returns a t1 /\ k a t1 = Returns b t'.
Proof.
  unfold bind. destruct (m t) as [a t1|e t1|]; intros H; try discriminate.
  exists a, t1. split; [reflexivity|exact H].
Qed.

Lemma bind_of_returns {A B} (m : M A) (k : A -> M B) t a t1 :
  m t = Returns a t1 -> bind m k t = k a t1.
Proof. unfold bind. intros ->. reflexivity. Qed.

Lemma bind_of_raised {A B} (m : M A) (k : A -> M B) t e t1 :
  m t = Raised e t1 -> bind m k t = Raised e t1.
Proof. unfold bind. intros ->. reflexivity. Qed.

Lemma perform_eq W c t : perform W c t = Returns (env W t c) (t ++ [(c, env W t c)])%list.
Proof. reflexivity. Qed.

Lemma invoke_ok W c t code out err :
  env W t c = Ok code out err ->
  invoke W c t = Returns (code, out, err) (t ++ [(c, Ok code out err)])%list.
Proof. intros H. unfold invoke, bind. rewrite perform_eq, H. reflexivity. Qed.

Lemma invoke_raises W c t e :
  env W t c = Raises e ->
  invoke W c t = Raised e (t ++ [(c, Raises e)])%list.
Proof. intros H. unfold invoke, bind. rewrite perform_eq, H. reflexivity. Qed.

Lemma sleep_eq W n t : sleep W n t = Returns tt (t ++ [(Sleep n, env W t (Sleep n))])%list.
Proof. reflexivity. Qed.

Section Only.
Context (P : call * reply -> Prop).

Lemma only_ret {A} (a : A) : only P (ret a).
Proof. intros t. exists []. split; [by rewrite app_nil_r|constructor]. Qed.

Lemma only_raise {A} e : only P (@raise A e).
Proof. intros t. exists []. split; [by rewrite app_nil_r|constructor]. Qed.

Lemma only_looping {A} : only P (fun _ => @Looping A).
Proof. intros t. exact I. Qed.

Lemma only_bind {A B} (m : M A) (k : A -> M B) :
  only P m -> (forall a, only P (k a)) -> only P (bind m k).
Proof.
  intros Hm Hk t. unfold bind. specialize (Hm t).
  destruct (m t) as [a t1|e t1|]; [|exact Hm|exact I].
  destruct Hm as (n1 & -> & F1). specialize (Hk a (t ++ n1)%list).
  destruct (k a (t ++ n1)%list) as [b t2|e t2|]; [| |exact I];
    destruct Hk as (n2 & -> & F2); exists (n1 ++ n2)%list;
    (split; [by rewrite app_assoc|by apply Forall_app]).
Qed.

Lemma only_try_except {A} (m : M A) classes h :
  only P m -> (forall e, only P (h e)) -> only P (try_except m classes h).
Proof.
  intros Hm Hh t. unfold try_except. specialize (Hm t).
  destruct (m t) as [a t1|e t1|]; [exact Hm| |exact I].
  destruct (caught_by classes e); [|exact Hm].
  destruct Hm as (n1 & -> & F1). specialize (Hh e (t ++ n1)%list).
  destruct (h e (t ++ n1)%list) as [b t2|e2 t2|]; [| |exact I];
    destruct Hh as (n2 & -> & F2); exists (n1 ++ n2)%list;
    (split; [by rewrite app_assoc|by apply Forall_app]).
Qed.

Lemma only_try_except_Exception {A} (m : M A) h :
  only P m -> (forall e, only P (h e)) -> only P (try_except_Exception m h).
Proof.
  intros Hm Hh t. unfold try_except_Exception. specialize (Hm t).
  destruct (m t) as [a t1|e t1|]; [exact Hm| |exact I].
  destruct Hm as (n1 & -> & F1). specialize (Hh e (t ++ n1)%list).
  destruct (h e (t ++ n1)%list) as [b t2|e2 t2|]; [| |exact I];
    destruct Hh as (n2 & -> & F2); exists (n1 ++ n2)%list;
    (split; [by rewrite app_assoc|by apply Forall_app]).
Qed.

Lemma only_finally {A B} (m : M A) (c : M B) :
  only P m -> only P c -> only P (finally m c).
Proof.
  intros Hm Hc t. unfold finally. specialize (Hm t).
  destruct (m t) as [a t1|e t1|]; [| |exact I];
    destruct Hm as (n1 & -> & F1); specialize (Hc (t ++ n1)%list);
    destruct (c (t ++ n1)%list) as [b t2|e2 t2|]; try exact I;
    destruct Hc as (n2 & -> & F2); exists (n1 ++ n2)%list;
    (split; [by rewrite app_assoc|by apply Forall_app]).
Qed.

Lemma only_perform W c : (forall r, P (c, r)) -> only P (perform W c).
Proof.
  intros H t. rewrite perform_eq. eexists. split; [reflexivity|].
  constructor; [apply H|constructor].
Qed.

Lemma only_invoke W c : (forall r, P (c, r)) -> only P (invoke W c).
Proof.
  intros H. unfold invoke. apply only_bind; [by apply only_perform|].
  intros [code out err|e]; [apply only_ret|apply only_raise].
Qed.

Lemma only_sleep W n : (forall r, P (Sleep n, r)) -> only P (sleep W n).
Proof.
  intros H. unfold sleep. apply only_bind; [by apply only_perform|].
  intros _. apply only_ret.
Qed.

Lemma only_os_path_exists W p : (forall r, P (PathExists p, r)) -> only P (os_path_exists W p).
Proof.
  intros H. unfold os_path_exists. apply only_bind; [by apply only_perform|].
  intros [code out err|e]; apply only_ret.
Qed.

Lemma only_if {A} (b : bool) (m1 m2 : M A) :
  only P m1 -> only P m2 -> only P (if b then m1 else m2).
Proof. by destruct b. Qed.
End Only.

Lemma only_returns {A} P (m : M A) t a t' :
  only P m -> m t = Returns a t' -> exists new, t' = (t ++ new)%list /\ Forall P new.
Proof. intros H E. specialize (H t). by rewrite E in H. Qed.

(** ** Fuel

    Fuel only bounds how long a run is followed: with more of it a loop
    that had not finished may finish, and a run that had returned or raised
    does the same again. *)

Lemma more_fuel_refl {A} (m : M A) : more_fuel m m.
Proof. intros t. by right. Qed.

Lemma more_fuel_loop {A} (m : M A) : more_fuel (fun _ => Looping) m.
Proof. intros t. by left. Qed.

Lemma more_fuel_bind {A B} (m1 m2 : M A) (k1 k2 : A -> M B) :
  more_fuel m1 m2 -> (forall a, more_fuel (k1 a) (k2 a)) ->
  more_fuel (bind m1 k1) (bind m2 k2).
Proof.
  intros Hm Hk t. unfold bind. destruct (Hm t) as [->| ->]; [by left|].
  destruct (m2 t) as [a t1|e t1|]; [apply Hk|by right|by left].
Qed.

Lemma more_fuel_try_except_Exception {A} (m1 m2 : M A) h :
  more_fuel m1 m2 -> more_fuel (try_except_Exception m1 h) (try_except_Exception m2 h).
Proof.
  intros Hm t. unfold try_except_Exception. destruct (Hm t) as [->| ->]; [by left|by right].
Qed.

Lemma wait_for_ping_more_fuel W fuel ip :
  more_fuel (wait_for_ping W fuel ip) (wait_for_ping W (S fuel) ip).
Proof.
  induction fuel as [|fuel IH]; [apply more_fuel_loop|].
  cbn [wait_for_ping]. apply more_fuel_bind; [apply more_fuel_refl|].
  intros [|]; [apply more_fuel_refl|].
  apply more_fuel_bind; [apply more_fuel_refl|]. intros _. exact IH.
Qed.

Lemma wait_for_ssh_ready_more_fuel W fuel ip :
  more_fuel (wait_for_ssh_ready W fuel ip) (wait_for_ssh_ready W (S fuel) ip).
Proof.
  unfold wait_for_ssh_ready. destruct (negb (HAS_PARAMIKO W)).
  - apply more_fuel_bind; [apply wait_for_ping_more_fuel|intros; apply more_fuel_refl].
  - induction fuel as [|fuel IH]; [apply more_fuel_loop|].
    cbn [wait_for_ssh_ready_loop].
    apply more_fuel_bind; [apply wait_for_ping_more_fuel|]. intros _.
    apply more_fuel_bind; [apply more_fuel_refl|].
    intros [|]; [apply more_fuel_refl|exact IH].
Qed.

Lemma send_single_file_S W fuel ip filename l r move_mode :
  send_single_file W (S fuel) ip filename l r move_mode =
  (let* success := send_file_with_fallback W ip l r in
   if success then
     if move_mode && HAS_PARAMIKO W then
       let* done := execute_remote_commands W ip r filename in
       if done then ret true
       else do sleep W 2 then send_single_file W fuel ip filename l r move_mode
     else ret true
   else do sleep W 5 then send_single_file W fuel ip filename l r move_mode).
Proof. reflexivity. Qed.

Lemma send_single_file_more_fuel W fuel ip filename l r move_mode :
  more_fuel (send_single_file W fuel ip filename l r move_mode)
    (send_single_file W (S fuel) ip filename l r move_mode).
Proof.
  induction fuel as [|fuel IH]; [apply more_fuel_loop|].
  rewrite (send_single_file_S W fuel), (send_single_file_S W (S fuel)).
  apply more_fuel_bind; [apply more_fuel_refl|].
  intros [|].
  - destruct (move_mode && HAS_PARAMIKO W); [|apply more_fuel_refl].
    apply more_fuel_bind; [apply more_fuel_refl|].
    intros [|]; [apply more_fuel_refl|].
    apply more_fuel_bind; [apply more_fuel_refl|]. intros _. exact IH.
  - apply more_fuel_bind; [apply more_fuel_refl|]. intros _. exact IH.
Qed.

Lemma process_entries_more_fuel W fuel ip move_mode file_map :
  more_fuel (process_entries W fuel ip move_mode file_map)
    (process_entries W (S fuel) ip move_mode file_map).
Proof.
  induction file_map as [|entry rest IH]; [apply more_fuel_refl|].
  cbn [process_entries]. apply more_fuel_bind; [|intros _; exact IH].
  unfold process_entry. apply more_fuel_bind; [apply more_fuel_refl|].
  intros found. destruct (negb found); [apply more_fuel_refl|].
  apply more_fuel_bind; [apply send_single_file_more_fuel|intros; apply more_fuel_refl].
Qed.

(** A worker that has returned within some fuel returns the same with any
    larger fuel. *)
Lemma process_single_ip_more_fuel W fuel extra ip file_map move_mode t b t' :
  process_single_ip W fuel ip file_map move_mode t = Returns b t' ->
  process_single_ip W (fuel + extra) ip file_map move_mode t = Returns b t'.
Proof.
  intros H. induction extra as [|extra IH]; [by rewrite Nat.add_0_r|].
  rewrite Nat.add_succ_r.
  assert (more_fuel (process_single_ip W (fuel + extra) ip file_map move_mode)
            (process_single_ip W (S (fuel + extra)) ip file_map move_mode)) as Hm.
  { unfold process_single_ip. apply more_fuel_try_except_Exception.
    apply more_fuel_bind; [apply wait_for_ssh_ready_more_fuel|]. intros _.
    apply more_fuel_bind; [apply process_entries_more_fuel|].
    intros; apply more_fuel_refl. }
  destruct (Hm t) as [Hl|Heq]; congruence.
Qed.

(** ** The reachability probe *)

(** An exception outside the three classes of the [except] clause is not
    caught: the model of [ping_check] can raise. *)
Lemma ping_check_lets_TypeError_through (W : World) (ip : string) (t : trace) :
  let c := SubprocessRun (ping_argv W ip) None (ping_timeout (config W) + 1) in
  env W t c = Raises TypeError ->
  ping_check W ip t = Raised TypeError (t ++ [(c, Raises TypeError)]).
Proof.
  intros c H. unfold ping_check, try_except.
  rewrite (bind_of_raised _ _ _ _ _ (invoke_raises W c t TypeError H)). reflexivity.
Qed.



(** A tactic that walks through a monadic term built from the combinators. *)
Ltac only_step :=
  lazymatch goal with
  | |- @only _ _ _ =>
      first
        [ apply only_ret | apply only_raise | apply only_looping
        | apply only_sleep; intros ?
        | apply only_os_path_exists; intros ?
        | apply only_invoke; intros ?
        | apply only_perform; intros ?
        | apply only_bind; [|intros ?]
        | apply only_try_except; [|intros ?]
        | apply only_try_except_Exception; [|intros ?]
        | apply only_finally
        | match goal with
          | |- only _ (if ?b then _ else _) => destruct b
          | |- only _ (match ?x with _ => _ end) => destruct x
          end ]
  end.
Ltac only_walk := repeat only_step.

Lemma begins_invoke W c : begins W c (invoke W c).
Proof.
  intros t. unfold invoke, bind. rewrite perform_eq.
  destruct (env W t c); exists []; reflexivity.
Qed.

Lemma begins_bind W c {A B} (m : M A) (k : A -> M B) :
  begins W c m -> (forall a, only any_event (k a)) -> begins W c (bind m k).
Proof.
  intros Hm Hk t. unfold bind. specialize (Hm t).
  destruct (m t) as [a t1|e t1|]; [|exact Hm|exact I].
  destruct Hm as (rest & ->). specialize (Hk a (t ++ (c, env W t c) :: rest)).
  destruct (k a _) as [b t2|e t2|]; [| |exact I];
    destruct Hk as (n2 & -> & _); exists (rest ++ n2);
    by rewrite <- app_assoc.
Qed.

Lemma begins_try_except W c {A} (m : M A) classes h :
  begins W c m -> (forall e, only any_event (h e)) -> begins W c (try_except m classes h).
Proof.
  intros Hm Hh t. unfold try_except. specialize (Hm t).
  destruct (m t) as [a t1|e t1|]; [exact Hm| |exact I].
  destruct (caught_by classes e); [|exact Hm].
  destruct Hm as (rest & ->). specialize (Hh e (t ++ (c, env W t c) :: rest)).
  destruct (h e _) as [b t2|e2 t2|]; [| |exact I];
    destruct Hh as (n2 & -> & _); exists (rest ++ n2);
    by rewrite <- app_assoc.
Qed.

Lemma begins_try_except_Exception W c {A} (m : M A) h :
  begins W c m -> (forall e, only any_event (h e)) ->
  begins W c (try_except_Exception m h).
Proof.
  intros Hm Hh t. unfold try_except_Exception. specialize (Hm t).
  destruct (m t) as [a t1|e t1|]; [exact Hm| |exact I].
  destruct Hm as (rest & ->). specialize (Hh e (t ++ (c, env W t c) :: rest)).
  destruct (h e _) as [b t2|e2 t2|]; [| |exact I];
    destruct Hh as (n2 & -> & _); exists (rest ++ n2);
    by rewrite <- app_assoc.
Qed.

Lemma begins_finally W c {A B} (m : M A) (cl : M B) :
  begins W c m -> only any_event cl -> begins W c (finally m cl).
Proof.
  intros Hm Hc t. unfold finally. specialize (Hm t).
  destruct (m t) as [a t1|e t1|]; [| |exact I];
    destruct Hm as (rest & ->);
    specialize (Hc (t ++ (c, env W t c) :: rest));
    destruct (cl _) as [b t2|e2 t2|]; try exact I;
    destruct Hc as (n2 & -> & _); exists (rest ++ n2);
    by rewrite <- app_assoc.
Qed.

(** Every function of the model only ever extends the trace. *)
Lemma ssh_connection_only P W {A} ip timeout (body : M A) :
  (forall c r, P (c, r)) -> only P body -> only P (ssh_connection W ip timeout body).
Proof. intros HP Hb. unfold ssh_connection. only_walk; auto. Qed.

Lemma get_file_hash_any W path : only any_event (get_file_hash W path).
Proof. unfold get_file_hash. only_walk; exact I. Qed.

Lemma get_remote_file_hash_any W ip path : only any_event (get_remote_file_hash W ip path).
Proof.
  unfold get_remote_file_hash. only_step; [|only_walk].
  apply ssh_connection_only; [done|]. only_walk; exact I.
Qed.

Lemma verify_after_pexpect_any W code ip l r :
  only any_event (verify_after_pexpect W code ip l r).
Proof.
  unfold verify_after_pexpect. destruct (code =? 0); [|apply only_ret].
  apply only_bind; [apply get_file_hash_any|]. intros lh.
  destruct (opt_truthy lh && HAS_PARAMIKO W); [|apply only_ret].
  apply only_bind; [by apply only_sleep|]. intros _.
  apply only_bind; [apply get_remote_file_hash_any|]. intros rh.
  only_walk.
Qed.

Lemma make_dirs_only P W dirs cur :
  (forall p r, P (SftpMkdir p, r)) -> (forall p r, P (SftpStat p, r)) ->
  only P (make_dirs W dirs cur).
Proof.
  intros Hm Hs. revert cur. induction dirs as [|d ds IH]; intros cur; simpl.
  - apply only_ret.
  - apply only_bind; [|intros _; apply IH]. only_walk; auto.
Qed.

Lemma check_remote_directory_only P W remote :
  (forall p r, P (SftpMkdir p, r)) -> (forall p r, P (SftpStat p, r)) ->
  only P (check_remote_directory W remote).
Proof.
  intros Hm Hs. unfold check_remote_directory.
  destruct (negb _); [apply only_ret|].
  apply only_try_except_Exception; [by apply make_dirs_only|intros; apply only_ret].
Qed.

Lemma sftp_connection_only P W {A} ip (body : M A) :
  (forall c r, P (c, r)) -> only P body -> only P (sftp_connection W ip body).
Proof. intros HP Hb. unfold sftp_connection. only_walk; auto. Qed.

Lemma send_file_sftp_paramiko_any W ip l r : only any_event (send_file_sftp_paramiko W ip l r).
Proof.
  unfold send_file_sftp_paramiko. only_step; [|only_walk].
  apply sftp_connection_only; [done|]. unfold paramiko_upload.
  apply only_bind; [by apply check_remote_directory_only|]. intros _.
  only_walk; exact I.
Qed.

Lemma pexpect_dialogue_any W ip l r : only any_event (pexpect_dialogue W ip l r).
Proof. unfold pexpect_dialogue. only_walk; exact I. Qed.

Lemma send_file_sftp_pexpect_any W ip l r : only any_event (send_file_sftp_pexpect W ip l r).
Proof.
  unfold send_file_sftp_pexpect. destruct (negb _); [apply only_ret|].
  apply only_try_except; [|intros; apply only_ret].
  apply only_bind; [apply pexpect_dialogue_any|]. intros code.
  apply verify_after_pexpect_any.
Qed.

Lemma send_file_sftp_subprocess_any W ip l r :
  only any_event (send_file_sftp_subprocess W ip l r).
Proof. unfold send_file_sftp_subprocess. only_walk; exact I. Qed.

(** ** Strings: what [in] and [startswith] mean *)

Lemma append_assoc a b c : (a +:+ b) +:+ c = a +:+ (b +:+ c).
Proof.
  induction a as [|x a IH]; [reflexivity|].
  change (String x ((a +:+ b) +:+ c) = String x (a +:+ (b +:+ c))). by rewrite IH.
Qed.


Lemma endswith_refl s : PyStr.endswith s s = true.
Proof. destruct s; cbn [PyStr.endswith]; by rewrite String.eqb_refl. Qed.

Lemma endswith_append a suf : PyStr.endswith (a +:+ suf) suf = true.
Proof.
  induction a as [|x a IH]; [apply endswith_refl|].
  change (String x a +:+ suf) with (String x (a +:+ suf)).
  cbn [PyStr.endswith]. rewrite IH. by destruct (String.eqb _ _).
Qed.

Lemma prefix_nil s : String.prefix "" s = true.
Proof. by destruct s. Qed.

Lemma prefix_char_spec c s :
  String.prefix (String c "") s = true <-> exists b, s = String c b.
Proof.
  destruct s as [|x s]; simpl.
  - split; [discriminate|]. intros (b & H). discriminate.
  - destruct (ascii_dec c x) as [->|Hne].
    + rewrite prefix_nil. split; eauto.
    + split; [discriminate|]. intros (b & H). injection H as <- _. by destruct Hne.
Qed.

Lemma contains_char_spec c s :
  PyStr.contains (String c "") s = true <-> exists a b, s = a +:+ String c b.
Proof.
  induction s as [|x s IH].
  - simpl. split; [discriminate|]. intros ([|y a] & b & H); discriminate.
  - cbn [PyStr.contains].
    destruct (String.prefix (String c "") (String x s)) eqn:E.
    + split; [|done]. intros _. apply prefix_char_spec in E as (b & ->).
      exists "", b. reflexivity.
    + rewrite IH. split.
      * intros (a & b & ->). exists (String x a), b. reflexivity.
      * intros ([|y a] & b & H).
        -- cbn in H. injection H as Hx Hs. subst x s.
           assert (String.prefix (String c "") (String c b) = true) as E'
             by (apply prefix_char_spec; eauto).
           congruence.
        -- cbn in H. injection H as <- ->. eauto.
Qed.

Lemma split_leading_sep c s :
  PyStr.split c (String c s) = "" :: PyStr.split c s.
Proof. cbn [PyStr.split]. by rewrite Ascii.eqb_refl. Qed.

Lemma eqb_empty_false s : s <> "" -> String.eqb s "" = false.
Proof. intros H. by apply String.eqb_neq. Qed.

(** ** Strings: characters, lines, stripping *)

Lemma append_cons a s t : String a s +:+ t = String a (s +:+ t).
Proof. reflexivity. Qed.

Lemma has_char_nil c : has_char c "" = false.
Proof. reflexivity. Qed.

Lemma has_char_cons c a s :
  has_char c (String a s) = if ascii_dec c a then true else has_char c s.
Proof.
  unfold has_char. cbn [PyStr.contains String.prefix].
  destruct (ascii_dec c a); [by rewrite prefix_nil|reflexivity].
Qed.

Lemma has_char_append c a b : has_char c (a +:+ b) = has_char c a || has_char c b.
Proof.
  induction a as [|x a IH]; [reflexivity|].
  rewrite append_cons, !has_char_cons. by destruct (ascii_dec c x).
Qed.

(** Replacing a string that starts with a character the text does not have
    changes nothing. *)
Lemma replace_go_absent c old new s :
  has_char c s = false -> PyStr.replace_go (String c old) new 0 s = s.
Proof.
  induction s as [|x s IH]; [reflexivity|]. rewrite has_char_cons.
  destruct (ascii_dec c x) as [|Hne]; [discriminate|]. intros H.
  cbn [PyStr.replace_go String.prefix].
  destruct (ascii_dec c x); [done|]. by rewrite IH.
Qed.

(** After replacing a character by another one it is gone. *)
Lemma replace_go_char_gone c d s :
  c <> d -> has_char c (PyStr.replace_go (String c "") (String d "") 0 s) = false.
Proof.
  intros Hcd. induction s as [|x s IH]; [reflexivity|].
  cbn [PyStr.replace_go String.prefix String.length Nat.pred].
  destruct (ascii_dec c x) as [->|Hne].
  - rewrite prefix_nil. rewrite append_cons, has_char_cons.
    destruct (ascii_dec x d); [done|]. exact IH.
  - rewrite has_char_cons. destruct (ascii_dec c x); [done|exact IH].
Qed.

Lemma universal_newlines_id text :
  has_char "013" text = false -> universal_newlines text = text.
Proof.
  intros H. unfold universal_newlines, PyStr.replace. cbn [String.eqb CR LF append].
  change (CR +:+ LF) with (String "013" LF).
  cbn [String.eqb]. rewrite (replace_go_absent "013" LF LF text H).
  unfold CR. by rewrite replace_go_absent.
Qed.

Lemma universal_newlines_no_CR text : has_char "013" (universal_newlines text) = false.
Proof.
  unfold universal_newlines. unfold PyStr.replace at 1. unfold CR, LF.
  cbn [String.eqb]. by apply replace_go_char_gone.
Qed.

(** Splitting at a character. *)
Lemma split_first_line c h rest :
  has_char c h = false ->
  PyStr.split c (h +:+ String c rest) = h :: PyStr.split c rest.
Proof.
  induction h as [|x h IH]; intros H.
  - change ("" +:+ String c rest) with (String c rest). apply split_leading_sep.
  - rewrite has_char_cons in H. destruct (ascii_dec c x) as [|Hne]; [discriminate|].
    rewrite append_cons. cbn [PyStr.split].
    destruct (Ascii.eqb_spec x c) as [->|_]; [done|]. by rewrite IH.
Qed.

Lemma split_pieces c d s x :
  x ∈ PyStr.split c s -> d = c \/ has_char d s = false -> has_char d x = false.
Proof.
  revert x. induction s as [|a s IH]; intros x Hx Hd.
  - cbn [PyStr.split] in Hx. apply list_elem_of_singleton in Hx as ->. reflexivity.
  - cbn [PyStr.split] in Hx.
    assert (d = c \/ has_char d s = false) as Hd'.
    { destruct Hd as [->|Hd]; [by left|right].
      rewrite has_char_cons in Hd. by destruct (ascii_dec d a). }
    destruct (Ascii.eqb_spec a c) as [->|Hne].
    + apply elem_of_cons in Hx as [->|Hx]; [reflexivity|by apply IH].
    + assert (has_char d (String a "") = false \/ True) as _ by (by right).
      assert (forall y, has_char d y = false -> has_char d (String a y) = false) as Hcons.
      { intros y Hy. rewrite has_char_cons. destruct (ascii_dec d a) as [->|_]; [|exact Hy].
        destruct Hd as [->|Hd]; [done|].
        rewrite has_char_cons in Hd. by destruct (ascii_dec a a). }
      destruct (PyStr.split c s) as [|hd tl] eqn:E.
      * apply list_elem_of_singleton in Hx as ->. by apply Hcons.
      * apply elem_of_cons in Hx as [->|Hx].
        -- apply Hcons, IH; [by left|exact Hd'].
        -- apply IH; [by right|exact Hd'].
Qed.

(** Stripping. *)
Lemma lstrip_head s :
  PyStr.lstrip s = "" \/
  exists c rest, PyStr.lstrip s = String c rest /\ PyStr.isspace c = false.
Proof.
  induction s as [|c s IH]; [by left|]. cbn [PyStr.lstrip].
  destruct (PyStr.isspace c) eqn:E; [exact IH|]. right. eauto.
Qed.

Lemma rstrip_idempotent s : PyStr.rstrip (PyStr.rstrip s) = PyStr.rstrip s.
Proof.
  induction s as [|c s IH]; [reflexivity|]. cbn [PyStr.rstrip].
  destruct (String.eqb (PyStr.rstrip s) "" && PyStr.isspace c) eqn:E; [reflexivity|].
  cbn [PyStr.rstrip]. rewrite IH, E. reflexivity.
Qed.

Lemma lstrip_of_unpadded c rest :
  PyStr.isspace c = false -> PyStr.lstrip (String c rest) = String c rest.
Proof. intros H. cbn [PyStr.lstrip]. by rewrite H. Qed.

Lemma strip_idempotent s : PyStr.strip (PyStr.strip s) = PyStr.strip s.
Proof.
  unfold PyStr.strip.
  destruct (lstrip_head s) as [->|(c & rest & -> & Hc)]; [reflexivity|].
  cbn [PyStr.rstrip]. rewrite Hc, andb_false_r.
  rewrite (lstrip_of_unpadded c _ Hc). cbn [PyStr.rstrip].
  rewrite rstrip_idempotent, Hc, andb_false_r. reflexivity.
Qed.

Lemma lstrip_keeps_absent c s : has_char c s = false -> has_char c (PyStr.lstrip s) = false.
Proof.
  induction s as [|a s IH]; [done|]. intros H. cbn [PyStr.lstrip].
  destruct (PyStr.isspace a); [|exact H]. apply IH.
  rewrite has_char_cons in H. by destruct (ascii_dec c a).
Qed.

Lemma rstrip_keeps_absent c s : has_char c s = false -> has_char c (PyStr.rstrip s) = false.
Proof.
  induction s as [|a s IH]; [done|]. rewrite has_char_cons.
  destruct (ascii_dec c a) as [|Hne]; [discriminate|]. intros H.
  cbn [PyStr.rstrip]. destruct (_ && _); [reflexivity|].
  rewrite has_char_cons. destruct (ascii_dec c a); [done|by apply IH].
Qed.

Lemma strip_keeps_absent c s : has_char c s = false -> has_char c (PyStr.strip s) = false.
Proof. intros H. unfold PyStr.strip. by apply rstrip_keeps_absent, lstrip_keeps_absent. Qed.

(** [PyStr.replace] is replacement of the leftmost occurrences: on a text
    that starts with [old] it puts [new] and goes on after the occurrence; on
    any other text it keeps the first character and goes on. *)
Lemma replace_go_skip old new a rest :
  PyStr.replace_go old new (String.length a) (a +:+ rest) = PyStr.replace_go old new 0 rest.
Proof.
  induction a as [|x a IH]; [by destruct rest|].
  rewrite append_cons. cbn [String.length PyStr.replace_go]. exact IH.
Qed.

Lemma prefix_append a b : String.prefix a (a +:+ b) = true.
Proof.
  induction a as [|x a IH]; [apply prefix_nil|].
  rewrite append_cons. cbn [String.prefix]. by destruct (ascii_dec x x).
Qed.

Lemma replace_match old new rest :
  old <> "" ->
  PyStr.replace (old +:+ rest) old new = new +:+ PyStr.replace rest old new.
Proof.
  intros Hold. unfold PyStr.replace. rewrite (eqb_empty_false old Hold).
  destruct old as [|c old]; [done|].
  rewrite append_cons. cbn [PyStr.replace_go].
  rewrite <- append_cons, prefix_append. cbn [String.length Nat.pred].
  by rewrite replace_go_skip.
Qed.

Lemma replace_step old new c s :
  old <> "" -> String.prefix old (String c s) = false ->
  PyStr.replace (String c s) old new = String c (PyStr.replace s old new).
Proof.
  intros Hold Hp. unfold PyStr.replace. rewrite (eqb_empty_false old Hold).
  cbn [PyStr.replace_go]. by rewrite Hp.
Qed.

(** On an uploaded path whose only dot is the one of the suffix, the
    rename target is the path without the suffix. *)
Lemma mv_target_drops_suffix base :
  has_char "." base = false -> PyStr.replace (base +:+ ".BMT") ".BMT" "" = base.
Proof.
  induction base as [|c base IH]; [reflexivity|].
  rewrite has_char_cons. destruct (ascii_dec "." c) as [|Hne]; [discriminate|].
  intros H. rewrite append_cons, replace_step; [by rewrite IH|done|].
  cbn [String.prefix]. by destruct (ascii_dec "." c).
Qed.

(** ** Addresses for the [sftp] binary *)

Lemma format_ip_for_sftp_idempotent ip :
  format_ip_for_sftp (format_ip_for_sftp ip) = format_ip_for_sftp ip.
Proof.
  unfold format_ip_for_sftp.
  destruct (PyStr.contains ":" ip && negb (PyStr.startswith ip "[")) eqn:E.
  - assert (PyStr.startswith ("[" +:+ ip +:+ "]") "[" = true) as ->.
    { unfold PyStr.startswith. apply prefix_char_spec. eexists. reflexivity. }
    by rewrite andb_false_r.
  - by rewrite E.
Qed.

(** C8, amended.  The two backends that drive the [sftp] binary
    (expect-driven and subprocess) are given the address formatted by
    [format_ip_for_sftp], so [[fde0::1]] for [fde0::1]; the library backend
    opens its transport on the address as written; [record_complete_ip]
    writes the address as written.  The address is bracketed exactly when it
    contains a colon and does not start with an opening bracket, and
    formatting twice is formatting once. *)
Theorem sftp_binary_backends_get_bracketed_host (W : World) (ip l r : string) :
  let sftp_ip := format_ip_for_sftp ip in
  ((sftp_ip = "[" +:+ ip +:+ "]"
    /\ (exists a b, ip = a +:+ ":" +:+ b) /\ ~ (exists b, ip = "[" +:+ b))
   \/ (sftp_ip = ip
       /\ ~ ((exists a b, ip = a +:+ ":" +:+ b) /\ ~ (exists b, ip = "[" +:+ b)))) /\
  format_ip_for_sftp sftp_ip = sftp_ip /\
  format_ip_for_sftp "fde0::1" = "[fde0::1]" /\
  (HAS_PEXPECT W = true ->
   begins W (PexpectSpawn (sftp_cmd W sftp_ip) 30) (send_file_sftp_pexpect W ip l r)) /\
  (exists options, sftp_cmd W sftp_ip = options +:+ "@" +:+ sftp_ip) /\
  (exists input,
      begins W (SubprocessRun (sftp_argv W sftp_ip) input 30)
        (send_file_sftp_subprocess W ip l r)) /\
  last (sftp_argv W sftp_ip) = Some (ssh_user (config W) +:+ "@" +:+ sftp_ip) /\
  (HAS_PARAMIKO W = true ->
   begins W (TransportOpen ip (ssh_port (config W))) (send_file_sftp_paramiko W ip l r)) /\
  record_complete_ip IoFine ip None = Some (ip +:+ LF) /\
  (forall text, ip ∉ stripped_lines text ->
                record_complete_ip IoFine ip (Some text) = Some (text +:+ ip +:+ LF)).
Proof.
  intros sftp_ip. repeat apply conj.
  - subst sftp_ip. unfold format_ip_for_sftp.
    destruct (PyStr.contains ":" ip) eqn:Ec; destruct (PyStr.startswith ip "[") eqn:Es;
      simpl; unfold PyStr.startswith in Es.
    + right. split; [reflexivity|]. intros [_ Hn]. apply Hn.
      by apply prefix_char_spec.
    + left. split; [reflexivity|]. split; [by apply contains_char_spec|].
      intros H%prefix_char_spec. congruence.
    + right. split; [reflexivity|]. intros [Hc%contains_char_spec _]. congruence.
    + right. split; [reflexivity|]. intros [Hc%contains_char_spec _]. congruence.
  - apply format_ip_for_sftp_idempotent.
  - reflexivity.
  - intros Hp. unfold send_file_sftp_pexpect. rewrite Hp. simpl negb. cbv iota.
    apply begins_try_except; [|intros; apply only_ret].
    apply begins_bind; [|intros; apply verify_after_pexpect_any].
    unfold pexpect_dialogue. apply begins_bind; [apply begins_invoke|].
    intros _. only_walk; exact I.
  - unfold sftp_cmd.
    exists ("sftp -P " +:+ pretty (ssh_port (config W)) +:+ " "
            +:+ "-o HostKeyAlgorithms=ssh-rsa "
            +:+ "-o StrictHostKeyChecking=no "
            +:+ "-o ConnectTimeout=10 "
            +:+ ssh_user (config W)).
    rewrite !append_assoc. reflexivity.
  - eexists. unfold send_file_sftp_subprocess.
    apply begins_try_except; [|intros; apply only_ret].
    apply begins_bind; [apply begins_invoke|intros; apply only_ret].
  - reflexivity.
  - intros Hp. unfold send_file_sftp_paramiko.
    apply begins_try_except_Exception; [|intros; apply only_ret].
    unfold sftp_connection. rewrite Hp. simpl negb. cbv iota.
    apply begins_bind; [apply begins_invoke|]. intros _.
    apply only_finally; [|by apply only_perform].
    only_step; [by apply only_invoke|]. only_step; [by apply only_invoke|].
    apply only_finally; [|by apply only_perform]. unfold paramiko_upload.
    apply only_bind; [by apply check_remote_directory_only|]. intros _.
    only_walk; exact I.
  - reflexivity.
  - intros text Hnot. unfold record_complete_ip.
    rewrite bool_decide_eq_true_2 by exact Hnot. reflexivity.
Qed.

Lemma sftp_binary_backends_get_bracketed_host_witness :
  exists rest,
    send_file_sftp_pexpect (Sample.world false true Sample.calm)
      "fde0::1" "file/f" "/tmp/f.BMT" [] =
    Returns true
      ((PexpectSpawn
          "sftp -P 22 -o HostKeyAlgorithms=ssh-rsa -o StrictHostKeyChecking=no -o ConnectTimeout=10 root@[fde0::1]"
          30, Ok 0 "" "") :: rest).
Proof.
  pose proof (sftp_binary_backends_get_bracketed_host
                (Sample.world false true Sample.calm) "fde0::1" "file/f" "/tmp/f.BMT")
    as (_ & _ & _ & Hpexpect & _).
  specialize (Hpexpect eq_refl []).
  destruct (send_file_sftp_pexpect _ _ _ _ []) as [b t|e t|] eqn:E.
  - destruct Hpexpect as (rest & ->). exists rest.
    vm_compute in E. injection E as <- <-. reflexivity.
  - vm_compute in E. discriminate.
  - vm_compute in E. discriminate.
Defined.

(** C8 as stated does not hold of the library backend: on [fde0::1] it
    opens the transport on [fde0::1], which is not the bracketed form. *)
Lemma library_backend_gets_bare_ipv6_host :
  exists rest,
    send_file_sftp_paramiko (Sample.world true true Sample.calm)
      "fde0::1" "file/f" "/tmp/f.BMT" [] =
    Returns true ((TransportOpen "fde0::1" 22, Ok 0 "" "") :: rest)
    /\ "fde0::1" <> format_ip_for_sftp "fde0::1"
    /\ forall host port r, (TransportOpen host port, r) ∈ rest -> False.
Proof.
  eexists. split; [vm_compute; reflexivity|]. split; [discriminate|].
  intros host port r H.
  repeat (apply elem_of_cons in H as [H|H]; [discriminate|]).
  by apply elem_of_nil in H.
Qed.

(** ** The readiness gate *)

Lemma ping_check_only P W ip :
  (forall r, P (ping_call W ip, r)) -> only P (ping_check W ip).
Proof. intros H. unfold ping_check. only_walk. apply H. Qed.

Lemma wait_for_ping_only P W fuel ip :
  (forall r, P (ping_call W ip, r)) -> (forall n r, P (Sleep n, r)) ->
  only P (wait_for_ping W fuel ip).
Proof.
  intros Hp Hs. induction fuel as [|fuel IH]; simpl; [apply only_looping|].
  apply only_bind; [by apply ping_check_only|]. intros [|]; [apply only_ret|].
  apply only_bind; [by apply only_sleep|]. intros _. exact IH.
Qed.

Lemma ping_check_cases W ip t :
  (exists out err, env W t (ping_call W ip) = Ok 0 out err /\
     ping_check W ip t = Returns true (t ++ [(ping_call W ip, Ok 0 out err)])) \/
  (exists r, env W t (ping_call W ip) = r /\ (forall out err, r <> Ok 0 out err) /\
     (ping_check W ip t = Returns false (t ++ [(ping_call W ip, r)]) \/
      exists e, ping_check W ip t = Raised e (t ++ [(ping_call W ip, r)]))).
Proof.
  unfold ping_check, try_except. fold (ping_call W ip).
  destruct (env W t (ping_call W ip)) as [code out err|e] eqn:E.
  - rewrite (bind_of_returns _ _ _ _ _ (invoke_ok W _ t code out err E)). simpl.
    destruct (Z.eqb_spec code 0) as [->|Hne].
    + left. eauto.
    + right. eexists. split; [reflexivity|]. split; [congruence|]. left. reflexivity.
  - rewrite (bind_of_raised _ _ _ _ _ (invoke_raises W _ t e E)).
    right. eexists. split; [reflexivity|]. split; [congruence|].
    destruct (caught_by _ e); [left; reflexivity|right; eauto].
Qed.

(** [wait_for_ping] returns only [True], and only right after the first ping
    that exits with status zero. *)
Lemma wait_for_ping_returns W fuel ip t b t' :
  wait_for_ping W fuel ip t = Returns b t' ->
  b = true /\
  exists pre out err,
    t' = t ++ pre ++ [(ping_call W ip, Ok 0 out err)] /\ Forall (fruitless W ip) pre.
Proof.
  revert t. induction fuel as [|fuel IH]; intros t H; simpl in H; [discriminate|].
  destruct (ping_check_cases W ip t) as [(out & err & _ & E)|(r & _ & Hr & [E|(e & E)])].
  - rewrite (bind_of_returns _ _ _ _ _ E) in H. injection H as <- <-.
    split; [reflexivity|]. exists [], out, err. split; [reflexivity|constructor].
  - rewrite (bind_of_returns _ _ _ _ _ E) in H.
    rewrite (bind_of_returns _ _ _ _ _ (sleep_eq W _ _)) in H.
    apply IH in H as (-> & pre & out & err & -> & F). split; [reflexivity|].
    eexists (_ :: _ :: pre), out, err. split.
    + rewrite <- !app_assoc. reflexivity.
    + constructor; [right; eauto|]. constructor; [left; eauto|exact F].
  - rewrite (bind_of_raised _ _ _ _ _ E) in H. discriminate.
Qed.

(** A probe never raises; it says [True] only after a connection on which
    [echo test] exited with status zero. *)
Lemma ssh_probe_cases W ip t :
  HAS_PARAMIKO W = true ->
  exists b t',
    ssh_probe W ip t = Returns b t' /\
    (b = true ->
     exists c0 o0 e0 out err r,
       t' = t ++ [(ssh_probe_call W ip, Ok c0 o0 e0);
                  (SshExec "echo test" (Some 3), Ok 0 out err);
                  (SshClose, r)]).
Proof.
  intros Hp.
  unfold ssh_probe, ssh_connection. rewrite Hp. simpl negb. cbv iota.
  fold (ssh_probe_call W ip).
  cbv beta iota zeta delta [try_except_Exception finally bind invoke perform ret raise].
  destruct (env W t (ssh_probe_call W ip)) as [c0 o0 e0|e]; cbv beta iota zeta.
  - destruct (env W (t ++ [(ssh_probe_call W ip, Ok c0 o0 e0)])
                (SshExec "echo test" (Some 3))) as [code out err|e]; cbv beta iota zeta.
    + do 2 eexists. split; [reflexivity|]. simpl. intros H%Z.eqb_eq. subst code.
      do 6 eexists. rewrite <- !app_assoc. reflexivity.
    + do 2 eexists. split; [reflexivity|discriminate].
  - do 2 eexists. split; [reflexivity|discriminate].
Qed.

Lemma ssh_probe_only P W ip : (forall c r, P (c, r)) -> only P (ssh_probe W ip).
Proof.
  intros HP. unfold ssh_probe. only_step; [|only_walk].
  apply ssh_connection_only; [exact HP|]. only_walk; apply HP.
Qed.

Lemma ssh_attempts_only P W n ip : (forall c r, P (c, r)) -> only P (ssh_attempts W n ip).
Proof.
  intros HP. induction n as [|n IH]; simpl; [apply only_ret|].
  apply only_bind; [by apply ssh_probe_only|]. intros [|]; [apply only_ret|].
  apply only_bind; [by apply only_sleep|]. intros _. exact IH.
Qed.

(** A round of attempts always comes to an end, with [True] or by running
    out of attempts. *)
Lemma ssh_attempts_total W n ip t :
  HAS_PARAMIKO W = true -> exists b t', ssh_attempts W n ip t = Returns b t'.
Proof.
  intros Hp. revert t. induction n as [|n IH]; intros t; simpl; [by eexists _, _|].
  destruct (ssh_probe_cases W ip t Hp) as (b & t1 & E & _).
  rewrite (bind_of_returns _ _ _ _ _ E). destruct b; [by eexists _, _|].
  rewrite (bind_of_returns _ _ _ _ _ (sleep_eq W _ _)). apply IH.
Qed.

Lemma ssh_attempts_returns_true W n ip t t' :
  HAS_PARAMIKO W = true ->
  ssh_attempts W n ip t = Returns true t' ->
  exists pre c0 o0 e0 out err r,
    t' = t ++ pre ++ [(ssh_probe_call W ip, Ok c0 o0 e0);
                      (SshExec "echo test" (Some 3), Ok 0 out err);
                      (SshClose, r)].
Proof.
  intros Hp. revert t. induction n as [|n IH]; intros t H; simpl in H; [discriminate|].
  destruct (ssh_probe_cases W ip t Hp) as (b & t1 & E & Hb).
  rewrite (bind_of_returns _ _ _ _ _ E) in H. destruct b.
  - injection H as <-. destruct (Hb eq_refl) as (c0 & o0 & e0 & out & err & r & ->).
    exists [], c0, o0, e0, out, err, r. reflexivity.
  - rewrite (bind_of_returns _ _ _ _ _ (sleep_eq W _ _)) in H.
    apply IH in H as (pre & c0 & o0 & e0 & out & err & r & ->).
    destruct (only_returns any_event _ _ _ _ (ssh_probe_only _ W ip (fun _ _ => I)) E)
      as (new & -> & _).
    eexists (new ++ _ :: pre), c0, o0, e0, out, err, r.
    rewrite <- !app_assoc. reflexivity.
Qed.

Lemma wait_for_ssh_ready_loop_returns W fuel ip t b t' :
  HAS_PARAMIKO W = true ->
  wait_for_ssh_ready_loop W fuel ip t = Returns b t' ->
  b = true /\
  exists pre c0 o0 e0 out err r,
    t' = t ++ pre ++ [(ssh_probe_call W ip, Ok c0 o0 e0);
                      (SshExec "echo test" (Some 3), Ok 0 out err);
                      (SshClose, r)].
Proof.
  intros Hp. revert t. induction fuel as [|fuel IH]; intros t H; [discriminate|].
  cbn [wait_for_ssh_ready_loop] in H.
  apply bind_returns in H as (ok & t1 & Hping & H).
  apply bind_returns in H as (ssh_ok & t2 & Hssh & H).
  destruct (only_returns any_event _ _ _ _
              (wait_for_ping_only _ W _ ip (fun _ => I) (fun _ _ => I)) Hping)
    as (n1 & -> & _).
  destruct ssh_ok.
  - injection H as <- <-. split; [reflexivity|].
    apply (ssh_attempts_returns_true W _ ip _ _ Hp) in Hssh
      as (pre & c0 & o0 & e0 & out & err & r & ->).
    exists (n1 ++ pre), c0, o0, e0, out, err, r. rewrite <- !app_assoc. reflexivity.
  - destruct (only_returns any_event _ _ _ _
                (ssh_attempts_only _ W _ ip (fun _ _ => I)) Hssh) as (n2 & -> & _).
    apply IH in H as (-> & pre & c0 & o0 & e0 & out & err & r & ->).
    split; [reflexivity|].
    exists (n1 ++ n2 ++ pre), c0, o0, e0, out, err, r. rewrite <- !app_assoc. reflexivity.
Qed.

Lemma wait_for_ping_begins W fuel ip : begins W (ping_call W ip) (wait_for_ping W fuel ip).
Proof.
  destruct fuel as [|fuel]; simpl; [intros t; exact I|].
  apply begins_bind.
  - unfold ping_check. apply begins_try_except; [|intros; apply only_ret].
    apply begins_bind; [apply begins_invoke|intros; apply only_ret].
  - intros [|]; [apply only_ret|]. apply only_bind; [by apply only_sleep|].
    intros _. by apply wait_for_ping_only.
Qed.

Lemma wait_for_ssh_ready_loop_only P W fuel ip :
  (forall c r, P (c, r)) -> only P (wait_for_ssh_ready_loop W fuel ip).
Proof.
  intros HP. induction fuel as [|fuel IH]; [apply only_looping|].
  cbn [wait_for_ssh_ready_loop].
  apply only_bind; [by apply wait_for_ping_only|]. intros _.
  apply only_bind; [by apply ssh_attempts_only|]. intros [|]; [apply only_ret|exact IH].
Qed.

Lemma wait_for_ssh_ready_begins W fuel ip :
  begins W (ping_call W ip) (wait_for_ssh_ready W fuel ip).
Proof.
  unfold wait_for_ssh_ready. destruct (negb (HAS_PARAMIKO W)).
  - apply begins_bind; [apply wait_for_ping_begins|intros; apply only_ret].
  - destruct fuel as [|fuel]; [intros t; exact I|]. cbn [wait_for_ssh_ready_loop].
    apply begins_bind; [apply wait_for_ping_begins|]. intros _.
    apply only_bind; [by apply ssh_attempts_only|].
    intros [|]; [apply only_ret|by apply wait_for_ssh_ready_loop_only].
Qed.

(** C3.  Whenever [wait_for_ssh_ready] returns, it returns [True].  With
    paramiko present the last things it did were to open an SSH connection,
    run [echo test] on it with exit status zero, and close it.  Without
    paramiko it made no SSH call at all: it pinged, paused between pings that
    did not get through, and returned right after the first ping that exited
    with status zero.  When a round of SSH attempts runs out without success
    the gate does not return: it carries on with the loop, whose next call is
    a ping. *)
Theorem wait_for_ssh_ready_returns_only_success (W : World) (ip : string) :
  (forall fuel t b t',
      wait_for_ssh_ready W fuel ip t = Returns b t' ->
      b = true /\
      exists pre,
        if HAS_PARAMIKO W then
          exists c0 o0 e0 out err r,
            t' = t ++ pre ++ [(ssh_probe_call W ip, Ok c0 o0 e0);
                              (SshExec "echo test" (Some 3), Ok 0 out err);
                              (SshClose, r)]
        else
          exists out err,
            t' = t ++ pre ++ [(ping_call W ip, Ok 0 out err)] /\
            Forall (fruitless W ip) pre) /\
  (forall fuel t t1 t2,
      HAS_PARAMIKO W = true ->
      wait_for_ping W (S fuel) ip t = Returns true t1 ->
      ssh_attempts W (Z.to_nat (ssh_attempts_per_round (config W))) ip t1
        = Returns false t2 ->
      wait_for_ssh_ready W (S fuel) ip t = wait_for_ssh_ready W fuel ip t2 /\
      begins W (ping_call W ip) (wait_for_ssh_ready W fuel ip)).
Proof.
  split.
  - intros fuel t b t' H. unfold wait_for_ssh_ready in H.
    destruct (HAS_PARAMIKO W) eqn:Hp; simpl in H.
    + apply (wait_for_ssh_ready_loop_returns W fuel ip t b t' Hp) in H
        as (-> & pre & c0 & o0 & e0 & out & err & r & ->).
      split; [reflexivity|]. exists pre, c0, o0, e0, out, err, r. reflexivity.
    + apply bind_returns in H as (ok & t1 & Hping & H). injection H as <- <-.
      apply wait_for_ping_returns in Hping as (_ & pre & out & err & -> & F).
      split; [reflexivity|]. exists pre, out, err. split; [reflexivity|exact F].
  - intros fuel t t1 t2 Hp Hping Hssh. split; [|apply wait_for_ssh_ready_begins].
    unfold wait_for_ssh_ready. rewrite Hp. cbn [negb wait_for_ssh_ready_loop].
    rewrite (bind_of_returns _ _ _ _ _ Hping).
    rewrite (bind_of_returns _ _ _ _ _ Hssh). reflexivity.
Qed.

Lemma wait_for_ssh_ready_returns_only_success_witness :
  exists t',
    wait_for_ssh_ready (Sample.world true true Sample.calm) 1 "10.0.0.7" [] =
    Returns true t'.
Proof.
  destruct (wait_for_ssh_ready (Sample.world true true Sample.calm) 1 "10.0.0.7" [])
    as [b t'|e t'|] eqn:E.
  - destruct (proj1 (wait_for_ssh_ready_returns_only_success
                       (Sample.world true true Sample.calm) "10.0.0.7") 1%nat [] b t' E)
      as [-> _].
    exists t'. reflexivity.
  - vm_compute in E. discriminate.
  - vm_compute in E. discriminate.
Defined.

(** The gate on a host whose SSH daemon comes up late: two rounds of two
    failed attempts each, a ping before each round, then success. *)
Example wait_for_ssh_ready_goes_back_to_ping :
  let W := Sample.world true true Sample.sshd_late in
  exists t',
    wait_for_ssh_ready W 3 "10.0.0.7" [] = Returns true t' /\
    List.filter (fun ev => bool_decide (ev.1 = ping_call W "10.0.0.7")) t'
    = [(ping_call W "10.0.0.7", Ok 0 "" ""); (ping_call W "10.0.0.7", Ok 0 "" "");
       (ping_call W "10.0.0.7", Ok 0 "" "")] /\
    length (List.filter (fun ev => bool_decide (ev.1 = SshClose)) t') = 5%nat.
Proof. eexists. split; [vm_compute; reflexivity|]. split; vm_compute; reflexivity. Qed.

(** ** Hash verification after the expect-driven transfer *)

Lemma rev_app_nonempty s acc : acc <> "" -> String.rev_app s acc <> "".
Proof.
  revert acc. induction s as [|c s IH]; intros acc H; simpl; [exact H|].
  apply IH. discriminate.
Qed.

Lemma rev_nonempty s : s <> "" -> String.rev s <> "".
Proof.
  destruct s as [|c s]; [done|]. intros _. unfold String.rev. simpl.
  apply rev_app_nonempty. discriminate.
Qed.

(** The words of [s.split()] are not empty. *)
Lemma split_ws_go_nonempty cur s : Forall (fun w => w <> "") (PyStr.split_ws_go cur s).
Proof.
  revert cur. induction s as [|c s IH]; intros cur; simpl.
  - destruct (String.eqb_spec cur ""); [constructor|].
    constructor; [by apply rev_nonempty|constructor].
  - destruct (PyStr.isspace c); [|apply IH].
    apply Forall_app. split; [|apply IH].
    destruct (String.eqb_spec cur ""); [constructor|].
    constructor; [by apply rev_nonempty|constructor].
Qed.

Lemma truthy_true s : PyStr.truthy s = true <-> s <> "".
Proof.
  unfold PyStr.truthy. destruct (String.eqb_spec s ""); simpl; split; congruence.
Qed.

Lemma truthy_false s : PyStr.truthy s = false <-> s = "".
Proof.
  unfold PyStr.truthy. destruct (String.eqb_spec s ""); simpl; split; congruence.
Qed.

(** [get_remote_file_hash] always returns, and a hash it returns is not the
    empty string. *)
Lemma get_remote_file_hash_total W ip r t :
  exists o t',
    get_remote_file_hash W ip r t = Returns o t' /\ (forall h, o = Some h -> h <> "").
Proof.
  unfold get_remote_file_hash, ssh_connection.
  destruct (HAS_PARAMIKO W); cbn [negb];
    cbv beta iota zeta delta [try_except_Exception finally bind invoke perform ret raise].
  - destruct (env W t _) as [c0 o0 e0|e]; cbv beta iota zeta.
    + destruct (env W _ (SshExec _ None)) as [code out err|e]; cbv beta iota zeta.
      * cbn [fst snd].
        destruct (PyStr.truthy (PyStr.strip out)).
        -- pose proof (split_ws_go_nonempty "" (PyStr.strip out)) as F.
           fold (PyStr.split_ws (PyStr.strip out)) in F.
           destruct (PyStr.split_ws (PyStr.strip out)) as [|h rest].
           ++ do 2 eexists. split; [reflexivity|discriminate].
           ++ do 2 eexists. split; [reflexivity|].
              intros h' [= <-]. by inversion F.
        -- do 2 eexists. split; [reflexivity|discriminate].
      * do 2 eexists. split; [reflexivity|discriminate].
    + do 2 eexists. split; [reflexivity|discriminate].
  - do 2 eexists. split; [reflexivity|discriminate].
Qed.

Lemma get_file_hash_returns W path t o t' :
  get_file_hash W path t = Returns o t' ->
  o = None \/ exists data, o = Some (sha256_hexdigest W data).
Proof.
  unfold get_file_hash.
  cbv beta iota zeta delta [try_except bind invoke perform ret raise].
  destruct (env W t (ReadFile path)) as [code out err|e]; cbv beta iota zeta.
  - intros [= <- _]. right. eauto.
  - destruct (caught_by [OSError] e); [|discriminate]. intros [= <- _]. by left.
Qed.

(** C6.  In the expect-driven backend, once the [sftp] child has exited with
    status zero and the local hash has been computed or given up, the
    transfer is reported as failed exactly when paramiko is present, the local
    hash was computed, the remote hash was obtained, and the two differ.  In
    every other case (no local hash, no paramiko, no remote hash, equal
    hashes) it is reported as sent. *)
Theorem pexpect_transfer_fails_only_on_hash_mismatch
    (W : World) (ip l r : string) (t t1 t2 : trace) (local_hash : option string) :
  HAS_PEXPECT W = true ->
  (forall data, sha256_hexdigest W data <> "") ->
  pexpect_dialogue W ip l r t = Returns 0 t1 ->
  get_file_hash W l t1 = Returns local_hash t2 ->
  exists b t',
    send_file_sftp_pexpect W ip l r t = Returns b t' /\
    (b = false <->
     exists h1 h2 t3,
       HAS_PARAMIKO W = true /\ local_hash = Some h1 /\
       get_remote_file_hash W ip r (t2 ++ [(Sleep 1, env W t2 (Sleep 1))])
         = Returns (Some h2) t3 /\
       h1 <> h2).
Proof.
  intros Hp Hdigest Hdialogue Hlocal.
  unfold send_file_sftp_pexpect, try_except. rewrite Hp. cbn [negb].
  rewrite (bind_of_returns _ _ _ _ _ Hdialogue).
  unfold verify_after_pexpect. cbn [Z.eqb].
  rewrite (bind_of_returns _ _ _ _ _ Hlocal).
  destruct local_hash as [h1|]; cbn [opt_truthy andb].
  - assert (PyStr.truthy h1 = true) as ->.
    { apply truthy_true.
      destruct (get_file_hash_returns _ _ _ _ _ Hlocal) as [?|(data & [= ->])];
        [discriminate|apply Hdigest]. }
    cbn [andb]. destruct (HAS_PARAMIKO W).
    + rewrite (bind_of_returns _ _ _ _ _ (sleep_eq W 1 t2)).
      destruct (get_remote_file_hash_total W ip r
                  (t2 ++ [(Sleep 1, env W t2 (Sleep 1))])) as (rh & t3 & Hremote & Hne).
      rewrite (bind_of_returns _ _ _ _ _ Hremote).
      destruct rh as [h2|]; cbn [opt_truthy].
      * assert (PyStr.truthy h2 = true) as -> by (apply truthy_true; by apply Hne).
        destruct (decide (Some h1 = Some h2)) as [Heq|Hneq].
        -- rewrite bool_decide_eq_true_2 by exact Heq.
           eexists _, _. split; [reflexivity|]. split; [discriminate|].
           intros (h1' & h2' & t3' & _ & E1 & E2 & Hd).
           rewrite Hremote in E2. congruence.
        -- rewrite bool_decide_eq_false_2 by exact Hneq.
           eexists _, _. split; [reflexivity|]. split; [|done]. intros _.
           exists h1, h2, t3. repeat split; congruence.
      * eexists _, _. split; [reflexivity|]. split; [discriminate|].
        intros (h1' & h2' & t3' & _ & _ & E2 & _).
        rewrite Hremote in E2. discriminate.
    + eexists _, _. split; [reflexivity|]. split; [discriminate|].
      intros (h1' & h2' & t3' & [=] & _).
  - eexists _, _. split; [reflexivity|]. split; [discriminate|].
    intros (h1' & h2' & t3' & _ & [=] & _).
Qed.

Lemma pexpect_transfer_fails_only_on_hash_mismatch_witness :
  exists t',
    send_file_sftp_pexpect (Sample.world true true Sample.tampered)
      "10.0.0.7" "file/f" "/tmp/f.BMT" [] = Returns false t'.
Proof.
  edestruct (pexpect_transfer_fails_only_on_hash_mismatch
               (Sample.world true true Sample.tampered)
               "10.0.0.7" "file/f" "/tmp/f.BMT" []) as (b & t' & E & Hiff).
  - reflexivity.
  - intros data. discriminate.
  - vm_compute. reflexivity.
  - vm_compute. reflexivity.
  - exists t'. rewrite E. f_equal. apply Hiff.
    eexists _, _, _. split; [reflexivity|]. split; [reflexivity|].
    split; [vm_compute; reflexivity|discriminate].
Defined.

(** The same transfer when the remote file is what was sent, and when the
    remote hash cannot be had because paramiko is missing. *)
Example pexpect_transfer_accepts_equal_hashes :
  exists t',
    send_file_sftp_pexpect (Sample.world true true Sample.calm)
      "10.0.0.7" "file/f" "/tmp/f.BMT" [] = Returns true t'.
Proof. eexists. vm_compute. reflexivity. Qed.

Example pexpect_transfer_accepts_without_paramiko :
  exists t',
    send_file_sftp_pexpect (Sample.world false true Sample.tampered)
      "10.0.0.7" "file/f" "/tmp/f.BMT" [] = Returns true t'.
Proof. eexists. vm_compute. reflexivity. Qed.

(** ** Strings: words *)




Lemma last_in_weaken (P Q : ascii -> bool) s :
  (forall c, P c = true -> Q c = true) -> last_in P s = true -> last_in Q s = true.
Proof.
  intros H. induction s as [|c s IH]; [done|]. cbn [last_in].
  destruct s; [apply H|exact IH].
Qed.
















(** ** The post-transfer action *)


Lemma try_except_Exception_returns {A} (m : M A) h t a t1 :
  m t = Returns a t1 -> try_except_Exception m h t = Returns a t1.
Proof. unfold try_except_Exception. intros ->. reflexivity. Qed.

Lemma try_except_returns {A} (m : M A) classes h t a t1 :
  m t = Returns a t1 -> try_except m classes h t = Returns a t1.
Proof. unfold try_except. intros ->. reflexivity. Qed.





(** The whole exchange on that host: the line with two numbers is not a
    process id, the two others are, and neither failed kill matters. *)
Example execute_remote_commands_unkillable :
  execute_remote_commands (Sample.world true true Sample.unkillable)
    "10.0.0.7" "/usr/local/bin/svc.BMT" "svc" [] =
  Returns true
    [(SshConnect "10.0.0.7" 22 "root" "pw" 10, Ok 0 "" "");
     (SshExec "mv /usr/local/bin/svc.BMT /usr/local/bin/svc" None, Ok 0 "" "");
     (SshExec "ps | grep svc | grep -v grep | awk '{print $1}'" None,
      Ok 0 ("12 34" +:+ LF +:+ " 56" +:+ LF +:+ "78") "");
     (SshExec "kill -9 56" None, Ok 1 "" "No such process");
     (SshExec "kill -9 78" None, Raises SSHException);
     (SshClose, Ok 0 "" "")].
Proof. vm_compute. reflexivity. Qed.

Example execute_remote_commands_mv_fails :
  execute_remote_commands (Sample.world true true Sample.read_only_disk)
    "10.0.0.7" "/usr/local/bin/svc.BMT" "svc" [] =
  Returns false
    [(SshConnect "10.0.0.7" 22 "root" "pw" 10, Ok 0 "" "");
     (SshExec "mv /usr/local/bin/svc.BMT /usr/local/bin/svc" None,
      Ok 1 "" "Read-only file system");
     (SshClose, Ok 0 "" "")].
Proof. vm_compute. reflexivity. Qed.

(** The replacement is of every [.BMT], not of the suffix alone. *)
Example mv_command_inner_BMT :
  mv_command "/opt/fw.BMT.d/svc.BMT" = "mv /opt/fw.BMT.d/svc.BMT /opt/fw.d/svc".
Proof. reflexivity. Qed.

(** ** Move mode without paramiko *)

Lemma send_file_with_fallback_no_ssh W ip l r :
  HAS_PARAMIKO W = false -> only no_ssh (send_file_with_fallback W ip l r).
Proof.
  intros Hp. unfold send_file_with_fallback. rewrite Hp.
  apply only_bind.
  - destruct (HAS_PEXPECT W) eqn:He; [|apply only_ret].
    unfold send_file_sftp_pexpect. rewrite He. cbn [negb].
    apply only_try_except; [|intros; apply only_ret].
    apply only_bind; [unfold pexpect_dialogue; only_walk; reflexivity|].
    intros code. unfold verify_after_pexpect. rewrite Hp.
    destruct (code =? 0); [|apply only_ret].
    apply only_bind; [unfold get_file_hash; only_walk; reflexivity|].
    intros lh. rewrite andb_false_r. apply only_ret.
  - intros [|]; [apply only_ret|].
    apply only_bind; [apply only_ret|]. intros [|]; [apply only_ret|].
    unfold send_file_sftp_subprocess. only_walk. reflexivity.
Qed.

Lemma send_single_file_without_paramiko W fuel ip filename l r move_mode t b t' :
  HAS_PARAMIKO W = false ->
  send_single_file W fuel ip filename l r move_mode t = Returns b t' ->
  b = true /\ exists t0, send_file_with_fallback W ip l r t0 = Returns true t'.
Proof.
  intros Hp. revert t. induction fuel as [|fuel IH]; intros t H; [discriminate|].
  cbn [send_single_file] in H. rewrite Hp, andb_false_r in H.
  apply bind_returns in H as (success & t1 & Hsend & H). destruct success.
  - injection H as <- <-. split; [reflexivity|]. eauto.
  - rewrite (bind_of_returns _ _ _ _ _ (sleep_eq W 5 t1)) in H. by apply IH in H.
Qed.

Lemma send_single_file_no_ssh W fuel ip filename l r move_mode :
  HAS_PARAMIKO W = false ->
  only no_ssh (send_single_file W fuel ip filename l r move_mode).
Proof.
  intros Hp. induction fuel as [|fuel IH]; [apply only_looping|].
  cbn [send_single_file]. rewrite Hp, andb_false_r.
  apply only_bind; [by apply send_file_with_fallback_no_ssh|].
  intros [|]; [apply only_ret|].
  apply only_bind; [by apply only_sleep|]. intros _. exact IH.
Qed.

Lemma process_entries_no_ssh W fuel ip move_mode file_map :
  HAS_PARAMIKO W = false -> only no_ssh (process_entries W fuel ip move_mode file_map).
Proof.
  intros Hp. induction file_map as [|entry rest IH]; cbn [process_entries];
    [apply only_ret|].
  apply only_bind; [|intros _; exact IH].
  unfold process_entry. apply only_bind; [by apply only_os_path_exists|].
  intros found. destruct (negb found); [apply only_ret|].
  apply only_bind; [by apply send_single_file_no_ssh|]. intros _. apply only_ret.
Qed.

Lemma process_single_ip_no_ssh W fuel ip file_map move_mode :
  HAS_PARAMIKO W = false -> only no_ssh (process_single_ip W fuel ip file_map move_mode).
Proof.
  intros Hp. unfold process_single_ip.
  apply only_try_except_Exception; [|intros; apply only_ret].
  apply only_bind.
  - unfold wait_for_ssh_ready. rewrite Hp. cbn [negb].
    apply only_bind; [by apply wait_for_ping_only|]. intros _. apply only_ret.
  - intros _. apply only_bind; [by apply process_entries_no_ssh|].
    intros _. apply only_ret.
Qed.

(** C10.  In move mode with paramiko absent, [send_single_file] returns
    [True] as soon as [send_file_with_fallback] reports a successful upload,
    at the very trace the upload ended with; after an upload that failed it
    pauses five seconds and starts over.  So whenever it returns it returns
    [True], at a point where an upload had just succeeded, and nothing it
    did was an SSH call: no [mv] and no [kill] was sent and the remote file
    keeps the name it was uploaded under, which ends in [.BMT].  The worker
    too makes no SSH call, and when it returns [True] the orchestrator puts
    the host into the success set. *)
Theorem move_mode_without_paramiko_skips_rename (W : World) :
  HAS_PARAMIKO W = false ->
  (forall fuel ip filename l r t t1,
      send_file_with_fallback W ip l r t = Returns true t1 ->
      send_single_file W (S fuel) ip filename l r true t = Returns true t1) /\
  (forall fuel ip filename l r t t1,
      send_file_with_fallback W ip l r t = Returns false t1 ->
      send_single_file W (S fuel) ip filename l r true t
      = send_single_file W fuel ip filename l r true
          (t1 ++ [(Sleep 5, env W t1 (Sleep 5))])) /\
  (forall fuel ip filename l remote_path t b t',
      let r := make_remote_file_path remote_path filename in
      send_single_file W fuel ip filename l r true t = Returns b t' ->
      b = true /\
      PyStr.endswith r ".BMT" = true /\
      (exists t0, send_file_with_fallback W ip l r t0 = Returns true t') /\
      exists new, t' = t ++ new /\ Forall no_ssh new) /\
  (forall ip_list file_map s remaining_ip futures n ip e fuel io t',
      at_phase s = InRound remaining_ip futures ->
      futures !! n = Some ip ->
      process_single_ip (with_env W e) fuel ip file_map true [] = Returns true t' ->
      Forall no_ssh t' /\
      exists s',
        main_step W ip_list file_map true (FutureDone n e fuel io) s = Some s' /\
        ip ∈ success_ip s').
Proof.
  intros Hp. split; [|split; [|split]].
  - intros fuel ip filename l r t t1 Hsend.
    cbn [send_single_file]. rewrite Hp, andb_false_r.
    by rewrite (bind_of_returns _ _ _ _ _ Hsend).
  - intros fuel ip filename l r t t1 Hsend.
    cbn [send_single_file]. rewrite Hp, andb_false_r.
    rewrite (bind_of_returns _ _ _ _ _ Hsend).
    by rewrite (bind_of_returns _ _ _ _ _ (sleep_eq W 5 t1)).
  - intros fuel ip filename l remote_path t b t' r H.
    destruct (send_single_file_without_paramiko _ _ _ _ _ _ _ _ _ _ Hp H) as (-> & Ht0).
    split; [reflexivity|]. split; [|split; [exact Ht0|]].
    + subst r. unfold make_remote_file_path.
      destruct (PyStr.endswith remote_path "/").
      * rewrite <- append_assoc. apply endswith_append.
      * rewrite <- !append_assoc. apply endswith_append.
    + exact (only_returns _ _ _ _ _
               (send_single_file_no_ssh W fuel ip filename l r true Hp) H).
  - intros ip_list file_map s remaining_ip futures n ip e fuel io t' Hphase Hn Hrun.
    split.
    + destruct (only_returns _ _ _ _ _
                  (process_single_ip_no_ssh (with_env W e) fuel ip file_map true Hp) Hrun)
        as (new & -> & F).
      exact F.
    + unfold main_step. rewrite Hphase, Hn, Hrun.
      destruct futures; (eexists; split; [reflexivity|]); cbn [success_ip]; set_solver.
Qed.

Lemma move_mode_without_paramiko_skips_rename_witness :
  exists t',
    send_file_with_fallback (Sample.world false false Sample.calm)
      "10.0.0.7" "file/svc" (make_remote_file_path "/usr/local/bin/" "svc") []
    = Returns true t' /\
    send_single_file (Sample.world false false Sample.calm) 1
      "10.0.0.7" "svc" "file/svc" (make_remote_file_path "/usr/local/bin/" "svc") true []
    = Returns true t' /\ Forall no_ssh t'.
Proof.
  destruct (move_mode_without_paramiko_skips_rename
              (Sample.world false false Sample.calm) eq_refl)
    as (Hnow & _ & Honly & _).
  destruct (send_file_with_fallback (Sample.world false false Sample.calm)
              "10.0.0.7" "file/svc" (make_remote_file_path "/usr/local/bin/" "svc") [])
    as [[|] t'|e t'|] eqn:E.
  - exists t'. split; [reflexivity|].
    pose proof (Hnow 0%nat "10.0.0.7" "svc" "file/svc"
                  (make_remote_file_path "/usr/local/bin/" "svc") [] t' E) as Hret.
    split; [exact Hret|].
    destruct (Honly 1%nat "10.0.0.7" "svc" "file/svc" "/usr/local/bin/" [] true t' Hret)
      as (_ & _ & _ & new & -> & F).
    exact F.
  - vm_compute in E. discriminate.
  - vm_compute in E. discriminate.
  - vm_compute in E. discriminate.
Defined.

(** A whole worker in move mode on a machine without paramiko and without
    pexpect: one ping, one look at the local file, one [sftp] run, and the
    host is done with [svc.BMT] where [svc] was asked for. *)
Example worker_move_mode_without_paramiko :
  process_single_ip (Sample.world false false Sample.calm) 1
    "10.0.0.7" [("svc", "/usr/local/bin/")] true [] =
  Returns true
    [(SubprocessRun ["ping"; "-c"; "1"; "-W"; "2"; "10.0.0.7"] None 3, Ok 0 "" "");
     (PathExists "file/svc", Ok 1 "" "");
     (SubprocessRun
        ["sftp"; "-P"; "22"; "-o"; "HostKeyAlgorithms ssh-rsa";
         "-o"; "StrictHostKeyChecking=no"; "-o"; "ConnectTimeout=10"; "root@10.0.0.7"]
        (Some ("put file/svc /usr/local/bin/svc.BMT" +:+ LF +:+ "quit" +:+ LF)) 30,
      Ok 0 "" "")].
Proof. vm_compute. reflexivity. Qed.

(** The same worker when paramiko is there renames and kills. *)
Example worker_move_mode_with_paramiko :
  exists t',
    process_single_ip (Sample.world true false Sample.calm) 1
      "10.0.0.7" [("svc", "/usr/local/bin/")] true [] = Returns true t' /\
    (SshExec "mv /usr/local/bin/svc.BMT /usr/local/bin/svc" None, Ok 0 "" "") ∈ t'.
Proof.
  eexists. split; [vm_compute; reflexivity|].
  apply (bool_decide_unpack _). vm_compute. exact I.
Qed.

(** ** Remote directories *)

Example directory_chain_ex :
  directory_chain "" (directory_segments "/usr/local/bin/svc.BMT")
  = ["/usr"; "/usr/local"; "/usr/local/bin"].
Proof. reflexivity. Qed.

Lemma mkdirs_of_app t1 t2 : mkdirs_of (t1 ++ t2) = mkdirs_of t1 ++ mkdirs_of t2.
Proof. unfold mkdirs_of. apply omap_app. Qed.

(** When [mkdir] and [stat] fail only with [OSError] ("already there",
    "no such file"), the loop asks for every directory of the chain. *)
Lemma make_dirs_chain W segments current t :
  (forall t' p e, env W t' (SftpMkdir p) = Raises e -> e = OSError) ->
  (forall t' p e, env W t' (SftpStat p) = Raises e -> e = OSError) ->
  exists new,
    make_dirs W segments current t = Returns tt (t ++ new) /\
    mkdirs_of new = directory_chain current segments /\
    Forall mkdir_or_stat new.
Proof.
  intros Hmk Hst. revert current t.
  induction segments as [|d ds IH]; intros current t; cbn [make_dirs directory_chain].
  - exists []. split; [by rewrite app_nil_r|]. split; [reflexivity|constructor].
  - assert ((if PyStr.truthy current then current +:+ "/" +:+ d else "/" +:+ d)
            = current +:+ "/" +:+ d) as ->.
    { destruct (PyStr.truthy current) eqn:E; [reflexivity|].
      destruct current; [reflexivity|discriminate]. }
    set (path := current +:+ "/" +:+ d).
    assert (exists step,
               try_except (do invoke W (SftpMkdir path) then ret tt) [OSError]
                 (fun _ => try_except (do invoke W (SftpStat path) then ret tt)
                             [OSError] (fun _ => ret tt)) t
               = Returns tt (t ++ step)
               /\ mkdirs_of step = [path] /\ Forall mkdir_or_stat step)
      as (step & Es & Ms & Fs).
    { cbv beta iota zeta delta [try_except bind invoke perform ret raise].
      destruct (env W t (SftpMkdir path)) as [c o e|e] eqn:E1; cbv beta iota zeta.
      - eexists. split; [reflexivity|]. split; [reflexivity|].
        constructor; [|constructor]. exists path. by left.
      - rewrite (Hmk _ _ _ E1). cbn [caught_by existsb subclass orb].
        rewrite bool_decide_eq_true_2 by reflexivity. cbn [orb].
        destruct (env W _ (SftpStat path)) as [c o e'|e'] eqn:E2; cbv beta iota zeta.
        + eexists. split; [rewrite <- app_assoc; reflexivity|].
          split; [reflexivity|].
          constructor; [exists path; by left|].
          constructor; [exists path; by right|constructor].
        + rewrite (Hst _ _ _ E2). cbn [caught_by existsb subclass orb].
          rewrite bool_decide_eq_true_2 by reflexivity. cbn [orb].
          eexists. split; [rewrite <- app_assoc; reflexivity|].
          split; [reflexivity|].
          constructor; [exists path; by left|].
          constructor; [exists path; by right|constructor]. }
    rewrite (bind_of_returns _ _ _ _ _ Es).
    destruct (IH path (t ++ step)) as (new & En & Mn & Fn). rewrite En.
    exists (step ++ new). split; [by rewrite app_assoc|]. split.
    + rewrite mkdirs_of_app, Ms, Mn. reflexivity.
    + by apply Forall_app.
Qed.

(** [check_remote_directory] never raises; under the same proviso its
    [mkdir] calls are the chain of the directory part. *)
Lemma check_remote_directory_chain W remote t :
  (forall t' p e, env W t' (SftpMkdir p) = Raises e -> e = OSError) ->
  (forall t' p e, env W t' (SftpStat p) = Raises e -> e = OSError) ->
  exists new,
    check_remote_directory W remote t = Returns tt (t ++ new) /\
    mkdirs_of new = directory_chain "" (directory_segments remote) /\
    Forall mkdir_or_stat new.
Proof.
  intros Hmk Hst. unfold check_remote_directory, directory_segments.
  destruct (PyStr.truthy (PosixPath.dirname remote)) eqn:Ed; cbn [negb].
  - set (dir := PosixPath.dirname remote) in *.
    assert (List.filter PyStr.truthy
              (PyStr.split "/"
                 (if negb (PyStr.startswith dir "/") then "/" +:+ dir else dir))
            = List.filter PyStr.truthy (PyStr.split "/" dir)) as ->.
    { destruct (PyStr.startswith dir "/"); cbn [negb]; [reflexivity|].
      change ("/" +:+ dir) with (String "/" dir). rewrite split_leading_sep.
      reflexivity. }
    destruct (make_dirs_chain W (List.filter PyStr.truthy (PyStr.split "/" dir)) "" t
                Hmk Hst) as (new & E & Mc & F).
    exists new. split; [|by split].
    by apply try_except_Exception_returns.
  - exists []. split; [by rewrite app_nil_r|]. split; [|constructor].
    apply truthy_false in Ed. rewrite Ed. reflexivity.
Qed.

(** Whatever becomes of the upload, it starts with the directories and then
    the [put]. *)
Lemma paramiko_upload_outcome W l remote t dirs :
  check_remote_directory W remote t = Returns tt (t ++ dirs) ->
  exists r rest,
    (exists b, paramiko_upload W l remote t
               = Returns b (t ++ dirs ++ (SftpPut l remote, r) :: rest)) \/
    (exists e, paramiko_upload W l remote t
               = Raised e (t ++ dirs ++ (SftpPut l remote, r) :: rest)).
Proof.
  intros Hdirs. unfold paramiko_upload.
  rewrite (bind_of_returns _ _ _ _ _ Hdirs).
  cbv beta iota zeta delta [try_except bind invoke perform ret raise].
  destruct (env W (t ++ dirs) (SftpPut l remote)) as [c o e|e]; cbv beta iota zeta.
  - destruct (env W _ (SftpStat remote)) as [c1 o1 e1|e1]; cbv beta iota zeta.
    + destruct (env W _ (OsStat l)) as [c2 o2 e2|e2]; cbv beta iota zeta.
      * eexists _, _. left. eexists. rewrite <- !app_assoc. reflexivity.
      * destruct (caught_by [OSError] e2);
          eexists _, _; [left|right]; eexists; rewrite <- !app_assoc; reflexivity.
    + destruct (caught_by [OSError] e1);
        eexists _, _; [left|right]; eexists; rewrite <- !app_assoc; reflexivity.
  - eexists _, []. right. eexists. rewrite <- !app_assoc. reflexivity.
Qed.

(** X23.  The library backend, once its transport is up, asks for each
    directory on the way to the remote file, outermost first and one segment
    at a time, and only then issues the [put]; a [mkdir] that fails with an
    [OSError], as it does on a directory that is already there, stops
    nothing. *)
Theorem library_backend_creates_directories_before_put
    (W : World) (ip l remote : string) (t : trace)
    (a1 a2 a3 : Z) (o1 o2 o3 e1 e2 e3 : string) :
  HAS_PARAMIKO W = true ->
  (forall t' p e, env W t' (SftpMkdir p) = Raises e -> e = OSError) ->
  (forall t' p e, env W t' (SftpStat p) = Raises e -> e = OSError) ->
  let opened := (TransportOpen ip (ssh_port (config W)), Ok a1 o1 e1) in
  let authed :=
    (TransportConnect (ssh_user (config W)) (ssh_password (config W)), Ok a2 o2 e2) in
  let client := (SftpFromTransport, Ok a3 o3 e3) in
  env W t opened.1 = opened.2 ->
  env W (t ++ [opened]) authed.1 = authed.2 ->
  env W ((t ++ [opened]) ++ [authed]) client.1 = client.2 ->
  exists dirs b r rest,
    send_file_sftp_paramiko W ip l remote t
    = Returns b (t ++ [opened; authed; client] ++ dirs ++ (SftpPut l remote, r) :: rest) /\
    mkdirs_of dirs = directory_chain "" (directory_segments remote) /\
    Forall mkdir_or_stat dirs.
Proof.
  intros Hp Hmk Hst opened authed client H1 H2 H3.
  destruct (check_remote_directory_chain W remote (((t ++ [opened]) ++ [authed]) ++ [client])
              Hmk Hst) as (dirs & Ed & Mc & F).
  destruct (paramiko_upload_outcome W l remote _ dirs Ed) as (r & rest & Hout).
  exists dirs.
  unfold send_file_sftp_paramiko, sftp_connection. rewrite Hp. cbn [negb].
  unfold try_except_Exception.
  rewrite (bind_of_returns _ _ _ _ _ (invoke_ok W _ t a1 o1 e1 H1)).
  fold opened. unfold finally at 1.
  rewrite (bind_of_returns _ _ _ _ _ (invoke_ok W _ _ a2 o2 e2 H2)).
  fold authed.
  rewrite (bind_of_returns _ _ _ _ _ (invoke_ok W _ _ a3 o3 e3 H3)).
  change (client.1, Ok a3 o3 e3) with client. unfold finally.
  destruct Hout as [(b & ->)|(e & ->)]; rewrite !perform_eq.
  - exists b, r. eexists. split; [|by split].
    rewrite <- !app_assoc. reflexivity.
  - exists false, r. eexists. split; [|by split].
    unfold ret. rewrite <- !app_assoc. reflexivity.
Qed.

Lemma library_backend_creates_directories_before_put_witness :
  exists dirs b r rest,
    send_file_sftp_paramiko (Sample.world true false Sample.half_there)
      "10.0.0.7" "file/svc" "/usr/local/bin/svc.BMT" []
    = Returns b ([(TransportOpen "10.0.0.7" 22, Ok 0 "" "");
                  (TransportConnect "root" "pw", Ok 0 "" "");
                  (SftpFromTransport, Ok 0 "" "")]
                 ++ dirs ++ (SftpPut "file/svc" "/usr/local/bin/svc.BMT", r) :: rest) /\
    mkdirs_of dirs = ["/usr"; "/usr/local"; "/usr/local/bin"].
Proof.
  destruct (library_backend_creates_directories_before_put
              (Sample.world true false Sample.half_there)
              "10.0.0.7" "file/svc" "/usr/local/bin/svc.BMT" [] 0 0 0 "" "" "" "" "" "")
    as (dirs & b & r & rest & E & Mc & _).
  - reflexivity.
  - intros t' p e. cbn. destruct (bool_decide _); congruence.
  - intros t' p e. cbn. congruence.
  - reflexivity.
  - reflexivity.
  - reflexivity.
  - exists dirs, b, r, rest. split; [exact E|exact Mc].
Defined.

(** The run behind that witness: two directories are already there, the
    third is made, then the file is put. *)
Example library_backend_half_there :
  send_file_sftp_paramiko (Sample.world true false Sample.half_there)
    "10.0.0.7" "file/svc" "/usr/local/bin/svc.BMT" [] =
  Returns true
    [(TransportOpen "10.0.0.7" 22, Ok 0 "" "");
     (TransportConnect "root" "pw", Ok 0 "" "");
     (SftpFromTransport, Ok 0 "" "");
     (SftpMkdir "/usr", Raises OSError); (SftpStat "/usr", Ok 0 "" "");
     (SftpMkdir "/usr/local", Raises OSError); (SftpStat "/usr/local", Ok 0 "" "");
     (SftpMkdir "/usr/local/bin", Ok 0 "" "");
     (SftpPut "file/svc" "/usr/local/bin/svc.BMT", Ok 0 "" "");
     (SftpStat "/usr/local/bin/svc.BMT", Ok 0 "" "");
     (OsStat "file/svc", Ok 0 "" "");
     (SftpClose, Ok 0 "" ""); (TransportClose, Ok 0 "" "")].
Proof. vm_compute. reflexivity. Qed.

(** C4.  What the library backend does, the two backends that drive the
    [sftp] binary leave out: for a file three directories deep each of them
    sends its [put] and reports a successful upload without having asked for
    any directory. *)
Lemma sftp_binary_backends_create_no_directory :
  let remote := "/opt/new/dir/svc.BMT" in
  directory_chain "" (directory_segments remote) = ["/opt"; "/opt/new"; "/opt/new/dir"] /\
  (exists t,
      send_file_sftp_subprocess (Sample.world false false Sample.calm)
        "10.0.0.7" "file/svc" remote [] = Returns true t /\
      Forall (fun ev => creates_directory ev.1 = false) t) /\
  (exists t,
      send_file_sftp_pexpect (Sample.world false true Sample.calm)
        "10.0.0.7" "file/svc" remote [] = Returns true t /\
      Forall (fun ev => creates_directory ev.1 = false) t).
Proof.
  split; [reflexivity|]. split.
  - eexists. split; [vm_compute; reflexivity|].
    repeat (constructor; [reflexivity|]). constructor.
  - eexists. split; [vm_compute; reflexivity|].
    repeat (constructor; [reflexivity|]). constructor.
Qed.

(** ** The orchestrator, step by step *)

Lemma main_step_transition W ip_list file_map move_mode ev s s' :
  main_step W ip_list file_map move_mode ev s = Some s' ->
  transition W ip_list file_map move_mode ev s s'.
Proof.
  unfold main_step. intros H.
  destruct (at_phase s) as [|remaining_ip futures| |] eqn:Hph;
    destruct ev as [|n e fuel io| |]; try discriminate;
    try (destruct futures; discriminate).
  - destruct (Nat.ltb_spec (size (success_ip s)) (length ip_list)) as [Hlt|Hge].
    + destruct (decide (not_yet_successful ip_list (success_ip s) = [])) as [He|Hne].
      * rewrite bool_decide_eq_true_2 in H by exact He. injection H as <-.
        apply leave_loop; [exact Hph|by right].
      * rewrite bool_decide_eq_false_2 in H by exact Hne. injection H as <-.
        by apply enter_round.
    + injection H as <-. apply leave_loop; [exact Hph|by left].
  - assert (match futures !! n with
            | Some ip =>
                match process_single_ip (with_env W e) fuel ip file_map move_mode [] with
                | Returns true _ =>
                    Some {| success_ip := {[ip]} ∪ success_ip s;
                            complete_txt := record_complete_ip io ip (complete_txt s);
                            dispatched := dispatched s ++ notify_ip_success (config W) ip;
                            at_phase := InRound remaining_ip (delete n futures) |}
                | Returns false _ | Raised _ _ =>
                    Some (set_phase s (InRound remaining_ip (delete n futures)))
                | Looping => None
                end
            | None => None
            end = Some s') as H'.
    { destruct futures; exact H. }
    clear H. destruct (futures !! n) as [ip|] eqn:Hn; [|discriminate].
    destruct (process_single_ip _ _ _ _ _ _) as [[|] t|x t|] eqn:Hrun;
      try discriminate; injection H' as <-.
    + by eapply worker_succeeded.
    + eapply worker_failed; eauto.
    + eapply worker_failed; eauto.
  - destruct futures; [|discriminate]. injection H as <-.
    by eapply round_over.
  - injection H as <-. by apply epilogue.
Qed.

(** Runs, as a relation. *)
Lemma main_run_app W ip_list file_map move_mode evs1 evs2 s :
  main_run W ip_list file_map move_mode (evs1 ++ evs2) s =
  match main_run W ip_list file_map move_mode evs1 s with
  | Some s1 => main_run W ip_list file_map move_mode evs2 s1
  | None => None
  end.
Proof.
  revert s. induction evs1 as [|ev evs1 IH]; intros s; [reflexivity|].
  cbn [main_run app]. destruct (main_step _ _ _ _ ev s); [apply IH|reflexivity].
Qed.

(** An invariant of the steps holds along every run. *)
Lemma main_run_invariant W ip_list file_map move_mode (Inv : run_state -> Prop) evs s s' :
  (forall ev a b, transition W ip_list file_map move_mode ev a b -> Inv a -> Inv b) ->
  main_run W ip_list file_map move_mode evs s = Some s' ->
  Inv s -> Inv s'.
Proof.
  intros Hstep. revert s. induction evs as [|ev evs IH]; intros s H Hs.
  - injection H as <-. exact Hs.
  - cbn [main_run] in H.
    destruct (main_step W ip_list file_map move_mode ev s) as [s1|] eqn:E;
      [|discriminate].
    apply (IH s1 H). eapply Hstep; [|exact Hs]. by apply main_step_transition.
Qed.

(** ** Notifications *)

Lemma send_notification_masked c subject tag :
  tag ∈ ["start"; "ip_success"; "complete"] ->
  notification_on c = true -> listed c tag = true ->
  Forall (masked c) (send_notification c subject [tag]).
Proof.
  intros Htag Hon Hl. unfold send_notification. constructor; [|constructor].
  exists tag. cbn [event smtp]. repeat split; try done.
  rewrite Hon. cbn [negb]. destruct (email_on c); [done|discriminate].
Qed.

(** ** The worker and the success set *)

Lemma send_single_file_returns_true W fuel ip filename l r move_mode t b t' :
  send_single_file W fuel ip filename l r move_mode t = Returns b t' -> b = true.
Proof.
  revert t. induction fuel as [|fuel IH]; intros t H; [discriminate|].
  cbn [send_single_file] in H.
  apply bind_returns in H as (success & t1 & _ & H). destruct success.
  - destruct (move_mode && HAS_PARAMIKO W).
    + apply bind_returns in H as (done & t2 & _ & H). destruct done.
      * by injection H as <- _.
      * apply bind_returns in H as (? & t3 & _ & H). by apply IH in H.
    + by injection H as <- _.
  - apply bind_returns in H as (? & t3 & _ & H). by apply IH in H.
Qed.

Lemma wait_for_ssh_ready_returns_true W fuel ip t b t' :
  wait_for_ssh_ready W fuel ip t = Returns b t' -> b = true.
Proof.
  unfold wait_for_ssh_ready. destruct (HAS_PARAMIKO W) eqn:Hp; cbn [negb]; intros H.
  - by apply (wait_for_ssh_ready_loop_returns W fuel ip t b t' Hp) in H as [-> _].
  - apply bind_returns in H as (ok & t1 & _ & H). by inversion H.
Qed.

Lemma process_entries_returns W fuel ip move_mode file_map t u t' :
  process_entries W fuel ip move_mode file_map t = Returns u t' ->
  entries_done W fuel ip move_mode file_map t t'.
Proof.
  revert t. induction file_map as [|[filename remote_path] rest IH]; intros t H.
  - cbn [process_entries] in H. inversion H; subst. constructor.
  - cbn [process_entries] in H. apply bind_returns in H as (? & t2 & Hentry & H).
    apply IH in H. unfold process_entry in Hentry. cbn [fst snd] in Hentry.
    apply bind_returns in Hentry as (found & t1 & Hfound & Hentry). destruct found.
    + cbn [negb] in Hentry. apply bind_returns in Hentry as (b & t3 & Hsend & Hentry).
      inversion Hentry; subst.
      pose proof (send_single_file_returns_true _ _ _ _ _ _ _ _ _ _ Hsend) as ->.
      by eapply done_sent.
    + cbn [negb] in Hentry. inversion Hentry; subst. by eapply done_missing.
Qed.

Lemma process_single_ip_true W fuel ip file_map move_mode t t' :
  process_single_ip W fuel ip file_map move_mode t = Returns true t' ->
  exists t1,
    wait_for_ssh_ready W fuel ip t = Returns true t1 /\
    entries_done W fuel ip move_mode file_map t1 t'.
Proof.
  unfold process_single_ip, try_except_Exception. intros H.
  destruct (bind (wait_for_ssh_ready W fuel ip) _ t) as [b t2|x t2|] eqn:E;
    [|discriminate..].
  injection H as -> ->.
  apply bind_returns in E as (ready & t1 & Hready & E).
  apply bind_returns in E as (u & t3 & Hentries & E). inversion E; subst.
  exists t1. split.
  - by rewrite <- (wait_for_ssh_ready_returns_true W fuel ip t ready t1 Hready).
  - by eapply process_entries_returns.
Qed.

(** ** The run state *)

Lemma elem_of_not_yet_successful ip_list (success : gset string) h :
  h ∈ not_yet_successful ip_list success <-> h ∈ ip_list /\ h ∉ success.
Proof.
  unfold not_yet_successful. rewrite !list_elem_of_In, filter_In.
  by rewrite bool_decide_eq_true.
Qed.

Lemma transition_success_grows W ip_list file_map move_mode ev a b :
  transition W ip_list file_map move_mode ev a b -> success_ip a ⊆ success_ip b.
Proof. intros Ht. destruct Ht; cbn [success_ip set_phase]; set_solver. Qed.

Lemma main_run_success_grows W ip_list file_map move_mode evs a b :
  main_run W ip_list file_map move_mode evs a = Some b -> success_ip a ⊆ success_ip b.
Proof.
  revert a. induction evs as [|ev evs IH]; intros a H.
  - by injection H as <-.
  - cbn [main_run] in H.
    destruct (main_step W ip_list file_map move_mode ev a) as [a1|] eqn:E;
      [|discriminate].
    apply main_step_transition, transition_success_grows in E.
    apply IH in H. set_solver.
Qed.

Lemma transition_run_invariant W ip_list file_map move_mode ev a b :
  transition W ip_list file_map move_mode ev a b ->
  run_invariant W ip_list file_map move_mode a ->
  run_invariant W ip_list file_map move_mode b.
Proof.
  intros Ht [Hsucc Hround].
  destruct Ht as [s rem Hph Hlt -> Hne|s Hph Hor|s rem futs n e fuel io ip t Hph Hn Hrun
                 |s rem futs n e fuel io ip Hph Hn Hrun|s rem Hph|s Hph];
    split; cbn [success_ip at_phase set_phase]; try exact Hsucc; try discriminate.
  - intros rem futs [= <- <-]. split; [done|]. split; [|done].
    intros h Hh. by apply elem_of_not_yet_successful in Hh as [? _].
  - destruct (Hround rem futs Hph) as (Hf & Hr & _).
    intros h [->%elem_of_singleton|Hh]%elem_of_union; [|by apply Hsucc].
    apply Hr, Hf. by eapply list_elem_of_lookup_2.
  - destruct (Hround rem futs Hph) as (Hf & Hr & Hn').
    intros rem' futs' [= <- <-]. split; [|split; [exact Hr|]].
    + intros h Hh. apply Hf. by eapply list_elem_of_delete_inv.
    + intros h Hh. apply Hn'. apply elem_of_not_yet_successful in Hh as [Hl Hs].
      apply elem_of_not_yet_successful. split; [exact Hl|].
      intros Hin. apply Hs, elem_of_union. by right.
  - destruct (Hround rem futs Hph) as (Hf & Hr & Hn').
    intros rem' futs' [= <- <-]. split; [|split; [exact Hr|exact Hn']].
    intros h Hh. apply Hf. by eapply list_elem_of_delete_inv.
Qed.

Lemma main_start_run_invariant W ip_list file_map move_mode remove_fails old s0 :
  main_start W ip_list file_map remove_fails old = Some s0 ->
  run_invariant W ip_list file_map move_mode s0.
Proof.
  unfold main_start. repeat case_bool_decide; try discriminate.
  intros [= <-]. split; cbn [success_ip at_phase].
  - intros h Hh. by apply not_elem_of_empty in Hh.
  - discriminate.
Qed.

(** ** Leaving the loop *)

Lemma size_list_to_set_le (l : list string) :
  (size (list_to_set l : gset string) <= length l)%nat.
Proof.
  induction l as [|x l IH]; [by rewrite list_to_set_nil, size_empty|].
  rewrite list_to_set_cons, size_union_alt, size_singleton. cbn [length].
  assert (size (list_to_set l ∖ {[x]} : gset string) <= size (list_to_set l : gset string))%nat
    by (apply subseteq_size, subseteq_difference_l; reflexivity).
  lia.
Qed.

Lemma size_list_to_set_NoDup (l : list string) :
  size (list_to_set l : gset string) = length l -> NoDup l.
Proof.
  induction l as [|x l IH]; [constructor|].
  rewrite list_to_set_cons, size_union_alt, size_singleton. cbn [length]. intros H.
  pose proof (size_list_to_set_le l) as Hle.
  assert (size (list_to_set l ∖ {[x]} : gset string) <= size (list_to_set l : gset string))%nat
    as Hsub by (apply subseteq_size, subseteq_difference_l; reflexivity).
  assert (size (list_to_set l ∖ {[x]} : gset string) = size (list_to_set l : gset string))
    as Heq by lia.
  constructor; [|apply IH; lia].
  intros Hx.
  assert (list_to_set l ∖ {[x]} = (list_to_set l : gset string)) as Hset.
  { apply set_subseteq_size_eq; [by apply subseteq_difference_l|lia]. }
  assert (x ∈ (list_to_set l : gset string)) as Hin by (by apply elem_of_list_to_set).
  rewrite <- Hset in Hin. apply elem_of_difference in Hin as [_ Hn].
  apply Hn. by apply elem_of_singleton.
Qed.

(** Once the loop is left every host is in the success set. *)
Lemma transition_loop_left W ip_list file_map move_mode ev a b :
  transition W ip_list file_map move_mode ev a b ->
  run_invariant W ip_list file_map move_mode a ->
  (loop_left a -> forall h, h ∈ ip_list -> h ∈ success_ip a) ->
  loop_left b -> forall h, h ∈ ip_list -> h ∈ success_ip b.
Proof.
  intros Ht [Hsucc _] Ha.
  destruct Ht as [s rem Hph Hlt -> Hne|s Hph Hor|s rem futs n e fuel io ip t Hph Hn Hrun
                 |s rem futs n e fuel io ip Hph Hn Hrun|s rem Hph|s Hph];
    unfold loop_left; cbn [at_phase set_phase success_ip];
    try (intros [?|?]; discriminate).
  - intros _ h Hh. destruct Hor as [Hge|Hnil].
    + assert (success_ip s ⊆ list_to_set ip_list) as Hsub.
      { intros x Hx. apply elem_of_list_to_set. by apply Hsucc. }
      assert (success_ip s = list_to_set ip_list) as ->.
      { apply set_subseteq_size_eq; [exact Hsub|].
        pose proof (size_list_to_set_le ip_list). lia. }
      by apply elem_of_list_to_set.
    + destruct (decide (h ∈ success_ip s)) as [Hin|Hnot]; [exact Hin|].
      assert (h ∈ not_yet_successful ip_list (success_ip s)) as Hrem
        by (by apply elem_of_not_yet_successful).
      rewrite Hnil in Hrem. by apply elem_of_nil in Hrem.
  - intros _. apply Ha. left. exact Hph.
Qed.

Lemma main_run_loop_left W ip_list file_map move_mode evs a b :
  main_run W ip_list file_map move_mode evs a = Some b ->
  run_invariant W ip_list file_map move_mode a ->
  (loop_left a -> forall h, h ∈ ip_list -> h ∈ success_ip a) ->
  run_invariant W ip_list file_map move_mode b /\
  (loop_left b -> forall h, h ∈ ip_list -> h ∈ success_ip b).
Proof.
  revert a. induction evs as [|ev evs IH]; intros a H Hinv Ha.
  - injection H as <-. by split.
  - cbn [main_run] in H.
    destruct (main_step W ip_list file_map move_mode ev a) as [a1|] eqn:E;
      [|discriminate].
    apply main_step_transition in E. apply (IH a1 H).
    + by eapply transition_run_invariant.
    + by eapply transition_loop_left.
Qed.

Lemma main_start_at_loop_head W ip_list file_map remove_fails old s0 :
  main_start W ip_list file_map remove_fails old = Some s0 ->
  at_phase s0 = LoopHead /\ success_ip s0 = ∅ /\
  dispatched s0 = notify_start (config W) ip_list.
Proof.
  unfold main_start. repeat case_bool_decide; try discriminate.
  by intros [= <-].
Qed.

Lemma main_after_the_loop W ip_list file_map move_mode remove_fails old evs s0 s :
  main_start W ip_list file_map remove_fails old = Some s0 ->
  main_run W ip_list file_map move_mode evs s0 = Some s ->
  loop_left s -> success_ip s = list_to_set ip_list.
Proof.
  intros Hstart Hrun Hleft.
  destruct (main_start_at_loop_head _ _ _ _ _ _ Hstart) as (Hph & _ & _).
  destruct (main_run_loop_left W ip_list file_map move_mode evs s0 s Hrun) as [[Hsucc _] Hall].
  - by eapply main_start_run_invariant.
  - intros [H|H]; rewrite Hph in H; discriminate.
  - apply set_eq. intros h. rewrite elem_of_list_to_set. split.
    + intros Hh. by apply Hsucc.
    + by apply Hall.
Qed.

Lemma finished_or_not (p : phase) : p = Finished \/ p <> Finished.
Proof. destruct p; (by left) || (by right). Qed.

Lemma notify_start_not_complete c ip_list :
  Forall (fun d => ~ tells_complete d) (notify_start c ip_list).
Proof.
  unfold notify_start, send_notification.
  destruct (_ && _); [|constructor]. constructor; [|constructor].
  unfold tells_complete. cbn [event]. discriminate.
Qed.

Lemma notify_ip_success_not_complete c ip :
  Forall (fun d => ~ tells_complete d) (notify_ip_success c ip).
Proof.
  unfold notify_ip_success, send_notification.
  destruct (_ && _); [|constructor]. constructor; [|constructor].
  unfold tells_complete. cbn [event]. discriminate.
Qed.

(** Before the epilogue nothing tells the end of the run. *)
Lemma main_run_tells_no_end_early W ip_list file_map move_mode evs a b :
  main_run W ip_list file_map move_mode evs a = Some b ->
  (at_phase a <> Finished /\ Forall (fun d => ~ tells_complete d) (dispatched a)) ->
  at_phase b <> Finished ->
  Forall (fun d => ~ tells_complete d) (dispatched b).
Proof.
  revert a. induction evs as [|ev evs IH]; intros a H [Hph Ha] Hb.
  - by injection H as <-.
  - cbn [main_run] in H.
    destruct (main_step W ip_list file_map move_mode ev a) as [a1|] eqn:E;
      [|discriminate].
    apply main_step_transition in E.
    destruct (finished_or_not (at_phase a1)) as [Hfin|Hnot].
    + exfalso. clear IH. destruct evs as [|ev' evs].
      * injection H as <-. by apply Hb.
      * cbn [main_run] in H. unfold main_step in H. rewrite Hfin in H.
        destruct ev'; discriminate.
    + apply (IH a1 H); [|exact Hb]. split; [exact Hnot|].
      destruct E; cbn [dispatched set_phase at_phase] in *; try exact Ha.
      * apply Forall_app. split; [exact Ha|apply notify_ip_success_not_complete].
      * done.
Qed.

(** Reaching [Finished] is the epilogue, run once, on a state that has
    left the loop. *)
Lemma main_run_finished W ip_list file_map move_mode evs a b :
  main_run W ip_list file_map move_mode evs a = Some b ->
  at_phase a <> Finished -> at_phase b = Finished ->
  exists evs' s1,
    evs = evs' ++ [Epilogue] /\
    main_run W ip_list file_map move_mode evs' a = Some s1 /\
    at_phase s1 = AfterLoop /\
    success_ip b = success_ip s1 /\
    dispatched b = dispatched s1 ++ notify_complete (config W) (success_ip s1) ip_list.
Proof.
  revert a. induction evs as [|ev evs IH]; intros a H Ha Hb.
  - injection H as <-. done.
  - cbn [main_run] in H.
    destruct (main_step W ip_list file_map move_mode ev a) as [a1|] eqn:E;
      [|discriminate].
    destruct (finished_or_not (at_phase a1)) as [Hfin|Hnot].
    + destruct evs as [|ev' evs].
      * injection H as <-. pose proof (main_step_transition _ _ _ _ _ _ _ E) as Ht.
        inversion Ht; subst; cbn [at_phase set_phase] in Hfin; try discriminate.
        exists [], a. repeat split; try reflexivity; assumption.
      * cbn [main_run] in H. unfold main_step in H. rewrite Hfin in H.
        destruct ev'; discriminate.
    + destruct (IH a1 H Hnot Hb) as (evs' & s1 & -> & Hrun & Hph & Hs & Hd).
      exists (ev :: evs'), s1. split; [reflexivity|].
      split; [cbn [main_run]; by rewrite E|]. by repeat split.
Qed.

(** ** The success set along a run *)

(** What one step does to the success set. *)
Lemma main_step_success W ip_list file_map move_mode ev s1 s2 :
  main_step W ip_list file_map move_mode ev s1 = Some s2 ->
  success_ip s2 = success_ip s1 \/
  exists ip, placed_by W file_map move_mode ev s1 ip /\
             success_ip s2 = {[ip]} ∪ success_ip s1.
Proof.
  intros H. apply main_step_transition in H.
  destruct H as [s rem Hph Hlt -> Hne|s Hph Hor|s rem futs n e fuel io ip t Hph Hn Hrun
                |s rem futs n e fuel io ip Hph Hn Hrun|s rem Hph|s Hph];
    cbn [success_ip set_phase]; try (by left).
  right. exists ip. split; [|reflexivity].
  destruct (process_single_ip_true _ _ _ _ _ _ _ Hrun) as (t1 & Hready & Hdone).
  exists n, e, fuel, io, rem, futs. repeat split; try done.
  exists t1, t. by repeat split.
Qed.

(** What the completion of a future does to the run state. *)
Lemma main_step_future W ip_list file_map move_mode n e fuel io s1 s2
    remaining_ip futures ip :
  main_step W ip_list file_map move_mode (FutureDone n e fuel io) s1 = Some s2 ->
  at_phase s1 = InRound remaining_ip futures ->
  futures !! n = Some ip ->
  at_phase s2 = InRound remaining_ip (delete n futures) /\
  ((exists t, process_single_ip (with_env W e) fuel ip file_map move_mode [] = Returns true t) ->
   success_ip s2 = {[ip]} ∪ success_ip s1 /\
   dispatched s2 = dispatched s1 ++ notify_ip_success (config W) ip) /\
  ((forall t, process_single_ip (with_env W e) fuel ip file_map move_mode [] <> Returns true t) ->
   success_ip s2 = success_ip s1 /\ dispatched s2 = dispatched s1).
Proof.
  intros H Hph Hn. apply main_step_transition in H.
  inversion H as [ | |a rem futs n' e' fuel' io' ip' t Hph' Hn' Hrun'
                 |a rem futs n' e' fuel' io' ip' Hph' Hn' Hrun'| | ]; subst;
    rewrite Hph in Hph'; injection Hph' as <- <-;
    rewrite Hn in Hn'; injection Hn' as <-;
    cbn [at_phase success_ip dispatched set_phase]; (split; [reflexivity|]); split.
  - by intros _.
  - intros Hno. by destruct (Hno t).
  - intros (t & Ht). rewrite Ht in Hrun'.
    by destruct Hrun' as [(t' & [=])|(x & t' & [=])].
  - by intros _.
Qed.

(** A host of the success set was put there by a step of the run. *)
Lemma main_run_placed W ip_list file_map move_mode evs a b h :
  main_run W ip_list file_map move_mode evs a = Some b ->
  h ∈ success_ip b -> h ∉ success_ip a ->
  exists evs1 ev evs2 s1,
    evs = evs1 ++ ev :: evs2 /\
    main_run W ip_list file_map move_mode evs1 a = Some s1 /\
    (h ∉ success_ip s1) /\
    placed_by W file_map move_mode ev s1 h.
Proof.
  revert a. induction evs as [|ev evs IH]; intros a H Hb Ha.
  - injection H as <-. done.
  - cbn [main_run] in H.
    destruct (main_step W ip_list file_map move_mode ev a) as [a1|] eqn:E;
      [|discriminate].
    destruct (decide (h ∈ success_ip a1)) as [Hin|Hnot].
    + exists [], ev, evs, a. split; [reflexivity|]. split; [reflexivity|].
      split; [exact Ha|].
      destruct (main_step_success _ _ _ _ _ _ _ E) as [Heq|(ip & Hplaced & Heq)].
      * rewrite Heq in Hin. done.
      * rewrite Heq in Hin. apply elem_of_union in Hin as [Hin|Hin]; [|done].
        apply elem_of_singleton in Hin. by subst ip.
    + destruct (IH a1 H Hb Hnot) as (evs1 & ev' & evs2 & s1 & -> & Hrun & Hs1 & Hp).
      exists (ev :: evs1), ev', evs2, s1. split; [reflexivity|].
      split; [cbn [main_run]; by rewrite E|]. by split.
Qed.

(** C1, amended.  Along a run of [main], at every point: the success set
    and the hosts not yet successful (the list
    [[ip for ip in ip_list if ip not in success_ip]]) make up the host list.
    When a round is entered [remaining_ip] is that list, so that it and the
    success set split the host list between them, no host in both.  Within
    the round [remaining_ip] is not computed again: with the success set it
    still makes up the host list, and the hosts that succeed in the round
    stay in it.  The success set only grows.  A step changes it only when a
    future of the round under way completes whose worker, in that one call,
    got through the readiness gate and through every entry of the manifest
    and returned [True]; then the host of that future is added, and a worker
    that returned [False] or raised adds nothing.  Every host of the success
    set was put there by such a step of this run. *)
Theorem success_and_remaining_cover_hosts
    (W : World) (ip_list : list string) (file_map : list (string * string))
    (move_mode remove_fails : bool) (old : option string)
    (evs : list main_event) (s0 s : run_state) :
  main_start W ip_list file_map remove_fails old = Some s0 ->
  main_run W ip_list file_map move_mode evs s0 = Some s ->
  (forall h, h ∈ ip_list <->
             h ∈ not_yet_successful ip_list (success_ip s) \/ h ∈ success_ip s) /\
  (forall evs' remaining_ip futures,
      evs = evs' ++ [EnterRound] ->
      at_phase s = InRound remaining_ip futures ->
      remaining_ip = not_yet_successful ip_list (success_ip s) /\
      futures = remaining_ip /\
      (forall h, h ∈ ip_list <-> h ∈ remaining_ip \/ h ∈ success_ip s) /\
      (forall h, h ∈ remaining_ip -> h ∉ success_ip s)) /\
  (forall remaining_ip futures,
      at_phase s = InRound remaining_ip futures ->
      (forall h, h ∈ ip_list <-> h ∈ remaining_ip \/ h ∈ success_ip s) /\
      (forall h, h ∈ futures -> h ∈ remaining_ip)) /\
  (forall evs1 ev evs2 s1 s2,
      evs = evs1 ++ ev :: evs2 ->
      main_run W ip_list file_map move_mode evs1 s0 = Some s1 ->
      main_step W ip_list file_map move_mode ev s1 = Some s2 ->
      success_ip s1 ⊆ success_ip s2 /\
      (success_ip s2 = success_ip s1 \/
       exists ip, placed_by W file_map move_mode ev s1 ip /\
                  success_ip s2 = {[ip]} ∪ success_ip s1) /\
      (forall n e fuel io remaining_ip futures ip,
          ev = FutureDone n e fuel io ->
          at_phase s1 = InRound remaining_ip futures ->
          futures !! n = Some ip ->
          at_phase s2 = InRound remaining_ip (delete n futures) /\
          ((exists t, process_single_ip (with_env W e) fuel ip file_map move_mode []
                      = Returns true t) ->
           success_ip s2 = {[ip]} ∪ success_ip s1) /\
          ((forall t, process_single_ip (with_env W e) fuel ip file_map move_mode []
                      <> Returns true t) ->
           success_ip s2 = success_ip s1))) /\
  (forall evs1 evs2,
      evs = evs1 ++ evs2 ->
      exists s1, main_run W ip_list file_map move_mode evs1 s0 = Some s1 /\
                 success_ip s1 ⊆ success_ip s) /\
  (forall h, h ∈ success_ip s ->
      exists evs1 ev evs2 s1,
        evs = evs1 ++ ev :: evs2 /\
        main_run W ip_list file_map move_mode evs1 s0 = Some s1 /\
        (h ∉ success_ip s1) /\
        placed_by W file_map move_mode ev s1 h).
Proof.
  intros Hstart Hrun.
  assert (run_invariant W ip_list file_map move_mode s) as [Hsucc Hround].
  { eapply main_run_invariant; [|exact Hrun|by eapply main_start_run_invariant].
    intros ev a b. apply transition_run_invariant. }
  assert (forall h, h ∈ ip_list <->
                    h ∈ not_yet_successful ip_list (success_ip s) \/ h ∈ success_ip s)
    as Hcover.
  { intros h. rewrite elem_of_not_yet_successful. split.
    - intros Hl. destruct (decide (h ∈ success_ip s)); [by right|by left].
    - intros [[Hl _]|Hs]; [exact Hl|by apply Hsucc]. }
  split; [exact Hcover|]. split; [|split; [|split; [|split]]].
  - intros evs' remaining_ip futures -> Hph. rewrite main_run_app in Hrun.
    destruct (main_run W ip_list file_map move_mode evs' s0) as [s1|]; [|discriminate].
    cbn [main_run] in Hrun.
    destruct (main_step W ip_list file_map move_mode EnterRound s1) as [s2|] eqn:E;
      [|discriminate].
    injection Hrun as ->. apply main_step_transition in E.
    inversion E as [a rem Hpa Hlt Hrem Hne Hev Ha Hb|a Hpa Hor Hev Ha Hb| | | | ];
      subst; cbn [at_phase set_phase] in Hph; [|discriminate].
    injection Hph as <- <-. cbn [success_ip set_phase] in *.
    split; [reflexivity|]. split; [reflexivity|]. split; [exact Hcover|].
    intros h Hh. by apply elem_of_not_yet_successful in Hh as [_ Hn].
  - intros remaining_ip futures Hph.
    destruct (Hround remaining_ip futures Hph) as (Hf & Hr & Hn).
    split; [|exact Hf]. intros h. split.
    + intros Hl. apply Hcover in Hl as [Hl|Hl]; [left; by apply Hn|by right].
    + intros [Hl|Hl]; [by apply Hr|by apply Hsucc].
  - intros evs1 ev evs2 s1 s2 -> Hrun1 Hstep. split; [|split].
    + by eapply transition_success_grows, main_step_transition.
    + by eapply main_step_success.
    + intros n e fuel io remaining_ip futures ip -> Hph Hn.
      destruct (main_step_future _ _ _ _ _ _ _ _ _ _ _ _ _ Hstep Hph Hn)
        as (Hph2 & Hyes & Hno).
      split; [exact Hph2|]. split.
      * intros Ht. by apply Hyes.
      * intros Ht. by apply Hno.
  - intros evs1 evs2 ->. rewrite main_run_app in Hrun.
    destruct (main_run W ip_list file_map move_mode evs1 s0) as [s1|]; [|discriminate].
    exists s1. split; [reflexivity|]. by eapply main_run_success_grows.
  - intros h Hh. eapply main_run_placed; [exact Hrun|exact Hh|].
    destruct (main_start_at_loop_head _ _ _ _ _ _ Hstart) as (_ & -> & _).
    apply not_elem_of_empty.
Qed.

Lemma success_and_remaining_cover_hosts_witness :
  exists s0 s,
    main_start (Sample.world false false Sample.calm) (read_ip_list Sample.ip_txt)
      Sample.manifest false None = Some s0 /\
    main_run (Sample.world false false Sample.calm) (read_ip_list Sample.ip_txt)
      Sample.manifest true [EnterRound; FutureDone 1 Sample.calm 1 IoFine] s0 = Some s /\
    "fde0::1" ∈ success_ip s /\
    exists evs1 ev evs2 s1,
      [EnterRound; FutureDone 1 Sample.calm 1 IoFine] = evs1 ++ ev :: evs2 /\
      main_run (Sample.world false false Sample.calm) (read_ip_list Sample.ip_txt)
        Sample.manifest true evs1 s0 = Some s1 /\
      ("fde0::1" ∉ success_ip s1) /\
      placed_by (Sample.world false false Sample.calm) Sample.manifest true ev s1 "fde0::1".
Proof.
  eexists _, _. split; [reflexivity|].
  match goal with
  | |- ?run = Some ?s /\ _ =>
      let r := eval vm_compute in run in
      match r with
      | Some ?v => unify s v
      end
  end.
  split; [vm_compute; reflexivity|].
  assert ("fde0::1" ∈ ({[ "fde0::1" ]} ∪ ∅ : gset string)) as Hin
    by (apply (bool_decide_unpack _); vm_compute; exact I).
  split; [exact Hin|].
  eapply (success_and_remaining_cover_hosts
            (Sample.world false false Sample.calm) (read_ip_list Sample.ip_txt)
            Sample.manifest true false None
            [EnterRound; FutureDone 1 Sample.calm 1 IoFine]).
  - reflexivity.
  - vm_compute. reflexivity.
  - exact Hin.
Defined.

(** C1 as stated does not hold of [remaining_ip]: it is computed when a
    round begins and not again, so that once the second host of a round is
    done that host is in the success set and in [remaining_ip] at once, and
    [remaining_ip] is no longer the list of the hosts not yet successful. *)
Lemma remaining_ip_overlaps_success_within_a_round :
  exists s0 s remaining_ip futures,
    main_start (Sample.world false false Sample.calm) (read_ip_list Sample.ip_txt)
      Sample.manifest false None = Some s0 /\
    main_run (Sample.world false false Sample.calm) (read_ip_list Sample.ip_txt)
      Sample.manifest true [EnterRound; FutureDone 1 Sample.calm 1 IoFine] s0 = Some s /\
    at_phase s = InRound remaining_ip futures /\
    "fde0::1" ∈ remaining_ip /\
    "fde0::1" ∈ success_ip s /\
    remaining_ip <> not_yet_successful (read_ip_list Sample.ip_txt) (success_ip s).
Proof.
  eexists _, _, ["10.0.0.7"; "fde0::1"], ["10.0.0.7"]. split; [reflexivity|].
  match goal with
  | |- ?run = Some ?s /\ _ =>
      let r := eval vm_compute in run in
      match r with
      | Some ?v => unify s v
      end
  end.
  split; [vm_compute; reflexivity|]. split; [vm_compute; reflexivity|].
  split; [apply (bool_decide_unpack _); vm_compute; exact I|].
  split; [apply (bool_decide_unpack _); vm_compute; exact I|].
  vm_compute. discriminate.
Qed.

(** ** Notifications along a run *)

(** The three guards of [main] are one and the same test. *)
Lemma notify_start_told c ip_list :
  notify_start c ip_list
  = told c "start" ("Deploy Started - " +:+ pretty (length ip_list) +:+ " IP").
Proof.
  unfold notify_start, told, send_notification.
  destruct (notification_on c) eqn:Hon; [|reflexivity].
  destruct (listed c "start"); [|reflexivity]. cbn [andb negb].
  unfold send_email_notification. by destruct (email_on c).
Qed.

Lemma notify_ip_success_told c ip :
  notify_ip_success c ip = told c "ip_success" ("IP " +:+ ip +:+ " Completed").
Proof.
  unfold notify_ip_success, told, send_notification.
  destruct (notification_on c) eqn:Hon; [|reflexivity].
  destruct (listed c "ip_success"); [|reflexivity]. cbn [andb negb].
  unfold send_email_notification. by destruct (email_on c).
Qed.

Lemma notify_complete_told c (success : gset string) ip_list :
  notify_complete c success ip_list
  = if (size success =? length ip_list)%nat
    then told c "complete"
           ("Deploy Complete - " +:+ pretty (size success) +:+ "/"
            +:+ pretty (length ip_list) +:+ " IP")
    else [].
Proof.
  unfold notify_complete, told, send_notification.
  destruct (notification_on c) eqn:Hon; [|by destruct (_ =? _)%nat].
  destruct (listed c "complete"); [|by destruct (_ =? _)%nat]. cbn [andb negb].
  destruct (_ =? _)%nat; [|reflexivity].
  unfold send_email_notification. by destruct (email_on c).
Qed.

Lemma main_run_dispatched_grows W ip_list file_map move_mode evs a b :
  main_run W ip_list file_map move_mode evs a = Some b ->
  exists more, dispatched b = dispatched a ++ more.
Proof.
  revert a. induction evs as [|ev evs IH]; intros a H.
  - injection H as <-. exists []. by rewrite app_nil_r.
  - cbn [main_run] in H.
    destruct (main_step W ip_list file_map move_mode ev a) as [a1|] eqn:E;
      [|discriminate].
    destruct (IH a1 H) as (more & ->).
    apply main_step_transition in E.
    destruct E; cbn [dispatched set_phase]; try (by exists more).
    + eexists. by rewrite <- app_assoc.
    + eexists. by rewrite <- app_assoc.
Qed.

(** C5, amended.  Each of the three notifications of [main] goes out only
    with notifications enabled and its tag listed in [notify_on]; the one for
    [ip_success] is under that test like the two others, whether or not mail
    is enabled.  Along a run: the start is told when the run begins; each
    time a future completes whose worker returned [True], the host is put
    into the success set and one [ip_success] message is dispatched for it
    when the tag is listed, none when it is not; a worker that did not
    return [True] and the passes through the loop head dispatch nothing; the
    end is told by the epilogue, and only when the success set has as many
    hosts as the list has entries, at which point every host of the list has
    succeeded.  What was dispatched stays dispatched. *)
Theorem notifications_are_masked
    (W : World) (ip_list : list string) (file_map : list (string * string))
    (move_mode remove_fails : bool) (old : option string)
    (evs : list main_event) (s0 s : run_state) :
  main_start W ip_list file_map remove_fails old = Some s0 ->
  main_run W ip_list file_map move_mode evs s0 = Some s ->
  Forall (masked (config W)) (dispatched s) /\
  (listed (config W) "ip_success" = false ->
   forall d, d ∈ dispatched s -> event d <> ["ip_success"]) /\
  dispatched s0
  = told (config W) "start"
      ("Deploy Started - " +:+ pretty (length ip_list) +:+ " IP") /\
  (forall evs1 ev evs2 s1 s2,
      evs = evs1 ++ ev :: evs2 ->
      main_run W ip_list file_map move_mode evs1 s0 = Some s1 ->
      main_step W ip_list file_map move_mode ev s1 = Some s2 ->
      match ev with
      | EnterRound | RoundOver => dispatched s2 = dispatched s1
      | FutureDone n e fuel io =>
          forall remaining_ip futures ip,
            at_phase s1 = InRound remaining_ip futures ->
            futures !! n = Some ip ->
            ((exists t, process_single_ip (with_env W e) fuel ip file_map move_mode []
                        = Returns true t) ->
             success_ip s2 = {[ip]} ∪ success_ip s1 /\
             dispatched s2
             = dispatched s1
               ++ told (config W) "ip_success" ("IP " +:+ ip +:+ " Completed")) /\
            ((forall t, process_single_ip (with_env W e) fuel ip file_map move_mode []
                        <> Returns true t) ->
             success_ip s2 = success_ip s1 /\ dispatched s2 = dispatched s1)
      | Epilogue =>
          (forall h, h ∈ ip_list -> h ∈ success_ip s1) /\
          dispatched s2
          = dispatched s1
            ++ (if (size (success_ip s1) =? length ip_list)%nat
                then told (config W) "complete"
                       ("Deploy Complete - " +:+ pretty (size (success_ip s1)) +:+ "/"
                        +:+ pretty (length ip_list) +:+ " IP")
                else [])
      end) /\
  (forall evs1 evs2,
      evs = evs1 ++ evs2 ->
      exists s1 more,
        main_run W ip_list file_map move_mode evs1 s0 = Some s1 /\
        dispatched s = dispatched s1 ++ more) /\
  (forall d, d ∈ dispatched s -> event d = ["complete"] ->
      at_phase s = Finished /\
      (forall h, h ∈ ip_list -> h ∈ success_ip s) /\
      size (success_ip s) = length ip_list).
Proof.
  intros Hstart Hrun.
  destruct (main_start_at_loop_head _ _ _ _ _ _ Hstart) as (Hph0 & Hs0 & Hd0).
  assert (Forall (masked (config W)) (dispatched s)) as Hmasked.
  { eapply (main_run_invariant W ip_list file_map move_mode
              (fun s => Forall (masked (config W)) (dispatched s))); [|exact Hrun|].
    + intros ev a b Ht Ha. destruct Ht; cbn [dispatched set_phase]; try exact Ha.
      * apply Forall_app. split; [exact Ha|]. unfold notify_ip_success.
        destruct (notification_on (config W)) eqn:Hon; [|constructor].
        destruct (listed (config W) "ip_success") eqn:Hl; [|constructor].
        apply send_notification_masked; [set_solver|done..].
      * apply Forall_app. split; [exact Ha|]. unfold notify_complete.
        destruct (notification_on (config W)) eqn:Hon; [|constructor].
        destruct (listed (config W) "complete") eqn:Hl; [|constructor].
        destruct (_ =? _)%nat; [|constructor].
        apply send_notification_masked; [set_solver|done..].
    + rewrite Hd0. unfold notify_start.
      destruct (notification_on (config W)) eqn:Hon; [|constructor].
      destruct (listed (config W) "start") eqn:Hl; [|constructor].
      apply send_notification_masked; [set_solver|done..]. }
  split; [exact Hmasked|]. split; [|split; [|split; [|split]]].
  - intros Hl d Hin Hev.
    destruct (proj1 (Forall_forall _ _) Hmasked d Hin) as (tag & Htag & _ & _ & Hlisted & _).
    rewrite Hev in Htag. injection Htag as <-. rewrite Hl in Hlisted. discriminate.
  - rewrite Hd0. apply notify_start_told.
  - intros evs1 ev evs2 s1 s2 -> Hrun1 Hstep.
    destruct ev as [|n e fuel io| |].
    + apply main_step_transition in Hstep. by inversion Hstep.
    + intros remaining_ip futures ip Hph Hn.
      destruct (main_step_future _ _ _ _ _ _ _ _ _ _ _ _ _ Hstep Hph Hn)
        as (_ & Hyes & Hno).
      split; [|exact Hno]. intros Ht. rewrite <- notify_ip_success_told. by apply Hyes.
    + apply main_step_transition in Hstep. by inversion Hstep.
    + pose proof (main_step_transition _ _ _ _ _ _ _ Hstep) as Ht.
      inversion Ht as [ | | | | |a Hph]; subst. cbn [dispatched]. split.
      * intros h Hh.
        rewrite (main_after_the_loop _ _ _ _ _ _ _ _ _ Hstart Hrun1 (or_introl Hph)).
        by apply elem_of_list_to_set.
      * by rewrite notify_complete_told.
  - intros evs1 evs2 ->. rewrite main_run_app in Hrun.
    destruct (main_run W ip_list file_map move_mode evs1 s0) as [s1|]; [|discriminate].
    destruct (main_run_dispatched_grows _ _ _ _ _ _ _ Hrun) as (more & Hmore).
    by exists s1, more.
  - intros d Hin Hev.
    assert (at_phase s0 <> Finished) as Hnf by (rewrite Hph0; discriminate).
    assert (Forall (fun d => ~ tells_complete d) (dispatched s0)) as Hearly0.
    { rewrite Hd0. apply notify_start_not_complete. }
    destruct (finished_or_not (at_phase s)) as [Hfin|Hnot].
    + destruct (main_run_finished _ _ _ _ _ _ _ Hrun Hnf Hfin)
        as (evs' & s1 & -> & Hrun1 & Hph1 & Hs & Hd).
      assert (Forall (fun d => ~ tells_complete d) (dispatched s1)) as Hearly.
      { eapply main_run_tells_no_end_early; [exact Hrun1|by split|].
        rewrite Hph1. discriminate. }
      split; [exact Hfin|]. split.
      * intros h Hh.
        rewrite (main_after_the_loop _ _ _ _ _ _ _ _ _ Hstart Hrun (or_intror Hfin)).
        by apply elem_of_list_to_set.
      * rewrite Hd in Hin. apply elem_of_app in Hin as [Hin|Hin].
        { exfalso. by apply (proj1 (Forall_forall _ _) Hearly d Hin). }
        rewrite Hs. unfold notify_complete in Hin.
        destruct (notification_on (config W)); [|by apply elem_of_nil in Hin].
        destruct (listed (config W) "complete"); [|by apply elem_of_nil in Hin].
        cbn [andb] in Hin.
        destruct (Nat.eqb_spec (size (success_ip s1)) (length ip_list)) as [Heq|_];
          [exact Heq|by apply elem_of_nil in Hin].
    + exfalso.
      assert (Forall (fun d => ~ tells_complete d) (dispatched s)) as Hearly.
      { eapply main_run_tells_no_end_early; [exact Hrun|by split|exact Hnot]. }
      by apply (proj1 (Forall_forall _ _) Hearly d Hin).
Qed.

Lemma notifications_are_masked_witness :
  exists s0 s,
    main_start Sample.world_start_and_complete ["10.0.0.7"] [("svc", "/tmp/")] false None
    = Some s0 /\
    main_run Sample.world_start_and_complete ["10.0.0.7"] [("svc", "/tmp/")] false
      [EnterRound; FutureDone 0 Sample.calm 1 IoFine; RoundOver; EnterRound; Epilogue] s0
    = Some s /\
    Forall (masked Sample.cfg_start_and_complete) (dispatched s) /\
    (forall d, d ∈ dispatched s -> event d <> ["ip_success"]).
Proof.
  eexists _, _. split; [reflexivity|].
  match goal with
  | |- ?run = Some ?s /\ _ =>
      let r := eval vm_compute in run in
      match r with
      | Some ?v => unify s v
      end
  end.
  split; [vm_compute; reflexivity|].
  destruct (notifications_are_masked Sample.world_start_and_complete
              ["10.0.0.7"] [("svc", "/tmp/")] false false None
              [EnterRound; FutureDone 0 Sample.calm 1 IoFine; RoundOver; EnterRound; Epilogue]
              _ _ eq_refl ltac:(vm_compute; reflexivity))
    as (Hmasked & Hnone & _).
  split; [exact Hmasked|]. apply Hnone. reflexivity.
Defined.

(** C5 as stated does not hold: with mail and notifications enabled and
    [ip_success] left out of [notify_on], a host succeeds and nothing is
    dispatched for it; the run tells its start and its end only. *)
Lemma ip_success_not_listed_not_dispatched :
  email_on Sample.cfg_start_and_complete = true /\
  notification_on Sample.cfg_start_and_complete = true /\
  exists s0 s,
    main_start Sample.world_start_and_complete ["10.0.0.7"] [("svc", "/tmp/")] false None
    = Some s0 /\
    main_run Sample.world_start_and_complete ["10.0.0.7"] [("svc", "/tmp/")] false
      [EnterRound; FutureDone 0 Sample.calm 1 IoFine; RoundOver; EnterRound; Epilogue] s0
    = Some s /\
    "10.0.0.7" ∈ success_ip s /\
    List.map event (dispatched s) = [["start"]; ["complete"]].
Proof.
  split; [reflexivity|]. split; [reflexivity|].
  eexists _, _. split; [reflexivity|].
  match goal with
  | |- ?run = Some ?s /\ _ =>
      let r := eval vm_compute in run in
      match r with
      | Some ?v => unify s v
      end
  end.
  split; [vm_compute; reflexivity|]. split.
  - apply (bool_decide_unpack _). vm_compute. exact I.
  - vm_compute. reflexivity.
Qed.

(** ** The host list and the ledger *)

Lemma stripped_lines_host_line text h : h ∈ stripped_lines text -> host_line h.
Proof.
  unfold stripped_lines. rewrite list_elem_of_In, filter_In, in_map_iff.
  intros [(x & <- & Hx) Ht]. apply list_elem_of_In in Hx.
  split; [apply strip_idempotent|]. split; [by apply truthy_true|]. split.
  - apply strip_keeps_absent. eapply split_pieces; [exact Hx|by left].
  - apply strip_keeps_absent. eapply split_pieces; [exact Hx|right].
    apply universal_newlines_no_CR.
Qed.

Lemma read_ip_list_host_lines text : Forall host_line (read_ip_list text).
Proof.
  apply Forall_forall. intros h Hh. unfold read_ip_list in Hh.
  apply list_elem_of_In, filter_In in Hh as [Hh _].
  by eapply stripped_lines_host_line, list_elem_of_In.
Qed.

Lemma ledger_text_no_CR hosts :
  Forall host_line hosts -> has_char "013" (ledger_text hosts) = false.
Proof.
  induction 1 as [|h hosts (_ & _ & _ & Hcr) _ IH]; [reflexivity|].
  cbn [ledger_text fold_right]. fold (ledger_text hosts).
  rewrite !has_char_append, Hcr, IH. reflexivity.
Qed.

Lemma ledger_text_snoc hosts h :
  ledger_text (hosts ++ [h]) = ledger_text hosts +:+ h +:+ LF.
Proof.
  induction hosts as [|x hosts IH]; [reflexivity|].
  cbn [app ledger_text fold_right]. fold (ledger_text (hosts ++ [h])).
  fold (ledger_text hosts). rewrite IH, !append_assoc. reflexivity.
Qed.

(** Reading back a ledger written host by host gives the hosts. *)
Lemma stripped_lines_ledger_text hosts :
  Forall host_line hosts -> stripped_lines (ledger_text hosts) = hosts.
Proof.
  intros F. unfold stripped_lines.
  rewrite universal_newlines_id by (by apply ledger_text_no_CR).
  induction F as [|h hosts (Hs & Hne & Hlf & _) _ IH]; [reflexivity|].
  cbn [ledger_text fold_right]. fold (ledger_text hosts).
  change (LF +:+ ledger_text hosts) with (String "010" (ledger_text hosts)).
  rewrite (split_first_line "010" h _ Hlf). cbn [List.map List.filter].
  rewrite Hs. rewrite (proj2 (truthy_true h) Hne). by rewrite IH.
Qed.

Lemma record_complete_ip_ledger hosts file ip :
  NoDup hosts -> Forall host_line hosts -> host_line ip ->
  (file = None /\ hosts = [] \/ file = Some (ledger_text hosts)) ->
  exists hosts',
    NoDup hosts' /\ Forall host_line hosts' /\
    (forall h, h ∈ hosts' <-> h = ip \/ h ∈ hosts) /\
    record_complete_ip IoFine ip file = Some (ledger_text hosts').
Proof.
  intros Hnd Hf Hip [[-> ->] | ->].
  - exists [ip]. split; [apply NoDup_singleton|]. split; [by constructor|].
    split.
    { intros h. rewrite list_elem_of_singleton. split; [by left|].
      intros [->|Hh]; [reflexivity|by apply elem_of_nil in Hh]. }
    cbn [record_complete_ip ledger_text fold_right]. reflexivity.
  - cbn [record_complete_ip]. rewrite (stripped_lines_ledger_text hosts Hf).
    destruct (decide (ip ∈ hosts)) as [Hin|Hnot].
    + rewrite bool_decide_eq_false_2 by (by intros Hn).
      exists hosts. split; [exact Hnd|]. split; [exact Hf|]. split; [|reflexivity].
      intros h. split; [by right|]. by intros [->|Hh].
    + rewrite bool_decide_eq_true_2 by exact Hnot.
      exists (hosts ++ [ip]). split.
      { apply NoDup_app. split; [exact Hnd|]. split; [|apply NoDup_singleton].
        intros x Hx ->%list_elem_of_singleton. by apply Hnot. }
      split; [apply Forall_app; split; [exact Hf|by constructor]|].
      split; [|by rewrite ledger_text_snoc].
      intros h. rewrite elem_of_app, list_elem_of_singleton. tauto.
Qed.

Lemma transition_ledger_invariant W ip_list file_map move_mode ev a b :
  Forall host_line ip_list ->
  ledger_fine ev ->
  transition W ip_list file_map move_mode ev a b ->
  run_invariant W ip_list file_map move_mode a ->
  ledger_invariant a -> ledger_invariant b.
Proof.
  intros Hhosts Hfine Ht [_ Hround] Hinv.
  destruct Ht as [s rem Hph Hlt -> Hne|s Hph Hor|s rem futs n e fuel io ip t Hph Hn Hrun
                 |s rem futs n e fuel io ip Hph Hn Hrun|s rem Hph|s Hph];
    try exact Hinv.
  cbn [ledger_fine] in Hfine. subst io.
  destruct Hinv as (hosts & Hnd & Hf & Hmem & Hfile).
  assert (host_line ip) as Hip.
  { destruct (Hround rem futs Hph) as (Hfut & Hrem & _).
    eapply (proj1 (Forall_forall _ _) Hhosts), Hrem, Hfut.
    by eapply list_elem_of_lookup_2. }
  destruct (record_complete_ip_ledger hosts (complete_txt s) ip Hnd Hf Hip Hfile)
    as (hosts' & Hnd' & Hf' & Hmem' & Hrec).
  exists hosts'. split; [exact Hnd'|]. split; [exact Hf'|].
  cbn [success_ip complete_txt]. split; [|by right].
  intros h. rewrite Hmem', Hmem, elem_of_union, elem_of_singleton. tauto.
Qed.

Lemma main_run_ledger_invariant W ip_list file_map move_mode evs a b :
  Forall host_line ip_list ->
  Forall ledger_fine evs ->
  main_run W ip_list file_map move_mode evs a = Some b ->
  run_invariant W ip_list file_map move_mode a ->
  ledger_invariant a -> ledger_invariant b.
Proof.
  intros Hhosts Hfine. revert a.
  induction Hfine as [|ev evs Hev _ IH]; intros a H Hrun Hinv.
  - by injection H as <-.
  - cbn [main_run] in H.
    destruct (main_step W ip_list file_map move_mode ev a) as [a1|] eqn:E;
      [|discriminate].
    apply main_step_transition in E. apply (IH a1 H).
    + by eapply transition_run_invariant.
    + by eapply transition_ledger_invariant.
Qed.



Example read_ip_list_sample : read_ip_list Sample.ip_txt = ["10.0.0.7"; "fde0::1"].
Proof. reflexivity. Qed.


(** Outside the proviso on the file system: when an append meets an
    [OSError] the host is in the success set and not in the file. *)
Example ledger_misses_host_when_append_fails :
  exists s0 s,
    main_start (Sample.world false false Sample.calm) (read_ip_list Sample.ip_txt)
      Sample.manifest false None = Some s0 /\
    main_run (Sample.world false false Sample.calm) (read_ip_list Sample.ip_txt)
      Sample.manifest true Sample.disk_full s0 = Some s /\
    "10.0.0.7" ∈ success_ip s /\
    complete_txt s = Some ("fde0::1" +:+ LF).
Proof.
  eexists _, _. split; [reflexivity|].
  match goal with
  | |- ?run = Some ?s /\ _ =>
      let r := eval vm_compute in run in
      match r with
      | Some ?v => unify s v
      end
  end.
  split; [vm_compute; reflexivity|]. split.
  - apply (bool_decide_unpack _). vm_compute. exact I.
  - vm_compute. reflexivity.
Qed.

(** * Further properties *)

(** ** Dictionaries *)

Lemma dict_get_set_eq {V} k (v : V) d : Dict.get k (Dict.set k v d) = Some v.
Proof.
  induction d as [|[k' v'] d IH]; cbn [Dict.set Dict.get].
  - by rewrite String.eqb_refl.
  - destruct (String.eqb_spec k k') as [->|Hne]; cbn [Dict.get].
    + by rewrite String.eqb_refl.
    + destruct (String.eqb_spec k k'); [done|exact IH].
Qed.

Lemma dict_get_set_ne {V} k k0 (v : V) d :
  k0 <> k -> Dict.get k0 (Dict.set k v d) = Dict.get k0 d.
Proof.
  intros Hne. induction d as [|[k' v'] d IH]; cbn [Dict.set Dict.get].
  - destruct (String.eqb_spec k0 k); [done|reflexivity].
  - destruct (String.eqb_spec k k') as [->|Hne']; cbn [Dict.get].
    + destruct (String.eqb_spec k0 k'); [done|reflexivity].
    + destruct (String.eqb_spec k0 k'); [reflexivity|exact IH].
Qed.

Lemma dict_keys_set_in {V} k (v : V) d :
  k ∈ Dict.keys d -> Dict.keys (Dict.set k v d) = Dict.keys d.
Proof.
  unfold Dict.keys. induction d as [|[k' v'] d IH]; cbn [Dict.set List.map fst].
  - intros H. by apply elem_of_nil in H.
  - intros H. destruct (String.eqb_spec k k') as [->|Hne]; [reflexivity|].
    cbn [List.map fst]. f_equal. apply IH.
    apply elem_of_cons in H as [H|H]; [done|exact H].
Qed.

Lemma dict_keys_set_notin {V} k (v : V) d :
  k ∉ Dict.keys d -> Dict.set k v d = d ++ [(k, v)].
Proof.
  unfold Dict.keys. induction d as [|[k' v'] d IH]; cbn [Dict.set List.map fst];
    [reflexivity|].
  intros H. destruct (String.eqb_spec k k') as [->|Hne].
  - exfalso. apply H. by left.
  - cbn [app]. f_equal. apply IH. intros Hin. apply H. by right.
Qed.

Lemma dict_keys_set {V} k (v : V) d :
  Dict.keys (Dict.set k v d) = Dict.keys d \/
  ((k ∉ Dict.keys d) /\ Dict.keys (Dict.set k v d) = Dict.keys d ++ [k]).
Proof.
  destruct (decide (k ∈ Dict.keys d)) as [Hin|Hnot].
  - left. by apply dict_keys_set_in.
  - right. split; [exact Hnot|]. rewrite dict_keys_set_notin by exact Hnot.
    unfold Dict.keys. by rewrite map_app.
Qed.

Lemma dict_set_NoDup {V} k (v : V) d :
  NoDup (Dict.keys d) -> NoDup (Dict.keys (Dict.set k v d)).
Proof.
  intros Hnd. destruct (dict_keys_set k v d) as [->|[Hnot ->]]; [exact Hnd|].
  apply NoDup_app. split; [exact Hnd|]. split; [|apply NoDup_singleton].
  intros x Hx ->%list_elem_of_singleton. by apply Hnot.
Qed.

Lemma dict_set_values {V} (P : string * V -> Prop) k v d :
  P (k, v) -> Forall P d -> Forall P (Dict.set k v d).
Proof.
  intros Hv. induction 1 as [|[k' v'] d Hx Hd IH]; cbn [Dict.set].
  - by constructor.
  - destruct (String.eqb k k'); constructor; assumption.
Qed.

(** ** The manifest *)

Lemma read_file_lines_snoc lines line d :
  read_file_lines (lines ++ [line]) d =
  if PyStr.startswith line "#" then read_file_lines lines d
  else Dict.set (read_file_entry line).1 (read_file_entry line).2 (read_file_lines lines d).
Proof. unfold read_file_lines. rewrite fold_left_app. reflexivity. Qed.

Lemma read_file_lines_invariant (P : list (string * string) -> Prop) lines d :
  P d ->
  (forall line acc, P acc ->
     P (Dict.set (read_file_entry line).1 (read_file_entry line).2 acc)) ->
  P (read_file_lines lines d).
Proof.
  intros Hd Hstep. revert d Hd. unfold read_file_lines.
  induction lines as [|line lines IH]; intros d Hd; cbn [fold_left]; [exact Hd|].
  apply IH. destruct (PyStr.startswith line "#"); [exact Hd|by apply Hstep].
Qed.

(** The directory of an entry is empty or ends with a slash. *)
Lemma read_file_entry_path line :
  (read_file_entry line).2 = "" \/ PyStr.endswith (read_file_entry line).2 "/" = true.
Proof.
  unfold read_file_entry. cbn [fst snd].
  set (path := (if PyStr.contains "=" line
                then (PyStr.strip (split_once "=" line).1, PyStr.strip (split_once "=" line).2)
                else (line, "/usr/local/bin/")).2).
  destruct (PyStr.truthy path) eqn:Et; cbn [andb].
  - right. destruct (PyStr.endswith path "/") eqn:Ee; cbn [negb]; [exact Ee|].
    apply endswith_append.
  - left. by apply truthy_false.
Qed.

Lemma make_remote_file_path_of_directory remote_path filename :
  remote_path = "" \/ PyStr.endswith remote_path "/" = true ->
  (remote_path = ""
   /\ make_remote_file_path remote_path filename = "/" +:+ filename +:+ ".BMT") \/
  (PyStr.endswith remote_path "/" = true
   /\ make_remote_file_path remote_path filename = remote_path +:+ filename +:+ ".BMT").
Proof.
  intros [->|He]; [left|right]; (split; [done|]); unfold make_remote_file_path.
  - reflexivity.
  - by rewrite He.
Qed.

(** X1.  In the manifest [read_file] builds, no file name comes twice and
    every remote directory is empty or ends with a slash, so the remote path
    of an entry is the directory, the file name and [.BMT] put side by side
    (with a leading slash when the directory is empty): [read_file] has seen
    to the separator and [make_remote_file_path] adds none. *)
Theorem read_file_entries_join_cleanly (text : string) :
  NoDup (Dict.keys (read_file text)) /\
  Forall (fun entry =>
            (entry.2 = ""
             /\ make_remote_file_path entry.2 entry.1 = "/" +:+ entry.1 +:+ ".BMT") \/
            (PyStr.endswith entry.2 "/" = true
             /\ make_remote_file_path entry.2 entry.1 = entry.2 +:+ entry.1 +:+ ".BMT"))
         (read_file text).
Proof.
  unfold read_file. split.
  - apply read_file_lines_invariant; [constructor|].
    intros line acc. apply dict_set_NoDup.
  - apply read_file_lines_invariant; [constructor|].
    intros line acc. apply dict_set_values. cbn [fst snd].
    apply make_remote_file_path_of_directory, read_file_entry_path.
Qed.

(** X2.  A line of [file.txt] that is not a comment decides the directory
    of its file name whatever the lines above it said, leaves every other
    file name as it was, and, when the file name was already listed, leaves
    the order of the manifest as it was. *)
Theorem read_file_later_line_wins (lines : list string) (line : string)
    (d : list (string * string)) :
  PyStr.startswith line "#" = false ->
  let before := read_file_lines lines d in
  let after := read_file_lines (lines ++ [line]) d in
  let entry := read_file_entry line in
  Dict.get entry.1 after = Some entry.2 /\
  (forall k, k <> entry.1 -> Dict.get k after = Dict.get k before) /\
  (entry.1 ∈ Dict.keys before -> Dict.keys after = Dict.keys before) /\
  (entry.1 ∉ Dict.keys before -> after = before ++ [entry]).
Proof.
  intros Hc before after entry. subst after. rewrite read_file_lines_snoc, Hc.
  fold before. fold entry. repeat apply conj.
  - apply dict_get_set_eq.
  - intros k Hk. by apply dict_get_set_ne.
  - apply dict_keys_set_in.
  - intros Hnot. rewrite dict_keys_set_notin by exact Hnot. by destruct entry.
Qed.

Lemma read_file_later_line_wins_witness :
  Dict.get "svc"
    (read_file_lines (["svc"; "agent=/opt/agent"] ++ ["svc = /srv"]) []) = Some "/srv/".
Proof.
  apply (read_file_later_line_wins ["svc"; "agent=/opt/agent"] "svc = /srv" []).
  reflexivity.
Defined.

Example read_file_sample :
  read_file ("# files" +:+ LF +:+ "svc" +:+ LF +:+ " agent = /opt/agent " +:+ CR +:+ LF
             +:+ "svc=/srv/x=y" +:+ LF +:+ "bare=" +:+ LF)
  = [("svc", "/srv/x=y/"); ("agent", "/opt/agent/"); ("bare", "")].
Proof. reflexivity. Qed.

(** ** The deployment plan and the rename *)

Lemma contains_cons sub c s :
  PyStr.contains sub (String c s) = false ->
  String.prefix sub (String c s) = false /\ PyStr.contains sub s = false.
Proof.
  cbn [PyStr.contains]. destruct (String.prefix sub (String c s)); [discriminate|].
  by split.
Qed.

(** Appending the suffix to a text that does not begin with it does not
    make it begin with it. *)
Lemma prefix_BMT_before_suffix c base :
  String.prefix ".BMT" (String c base) = false ->
  String.prefix ".BMT" (String c base +:+ ".BMT") = false.
Proof.
  rewrite append_cons. cbn [String.prefix].
  destruct (ascii_dec "." c); [|done].
  destruct base as [|c2 base]; [done|]. rewrite append_cons. cbn [String.prefix].
  destruct (ascii_dec "B" c2); [|done].
  destruct base as [|c3 base]; [done|]. rewrite append_cons. cbn [String.prefix].
  destruct (ascii_dec "M" c3); [|done].
  destruct base as [|c4 base]; [done|]. rewrite append_cons. cbn [String.prefix].
  destruct (ascii_dec "T" c4); [|done].
  destruct base; done.
Qed.

(** On an uploaded path that holds [.BMT] nowhere but at its end, the
    rename target is the path without the suffix. *)
Lemma replace_drops_BMT_suffix base :
  PyStr.contains ".BMT" base = false -> PyStr.replace (base +:+ ".BMT") ".BMT" "" = base.
Proof.
  induction base as [|c base IH]; [reflexivity|].
  intros [Hp Hc]%contains_cons.
  rewrite append_cons, replace_step; [by rewrite IH|done|].
  rewrite <- append_cons. by apply prefix_BMT_before_suffix.
Qed.

(** X3.  For a remote directory that ends with a slash, as [read_file]
    leaves it, and a file name that does not begin with one, with [.BMT]
    occurring in neither: the path the deployment plan announces in move mode
    is the very path the [mv] of [execute_remote_commands] renames the upload
    to. *)
Theorem plan_announces_the_rename_target (remote_path filename : string) :
  PyStr.endswith remote_path "/" = true ->
  PyStr.startswith filename "/" = false ->
  PyStr.contains ".BMT" (remote_path +:+ filename) = false ->
  mv_command (make_remote_file_path remote_path filename)
  = "mv " +:+ make_remote_file_path remote_path filename
    +:+ " " +:+ plan_path (Some true) remote_path filename.
Proof.
  intros He Hs Hc. unfold mv_command, plan_path, PosixPath.join, make_remote_file_path.
  rewrite Hs, He, orb_true_r. do 2 f_equal.
  rewrite <- append_assoc. f_equal. by apply replace_drops_BMT_suffix.
Qed.

Lemma plan_announces_the_rename_target_witness :
  mv_command (make_remote_file_path "/usr/local/bin/" "svc.sh")
  = "mv /usr/local/bin/svc.sh.BMT /usr/local/bin/svc.sh"
  /\ plan_path (Some true) "/usr/local/bin/" "svc.sh" = "/usr/local/bin/svc.sh".
Proof.
  split; [|reflexivity].
  rewrite (plan_announces_the_rename_target "/usr/local/bin/" "svc.sh");
    reflexivity.
Defined.

(** Outside that proviso the plan and the rename part ways: with [.BMT]
    inside the file name the plan shows the name as listed and the [mv]
    writes another. *)
Example plan_misses_the_rename_target :
  plan_path (Some true) "/opt/" "fw.BMT.bin" = "/opt/fw.BMT.bin" /\
  mv_command (make_remote_file_path "/opt/" "fw.BMT.bin")
  = "mv /opt/fw.BMT.bin.BMT /opt/fw.bin".
Proof. split; reflexivity. Qed.

(** ** The configuration file *)

Lemma dict_set_same {V} k (v : V) d : Dict.get k d = Some v -> Dict.set k v d = d.
Proof.
  induction d as [|[k' v'] d IH]; cbn [Dict.get Dict.set]; [discriminate|].
  destruct (String.eqb_spec k k') as [->|Hne].
  - by intros [= ->].
  - intros H. by rewrite IH.
Qed.

Lemma dict_get_notin {V} k (d : list (string * V)) :
  k ∉ Dict.keys d -> Dict.get k d = None.
Proof.
  unfold Dict.keys. induction d as [|[k' v'] d IH]; cbn [Dict.get List.map fst];
    [reflexivity|].
  intros H. destruct (String.eqb_spec k k') as [->|Hne].
  - exfalso. apply H. by left.
  - apply IH. intros Hin. apply H. by right.
Qed.

Lemma dict_update_cons {V} (d : list (string * V)) k v other :
  Dict.update d ((k, v) :: other) = Dict.update (Dict.set k v d) other.
Proof. reflexivity. Qed.

(** [d.update(other)]: a key of [other] takes its value, any other key
    keeps the one it had. *)
Lemma dict_get_update {V} j (d other : list (string * V)) :
  NoDup (Dict.keys other) ->
  Dict.get j (Dict.update d other)
  = match Dict.get j other with
    | Some v => Some v
    | None => Dict.get j d
    end.
Proof.
  revert d. induction other as [|[k v] other IH]; intros d Hnd; [reflexivity|].
  rewrite dict_update_cons. cbn [Dict.keys List.map fst] in Hnd.
  apply NoDup_cons in Hnd as [Hk Hnd]. rewrite (IH _ Hnd). cbn [Dict.get].
  destruct (String.eqb_spec j k) as [->|Hne].
  - rewrite (dict_get_notin k other Hk). apply dict_get_set_eq.
  - destruct (Dict.get j other); [reflexivity|]. by apply dict_get_set_ne.
Qed.

Lemma dict_update_keys {V} (d other : list (string * V)) :
  NoDup (Dict.keys d) ->
  NoDup (Dict.keys (Dict.update d other)) /\
  exists extra, Dict.keys (Dict.update d other) = Dict.keys d ++ extra.
Proof.
  revert d. induction other as [|[k v] other IH]; intros d Hnd.
  - split; [exact Hnd|]. exists []. by rewrite app_nil_r.
  - rewrite dict_update_cons.
    destruct (IH (Dict.set k v d) (dict_set_NoDup k v d Hnd)) as (Hnd' & extra & E).
    split; [exact Hnd'|]. rewrite E.
    destruct (dict_keys_set k v d) as [->|[_ ->]]; [by exists extra|].
    exists (k :: extra). by rewrite <- app_assoc.
Qed.

Lemma dict_update_past_head {V} k (v : V) d other :
  k ∉ Dict.keys other ->
  Dict.update ((k, v) :: d) other = (k, v) :: Dict.update d other.
Proof.
  revert d. induction other as [|[k2 v2] other IH]; intros d Hk; [reflexivity|].
  rewrite !dict_update_cons. cbn [Dict.set].
  destruct (String.eqb_spec k2 k) as [->|Hne].
  - exfalso. apply Hk. by left.
  - apply IH. intros Hin. apply Hk. by right.
Qed.

Lemma dict_update_fresh {V} (d other : list (string * V)) :
  NoDup (Dict.keys d ++ Dict.keys other) -> Dict.update d other = d ++ other.
Proof.
  revert d. induction other as [|[k v] other IH]; intros d Hnd.
  - by rewrite app_nil_r.
  - rewrite dict_update_cons.
    assert (k ∉ Dict.keys d) as Hk.
    { apply NoDup_app in Hnd as (_ & Hd & _). intros Hin. apply (Hd k Hin). by left. }
    rewrite (dict_keys_set_notin k v d Hk), IH; [by rewrite <- app_assoc|].
    unfold Dict.keys in *. rewrite map_app, <- app_assoc. exact Hnd.
Qed.

(** Updating a dictionary with one that begins with its keys gives the
    latter. *)
Lemma dict_update_absorbs {V} (d m : list (string * V)) extra :
  NoDup (Dict.keys m) -> Dict.keys m = Dict.keys d ++ extra -> Dict.update d m = m.
Proof.
  revert m. induction d as [|[k v] d IH]; intros m Hnd E.
  - apply (dict_update_fresh [] m). exact Hnd.
  - destruct m as [|[k1 v1] m]; [discriminate|].
    cbn [Dict.keys List.map fst app] in E, Hnd. injection E as -> E.
    apply NoDup_cons in Hnd as [Hk Hnd].
    rewrite dict_update_cons. cbn [Dict.set]. rewrite String.eqb_refl.
    rewrite (dict_update_past_head k v1 d m Hk). f_equal. by apply IH.
Qed.

Lemma dict_update_twice {V} (d other : list (string * V)) :
  NoDup (Dict.keys d) -> Dict.update d (Dict.update d other) = Dict.update d other.
Proof.
  intros Hnd. destruct (dict_update_keys d other Hnd) as (Hnd' & extra & E).
  by eapply dict_update_absorbs.
Qed.

Lemma default_section_NoDup key : NoDup (Dict.keys (default_section key)).
Proof.
  unfold default_section. cbn [Dict.get default_config].
  repeat (destruct (String.eqb key _);
          [apply (bool_decide_unpack _); vm_compute; exact I|]).
  constructor.
Qed.

(** One pass of the loop, on a key whose section is still the default. *)
Lemma merge_key_of_object items merged_config key :
  Dict.get key merged_config = Some (JDict (default_section key)) ->
  merge_key (JDict items) merged_config key
  = inr (Dict.set key (merged_section items key) merged_config).
Proof.
  intros Hmine. unfold merge_key, merged_section. rewrite Hmine.
  destruct (Dict.get key items) as [theirs|].
  - by destruct theirs.
  - by rewrite dict_set_same.
Qed.

Lemma merge_config_of_object items :
  merge_config (JDict items)
  = inr (List.map (fun key => (key, merged_section items key)) (Dict.keys default_config)).
Proof.
  unfold merge_config. cbn [Dict.keys default_config List.map fst merge_keys].
  rewrite merge_key_of_object by reflexivity. cbn [Dict.set default_config String.eqb Ascii.eqb Bool.eqb].
  rewrite merge_key_of_object by reflexivity. cbn [Dict.set String.eqb Ascii.eqb Bool.eqb].
  rewrite merge_key_of_object by reflexivity. cbn [Dict.set String.eqb Ascii.eqb Bool.eqb].
  rewrite merge_key_of_object by reflexivity. cbn [Dict.set String.eqb Ascii.eqb Bool.eqb].
  reflexivity.
Qed.

(** X4.  On a [config.json] that holds a JSON object the merge never fails
    and returns the four sections of the default configuration, in their
    order, and nothing else: a top-level key of the file that is not one of
    the four is dropped.  Each section is the default one when the file has
    no such key, the default one updated with the file's when that is an
    object, and the file's value as it stands when it is anything else. *)
Theorem load_config_keeps_the_four_sections (items : list (string * json)) :
  load_config (Parsed (JDict items))
  = inr [("ssh", merged_section items "ssh");
         ("ping", merged_section items "ping");
         ("retry", merged_section items "retry");
         ("notification", merged_section items "notification")].
Proof. cbn [load_config]. apply merge_config_of_object. Qed.

(** X5.  Inside a section that the file gives as an object, a key of the
    file takes the file's value and any other key keeps its default: the
    merge goes one level deep and no deeper, so a value of the file that is
    itself an object (the [email] object of [notification]) replaces the
    default object whole. *)
Theorem load_config_user_key_wins
    (items other : list (string * json)) (key j : string) :
  key ∈ Dict.keys default_config ->
  Dict.get key items = Some (JDict other) ->
  NoDup (Dict.keys other) ->
  exists merged section,
    load_config (Parsed (JDict items)) = inr merged /\
    Dict.get key merged = Some (JDict section) /\
    Dict.get j section
    = match Dict.get j other with
      | Some v => Some v
      | None => Dict.get j (default_section key)
      end.
Proof.
  intros Hkey Hget Hnd. cbn [load_config]. rewrite merge_config_of_object.
  eexists _, (Dict.update (default_section key) other).
  split; [reflexivity|]. split; [|by apply dict_get_update].
  cbn [Dict.keys default_config List.map fst] in *.
  repeat (apply elem_of_cons in Hkey as [->|Hkey];
          [cbn [Dict.get String.eqb Ascii.eqb Bool.eqb]; unfold merged_section;
           by rewrite Hget|]).
  by apply elem_of_nil in Hkey.
Qed.

Lemma load_config_user_key_wins_witness :
  exists merged section,
    load_config
      (Parsed (JDict [("notification",
                       JDict [("email", JDict [("enabled", JBool true)])])]))
    = inr merged /\
    Dict.get "notification" merged = Some (JDict section) /\
    Dict.get "email" section = Some (JDict [("enabled", JBool true)]) /\
    Dict.get "notify_on" section
    = Some (JList [JStr "start"; JStr "ip_success"; JStr "complete"]).
Proof.
  pose proof (load_config_user_key_wins
                [("notification", JDict [("email", JDict [("enabled", JBool true)])])]
                [("email", JDict [("enabled", JBool true)])] "notification") as H.
  destruct (H "email") as (merged & section & E & Hs & Hemail).
  { apply (bool_decide_unpack _). vm_compute. exact I. }
  { reflexivity. }
  { apply (bool_decide_unpack _). vm_compute. exact I. }
  exists merged, section. split; [exact E|]. split; [exact Hs|].
  split; [exact Hemail|].
  destruct (H "notify_on") as (merged' & section' & E' & Hs' & Hon).
  { apply (bool_decide_unpack _). vm_compute. exact I. }
  { reflexivity. }
  { apply (bool_decide_unpack _). vm_compute. exact I. }
  rewrite E in E'. injection E' as <-. rewrite Hs in Hs'. injection Hs' as <-.
  exact Hon.
Defined.

Lemma merged_section_twice items key :
  merged_section
    (List.map (fun key => (key, merged_section items key)) (Dict.keys default_config)) key
  = match Dict.get key default_config with
    | Some _ => merged_section items key
    | None => JDict (default_section key)
    end.
Proof.
  unfold merged_section at 1.
  cbn [Dict.keys default_config List.map fst Dict.get].
  repeat match goal with
         | |- context [String.eqb key ?k] =>
             destruct (String.eqb_spec key k) as [->|_];
               [unfold merged_section; destruct (Dict.get k items) as [[]|];
                rewrite ?dict_update_twice by apply default_section_NoDup;
                reflexivity|]
         end.
  reflexivity.
Qed.

(** X6.  Loading is idempotent: the configuration [load_config] returns for
    a JSON object is, when written out and loaded again, returned as it is. *)
Theorem load_config_is_idempotent (items : list (string * json)) :
  exists merged,
    load_config (Parsed (JDict items)) = inr merged /\
    load_config (Parsed (JDict merged)) = inr merged.
Proof.
  eexists. split; [cbn [load_config]; apply merge_config_of_object|].
  cbn [load_config]. rewrite merge_config_of_object. f_equal.
  apply List.map_ext_in. intros key Hkey. rewrite merged_section_twice.
  cbn [Dict.keys default_config List.map fst In] in Hkey.
  repeat (destruct Hkey as [<-|Hkey]; [reflexivity|]). destruct Hkey.
Qed.

Lemma merge_keys_of_list items keys merged_config :
  merge_keys (JList items) keys merged_config
  = if existsb (fun key => existsb (is_str key) items) keys then inl TypeError
    else inr merged_config.
Proof.
  induction keys as [|key keys IH]; [reflexivity|]. cbn [merge_keys merge_key existsb].
  destruct (existsb (is_str key) items); [reflexivity|exact IH].
Qed.

Lemma merge_keys_of_str s keys merged_config :
  merge_keys (JStr s) keys merged_config
  = if existsb (fun key => PyStr.contains key s) keys then inl TypeError
    else inr merged_config.
Proof.
  induction keys as [|key keys IH]; [reflexivity|]. cbn [merge_keys merge_key existsb].
  destruct (PyStr.contains key s); [reflexivity|exact IH].
Qed.

(** X7.  A [config.json] that is valid JSON but not an object is not
    reported: [null], a boolean or a number ends [load_config] with a
    [TypeError]; so does a list that has one of the four section names among
    its elements, and a string that has one of them as a substring; any
    other list or string is passed over and the defaults are returned.  A
    file that is missing, unreadable or not JSON gives the defaults too. *)
Theorem load_config_of_a_non_object :
  load_config (Parsed JNull) = inl TypeError /\
  (forall b, load_config (Parsed (JBool b)) = inl TypeError) /\
  (forall n, load_config (Parsed (JInt n)) = inl TypeError) /\
  (forall repr, load_config (Parsed (JFloat repr)) = inl TypeError) /\
  (forall items,
      load_config (Parsed (JList items))
      = if existsb (fun key => existsb (is_str key) items) ["ssh"; "ping"; "retry"; "notification"]
        then inl TypeError else inr default_config) /\
  (forall s,
      load_config (Parsed (JStr s))
      = if existsb (fun key => PyStr.contains key s) ["ssh"; "ping"; "retry"; "notification"]
        then inl TypeError else inr default_config) /\
  (forall write_fails, load_config (NoConfigFile write_fails) = inr default_config) /\
  load_config Unreadable = inr default_config /\
  load_config NotJson = inr default_config.
Proof.
  repeat apply conj; try reflexivity.
  - intros items. apply merge_keys_of_list.
  - intros s. apply merge_keys_of_str.
Qed.

Example load_config_of_a_list :
  load_config (Parsed (JList [JStr "ping"; JInt 3])) = inl TypeError /\
  load_config (Parsed (JList [JInt 3])) = inr default_config /\
  load_config (Parsed (JStr "no ssh here")) = inl TypeError.
Proof. repeat split. Qed.

Example load_config_sample :
  load_config
    (Parsed (JDict [("ssh", JDict [("password", JStr "pw"); ("key", JStr "id_rsa")]);
                    ("ping", JInt 3);
                    ("verbose", JBool true)]))
  = inr [("ssh", JDict [("port", JInt 22); ("user", JStr "root");
                        ("password", JStr "pw"); ("key", JStr "id_rsa")]);
         ("ping", JInt 3);
         ("retry", JDict (default_section "retry"));
         ("notification", JDict (default_section "notification"))].
Proof. reflexivity. Qed.

(** ** The operator's answer *)

Lemma isspace_lower_char c : PyStr.isspace (lower_char c) = PyStr.isspace c.
Proof. by destruct c as [[] [] [] [] [] [] [] []]. Qed.

Lemma lower_empty s : String.eqb (lower s) "" = String.eqb s "".
Proof. by destruct s. Qed.

Lemma lower_lstrip s : PyStr.lstrip (lower s) = lower (PyStr.lstrip s).
Proof.
  induction s as [|c s IH]; [reflexivity|]. cbn [lower PyStr.lstrip].
  rewrite isspace_lower_char. by destruct (PyStr.isspace c).
Qed.

Lemma lower_rstrip s : PyStr.rstrip (lower s) = lower (PyStr.rstrip s).
Proof.
  induction s as [|c s IH]; [reflexivity|]. cbn [lower PyStr.rstrip].
  rewrite IH, lower_empty, isspace_lower_char.
  by destruct (String.eqb (PyStr.rstrip s) "" && PyStr.isspace c).
Qed.

Lemma lower_strip s : PyStr.strip (lower s) = lower (PyStr.strip s).
Proof. unfold PyStr.strip. by rewrite lower_lstrip, lower_rstrip. Qed.

Lemma lower_char_idempotent c : lower_char (lower_char c) = lower_char c.
Proof. by destruct c as [[] [] [] [] [] [] [] []]. Qed.

Lemma lower_idempotent s : lower (lower s) = lower s.
Proof.
  induction s as [|c s IH]; [reflexivity|]. cbn [lower].
  by rewrite lower_char_idempotent, IH.
Qed.

(** What decides is the line stripped and in lower case. *)
Lemma mode_input_normal line :
  lower (PyStr.strip (lower (PyStr.strip line))) = lower (PyStr.strip line).
Proof. by rewrite lower_strip, strip_idempotent, lower_idempotent. Qed.

(** X8.  [get_mode_input] goes by the first line that, stripped and put in
    lower case, is [move] or [nomove], and says [True] for the former; every
    line before it was no such line and was asked again; when the input ends
    without one it is [EOFError] that ends the call.  Padding and case do not
    matter: the lines stripped and in lower case get the same answer. *)
Theorem get_mode_input_takes_the_first_answer (inputs : list string) :
  match get_mode_input inputs with
  | inr move =>
      exists asked_again line rest,
        inputs = asked_again ++ line :: rest /\
        Forall no_answer asked_again /\ answers line move
  | inl e => e = EOFError /\ Forall no_answer inputs
  end /\
  get_mode_input (List.map (fun line => lower (PyStr.strip line)) inputs)
  = get_mode_input inputs.
Proof.
  split.
  - induction inputs as [|line inputs IH]; cbn [get_mode_input]; [by split|].
    destruct (String.eqb_spec (lower (PyStr.strip line)) "move") as [Hm|Hm].
    { exists [], line, inputs. split; [reflexivity|]. split; [constructor|exact Hm]. }
    destruct (String.eqb_spec (lower (PyStr.strip line)) "nomove") as [Hn|Hn].
    { exists [], line, inputs. split; [reflexivity|]. split; [constructor|exact Hn]. }
    assert (no_answer line) as Hline by (by split).
    destruct (get_mode_input inputs) as [e|move].
    + destruct IH as [-> F]. split; [reflexivity|by constructor].
    + destruct IH as (asked & l & rest & -> & F & Ha).
      exists (line :: asked), l, rest. split; [reflexivity|]. split; [by constructor|exact Ha].
  - induction inputs as [|line inputs IH]; [reflexivity|].
    cbn [List.map get_mode_input]. by rewrite mode_input_normal, IH.
Qed.

Example get_mode_input_sample :
  get_mode_input ["Move it"; "  NoMove "; "move"] = inr false /\
  get_mode_input ["yes"; ""] = inl EOFError.
Proof. split; reflexivity. Qed.

(** ** The host list, once more *)

Lemma filter_all {A} (f : A -> bool) l :
  Forall (fun x => f x = true) l -> List.filter f l = l.
Proof.
  induction 1 as [|x l Hx _ IH]; [reflexivity|]. cbn [List.filter]. by rewrite Hx, IH.
Qed.

Lemma filter_Forall {A} (f : A -> bool) l : Forall (fun x => f x = true) (List.filter f l).
Proof.
  induction l as [|x l IH]; cbn [List.filter]; [constructor|].
  destruct (f x) eqn:E; [by constructor|exact IH].
Qed.

Lemma read_ip_list_guard text :
  Forall (fun ip => host_key_guard ip = true) (read_ip_list text).
Proof.
  apply Forall_forall. intros ip Hip. unfold host_key_guard.
  pose proof (proj1 (Forall_forall _ _) (read_ip_list_host_lines text) ip Hip)
    as (_ & Hne & _).
  rewrite (proj2 (truthy_true ip) Hne). cbn [andb].
  unfold read_ip_list in Hip. apply list_elem_of_In, filter_In in Hip as [_ Hc].
  exact Hc.
Qed.

(** X9.  What [read_ip_list] returns is in normal form: every host is a
    stripped, non-empty line that does not begin with [#], so the guard
    [ip and not ip.startswith('#')] of the host-key loop of [main] lets every
    host through, and the hosts written out one per line, as
    [record_complete_ip] writes them, are read back as the same list. *)
Theorem read_ip_list_is_a_normal_form (text : string) :
  let ip_list := read_ip_list text in
  Forall (fun ip => PyStr.strip ip = ip /\ ip <> "" /\ PyStr.startswith ip "#" = false)
         ip_list /\
  List.filter host_key_guard ip_list = ip_list /\
  read_ip_list (ledger_text ip_list) = ip_list.
Proof.
  intros ip_list. subst ip_list. repeat apply conj.
  - apply Forall_forall. intros ip Hip.
    pose proof (proj1 (Forall_forall _ _) (read_ip_list_host_lines text) ip Hip)
      as (Hs & Hne & _).
    split; [exact Hs|]. split; [exact Hne|].
    pose proof (proj1 (Forall_forall _ _) (read_ip_list_guard text) ip Hip) as Hg.
    unfold host_key_guard in Hg. apply andb_prop in Hg as [_ Hg].
    by destruct (PyStr.startswith ip "#").
  - apply filter_all, read_ip_list_guard.
  - unfold read_ip_list at 1.
    rewrite (stripped_lines_ledger_text _ (read_ip_list_host_lines text)).
    apply filter_all. unfold read_ip_list. apply filter_Forall.
Qed.

(** ** Host keys *)





(** ** Nomove mode *)

Lemma ssh_probe_harmless W ip : only harmless (ssh_probe W ip).
Proof.
  unfold ssh_probe, ssh_connection. only_walk; try exact I. by left.
Qed.

Lemma wait_for_ssh_ready_harmless W fuel ip : only harmless (wait_for_ssh_ready W fuel ip).
Proof.
  unfold wait_for_ssh_ready. destruct (negb (HAS_PARAMIKO W)).
  - apply only_bind; [by apply wait_for_ping_only|]. intros _. apply only_ret.
  - induction fuel as [|fuel IH]; [apply only_looping|]. cbn [wait_for_ssh_ready_loop].
    apply only_bind; [by apply wait_for_ping_only|]. intros _.
    apply only_bind; [|intros [|]; [apply only_ret|exact IH]].
    generalize (Z.to_nat (ssh_attempts_per_round (config W))) as n.
    induction n as [|n IHn]; cbn [ssh_attempts]; [apply only_ret|].
    apply only_bind; [apply ssh_probe_harmless|]. intros [|]; [apply only_ret|].
    apply only_bind; [by apply only_sleep|]. intros _. exact IHn.
Qed.

Lemma send_file_with_fallback_harmless W ip l r :
  only harmless (send_file_with_fallback W ip l r).
Proof.
  unfold send_file_with_fallback. apply only_bind.
  - destruct (HAS_PEXPECT W); [|apply only_ret].
    unfold send_file_sftp_pexpect. destruct (negb _); [apply only_ret|].
    apply only_try_except; [|intros; apply only_ret].
    apply only_bind; [unfold pexpect_dialogue; only_walk; exact I|].
    intros code. unfold verify_after_pexpect. destruct (code =? 0); [|apply only_ret].
    apply only_bind; [unfold get_file_hash; only_walk; exact I|]. intros lh.
    destruct (opt_truthy lh && HAS_PARAMIKO W); [|apply only_ret].
    apply only_bind; [by apply only_sleep|]. intros _.
    apply only_bind; [|intros; only_walk].
    unfold get_remote_file_hash, ssh_connection. only_walk; try exact I.
    right. by eexists.
  - intros [|]; [apply only_ret|]. apply only_bind.
    + destruct (HAS_PARAMIKO W); [|apply only_ret].
      unfold send_file_sftp_paramiko. apply only_try_except_Exception; [|intros; apply only_ret].
      unfold sftp_connection. destruct (negb _); [apply only_raise|].
      apply only_bind; [by apply only_invoke|]. intros _.
      apply only_finally; [|by apply only_perform].
      apply only_bind; [by apply only_invoke|]. intros _.
      apply only_bind; [by apply only_invoke|]. intros _.
      apply only_finally; [|by apply only_perform].
      unfold paramiko_upload.
      apply only_bind; [by apply check_remote_directory_only|]. intros _.
      only_walk; exact I.
    + intros [|]; [apply only_ret|].
      unfold send_file_sftp_subprocess. only_walk. exact I.
Qed.

Lemma send_single_file_nomove_harmless W fuel ip filename l r :
  only harmless (send_single_file W fuel ip filename l r false).
Proof.
  induction fuel as [|fuel IH]; [apply only_looping|]. cbn [send_single_file andb].
  apply only_bind; [apply send_file_with_fallback_harmless|].
  intros [|]; [apply only_ret|].
  apply only_bind; [by apply only_sleep|]. intros _. exact IH.
Qed.

(** X11.  In nomove mode a worker leaves what runs on the host alone:
    whatever it does over SSH, from the readiness gate to the last file of
    the manifest, is the probe [echo test] or the [sha256sum] of an uploaded
    file.  No [mv], no [ps] and no [kill] is sent. *)
Theorem nomove_mode_sends_no_remote_command
    (W : World) (fuel : nat) (ip : string) (file_map : list (string * string))
    (t : trace) :
  match process_single_ip W fuel ip file_map false t with
  | Returns _ t' | Raised _ t' =>
      exists new,
        t' = t ++ new /\
        Forall (fun ev =>
                  forall cmd timeout,
                    ev.1 = SshExec cmd timeout ->
                    cmd = "echo test" \/ exists path, cmd = "sha256sum " +:+ path) new
  | Looping => True
  end.
Proof.
  assert (only harmless (process_single_ip W fuel ip file_map false)) as H.
  { unfold process_single_ip.
    apply only_try_except_Exception; [|intros; apply only_ret].
    apply only_bind; [apply wait_for_ssh_ready_harmless|]. intros _.
    apply only_bind; [|intros _; apply only_ret].
    induction file_map as [|entry rest IH]; cbn [process_entries]; [apply only_ret|].
    apply only_bind; [|intros _; exact IH].
    unfold process_entry. apply only_bind; [by apply only_os_path_exists|].
    intros found. destruct (negb found); [apply only_ret|].
    apply only_bind; [apply send_single_file_nomove_harmless|]. intros _. apply only_ret. }
  specialize (H t).
  destruct (process_single_ip W fuel ip file_map false t) as [b t'|e t'|]; [| |exact I];
    destruct H as (new & -> & F); exists new; (split; [reflexivity|]);
    (eapply Forall_impl; [exact F|]);
    intros [c r] Hc cmd timeout E; cbn [fst] in E; subst c; exact Hc.
Qed.

(** With paramiko and pexpect both there, a nomove worker on a calm host:
    the only remote commands are the probe and the hash. *)
Example nomove_worker_remote_commands :
  exists t',
    process_single_ip (Sample.world true true Sample.calm) 1
      "10.0.0.7" [("svc", "/usr/local/bin/")] false [] = Returns true t' /\
    omap (fun ev => match ev.1 with SshExec cmd _ => Some cmd | _ => None end) t'
    = ["echo test"; "sha256sum /usr/local/bin/svc.BMT"].
Proof. eexists. split; [vm_compute; reflexivity|vm_compute; reflexivity]. Qed.

(** ** Sessions are closed *)

Section Adds.
Variable R : trace -> Prop.
Hypothesis R_nil : R [].
Hypothesis R_app : forall a b, R a -> R b -> R (a ++ b).

Lemma adds_ret {A} (a : A) : adds R (ret a).
Proof. intros t. exists []. by rewrite app_nil_r. Qed.

Lemma adds_raise {A} e : adds R (@raise A e).
Proof. intros t. exists []. by rewrite app_nil_r. Qed.

Lemma adds_looping {A} : adds R (fun _ => @Looping A).
Proof. intros t. exact I. Qed.

Lemma adds_bind {A B} (m : M A) (k : A -> M B) :
  adds R m -> (forall a, adds R (k a)) -> adds R (bind m k).
Proof.
  intros Hm Hk t. unfold bind. specialize (Hm t).
  destruct (m t) as [a t1|e t1|]; [|exact Hm|exact I].
  destruct Hm as (n1 & -> & F1). specialize (Hk a (t ++ n1)).
  destruct (k a (t ++ n1)) as [b t2|e t2|]; [| |exact I];
    destruct Hk as (n2 & -> & F2); exists (n1 ++ n2);
    (split; [by rewrite app_assoc|by apply R_app]).
Qed.

Lemma adds_try_except {A} (m : M A) classes h :
  adds R m -> (forall e, adds R (h e)) -> adds R (try_except m classes h).
Proof.
  intros Hm Hh t. unfold try_except. specialize (Hm t).
  destruct (m t) as [a t1|e t1|]; [exact Hm| |exact I].
  destruct (caught_by classes e); [|exact Hm].
  destruct Hm as (n1 & -> & F1). specialize (Hh e (t ++ n1)).
  destruct (h e (t ++ n1)) as [b t2|e2 t2|]; [| |exact I];
    destruct Hh as (n2 & -> & F2); exists (n1 ++ n2);
    (split; [by rewrite app_assoc|by apply R_app]).
Qed.

Lemma adds_try_except_Exception {A} (m : M A) h :
  adds R m -> (forall e, adds R (h e)) -> adds R (try_except_Exception m h).
Proof.
  intros Hm Hh t. unfold try_except_Exception. specialize (Hm t).
  destruct (m t) as [a t1|e t1|]; [exact Hm| |exact I].
  destruct Hm as (n1 & -> & F1). specialize (Hh e (t ++ n1)).
  destruct (h e (t ++ n1)) as [b t2|e2 t2|]; [| |exact I];
    destruct Hh as (n2 & -> & F2); exists (n1 ++ n2);
    (split; [by rewrite app_assoc|by apply R_app]).
Qed.

Lemma adds_of_only (P : call * reply -> Prop) {A} (m : M A) :
  (forall ev, P ev -> R [ev]) -> only P m -> adds R m.
Proof.
  intros HP Hm t. specialize (Hm t).
  assert (forall new, Forall P new -> R new) as HF.
  { induction 1 as [|ev new Hev _ IH]; [exact R_nil|].
    change (ev :: new) with ([ev] ++ new). apply R_app; [by apply HP|exact IH]. }
  destruct (m t) as [a t1|e t1|]; [| |exact I];
    destruct Hm as (new & -> & F); exists new; (split; [reflexivity|by apply HF]).
Qed.

End Adds.

Lemma count_app f a b : count f (a ++ b) = (count f a + count f b)%nat.
Proof. unfold count. by rewrite List.filter_app, List.length_app. Qed.

Lemma no_leak_nil : no_leak [].
Proof. by repeat split. Qed.

Lemma no_leak_app a b : no_leak a -> no_leak b -> no_leak (a ++ b).
Proof.
  intros (A1 & A2 & A3) (B1 & B2 & B3). unfold no_leak. rewrite !count_app.
  repeat split; congruence.
Qed.

Lemma no_leak_no_session ev : no_session ev -> no_leak [ev].
Proof.
  intros (H1 & H2 & H3 & H4 & H5 & H6). unfold no_leak, count. cbn [List.filter].
  by rewrite H1, H2, H3, H4, H5, H6.
Qed.

(** A pair of events that opens and closes one session, around a
    stretch that leaks nothing. *)
Lemma no_leak_bracket o c mid :
  no_leak [o; c] -> no_leak mid -> no_leak (o :: mid ++ [c]).
Proof.
  intros (A1 & A2 & A3) (B1 & B2 & B3).
  change (o :: mid ++ [c]) with ([o] ++ mid ++ [c]).
  change [o; c] with ([o] ++ [c]) in A1, A2, A3.
  unfold no_leak. rewrite !count_app in *. repeat split; lia.
Qed.

Lemma leak_free_only {A} (m : M A) : only no_session m -> adds no_leak m.
Proof.
  apply (adds_of_only no_leak no_leak_nil no_leak_app). apply no_leak_no_session.
Qed.

Ltac leak_free_step :=
  lazymatch goal with
  | |- @adds _ _ _ =>
      first
        [ apply (adds_ret no_leak no_leak_nil)
        | apply (adds_raise no_leak no_leak_nil)
        | apply adds_looping
        | apply leak_free_only; apply only_sleep; intros ?
        | apply leak_free_only; apply only_os_path_exists; intros ?
        | apply leak_free_only; apply only_invoke; intros ?
        | apply leak_free_only; apply only_perform; intros ?
        | apply (adds_bind no_leak no_leak_app); [|intros ?]
        | apply (adds_try_except no_leak no_leak_app); [|intros ?]
        | apply (adds_try_except_Exception no_leak no_leak_app); [|intros ?]
        | match goal with
          | |- adds _ (if ?b then _ else _) => destruct b
          | |- adds _ (match ?x with _ => _ end) => destruct x
          end ]
  | |- no_session _ => by repeat split
  end.
Ltac leak_free_walk := repeat leak_free_step.

(** [ssh_connection] closes the client on every way out. *)
Lemma ssh_connection_leak_free W {A} ip timeout (body : M A) :
  adds no_leak body -> adds no_leak (ssh_connection W ip timeout body).
Proof.
  intros Hb t. unfold ssh_connection.
  destruct (HAS_PARAMIKO W); cbn [negb];
    [|exists []; split; [by rewrite app_nil_r|exact no_leak_nil]].
  cbv beta iota zeta delta [finally bind invoke perform ret raise].
  set (c := SshConnect ip (ssh_port (config W)) (ssh_user (config W))
              (ssh_password (config W)) timeout).
  destruct (env W t c) as [c0 o0 e0|e]; cbv beta iota zeta.
  - specialize (Hb (t ++ [(c, Ok c0 o0 e0)])).
    destruct (body (t ++ [(c, Ok c0 o0 e0)])) as [a t1|x t1|]; [| |exact I];
      destruct Hb as (mid & -> & Hmid);
      eexists ((c, Ok c0 o0 e0) :: mid ++ [(SshClose, _)]);
      (split; [by rewrite <- !app_assoc|]);
      (apply no_leak_bracket; [by repeat split|exact Hmid]).
  - eexists ((c, Raises e) :: [] ++ [(SshClose, _)]).
    split; [by rewrite <- !app_assoc|].
    apply no_leak_bracket; [by repeat split|exact no_leak_nil].
Qed.

(** [sftp_connection] closes the SFTP client and the transport, each once
    it is there, on every way out. *)
Lemma sftp_connection_leak_free W {A} ip (body : M A) :
  adds no_leak body -> adds no_leak (sftp_connection W ip body).
Proof.
  intros Hb t. unfold sftp_connection.
  destruct (HAS_PARAMIKO W); cbn [negb];
    [|exists []; split; [by rewrite app_nil_r|exact no_leak_nil]].
  cbv beta iota zeta delta [finally bind invoke perform ret raise].
  set (c1 := TransportOpen ip (ssh_port (config W))).
  set (c2 := TransportConnect (ssh_user (config W)) (ssh_password (config W))).
  destruct (env W t c1) as [a1 o1 e1|x1]; cbv beta iota zeta.
  - set (t1 := t ++ [(c1, Ok a1 o1 e1)]).
    destruct (env W t1 c2) as [a2 o2 e2|x2]; cbv beta iota zeta.
    + set (t2 := t1 ++ [(c2, Ok a2 o2 e2)]).
      destruct (env W t2 SftpFromTransport) as [a3 o3 e3|x3]; cbv beta iota zeta.
      * specialize (Hb (t2 ++ [(SftpFromTransport, Ok a3 o3 e3)])).
        destruct (body _) as [a t3|x t3|]; [| |exact I];
          destruct Hb as (mid & -> & Hmid);
          eexists ((c1, Ok a1 o1 e1)
                   :: ([(c2, Ok a2 o2 e2)]
                       ++ ((SftpFromTransport, Ok a3 o3 e3) :: mid ++ [(SftpClose, _)]))
                   ++ [(TransportClose, _)]);
          (split; [subst t2 t1; cbn [app]; rewrite <- !app_assoc; cbn [app]; reflexivity|]);
          (apply no_leak_bracket; [by repeat split|]);
          (apply no_leak_app; [by repeat split|]);
          (apply no_leak_bracket; [by repeat split|exact Hmid]).
      * eexists ((c1, Ok a1 o1 e1)
                 :: [(c2, Ok a2 o2 e2); (SftpFromTransport, Raises x3)]
                 ++ [(TransportClose, _)]).
        split; [subst t2 t1; cbn [app]; rewrite <- !app_assoc; cbn [app]; reflexivity|].
        apply no_leak_bracket; by repeat split.
    + eexists ((c1, Ok a1 o1 e1) :: [(c2, Raises x2)] ++ [(TransportClose, _)]).
      split; [subst t1; cbn [app]; rewrite <- !app_assoc; cbn [app]; reflexivity|].
      apply no_leak_bracket; by repeat split.
  - exists [(c1, Raises x1)]. split; [reflexivity|by repeat split].
Qed.

Lemma wait_for_ping_leak_free W fuel ip : adds no_leak (wait_for_ping W fuel ip).
Proof. apply leak_free_only. by apply wait_for_ping_only. Qed.

Lemma wait_for_ssh_ready_leak_free W fuel ip : adds no_leak (wait_for_ssh_ready W fuel ip).
Proof.
  unfold wait_for_ssh_ready. destruct (negb (HAS_PARAMIKO W)).
  - apply (adds_bind no_leak no_leak_app); [apply wait_for_ping_leak_free|].
    intros _. leak_free_walk.
  - induction fuel as [|fuel IH]; [apply adds_looping|]. cbn [wait_for_ssh_ready_loop].
    apply (adds_bind no_leak no_leak_app); [apply wait_for_ping_leak_free|]. intros _.
    apply (adds_bind no_leak no_leak_app);
      [|intros [|]; [apply (adds_ret no_leak no_leak_nil)|exact IH]].
    generalize (Z.to_nat (ssh_attempts_per_round (config W))) as n.
    induction n as [|n IHn]; cbn [ssh_attempts]; [leak_free_walk|].
    apply (adds_bind no_leak no_leak_app).
    + unfold ssh_probe. apply (adds_try_except_Exception no_leak no_leak_app);
        [|intros; leak_free_walk].
      apply ssh_connection_leak_free. leak_free_walk.
    + intros [|]; [leak_free_walk|].
      apply (adds_bind no_leak no_leak_app); [leak_free_walk|]. intros _. exact IHn.
Qed.

Lemma send_file_with_fallback_leak_free W ip l r :
  adds no_leak (send_file_with_fallback W ip l r).
Proof.
  unfold send_file_with_fallback. apply (adds_bind no_leak no_leak_app).
  - destruct (HAS_PEXPECT W); [|leak_free_walk].
    unfold send_file_sftp_pexpect. destruct (negb _); [leak_free_walk|].
    apply (adds_try_except no_leak no_leak_app); [|intros; leak_free_walk].
    apply (adds_bind no_leak no_leak_app);
      [apply leak_free_only; unfold pexpect_dialogue; only_walk; by repeat split|].
    intros code. unfold verify_after_pexpect. destruct (code =? 0); [|leak_free_walk].
    apply (adds_bind no_leak no_leak_app);
      [apply leak_free_only; unfold get_file_hash; only_walk; by repeat split|].
    intros lh. destruct (opt_truthy lh && HAS_PARAMIKO W); [|leak_free_walk].
    apply (adds_bind no_leak no_leak_app); [leak_free_walk|]. intros _.
    apply (adds_bind no_leak no_leak_app); [|intros; leak_free_walk].
    unfold get_remote_file_hash.
    apply (adds_try_except_Exception no_leak no_leak_app); [|intros; leak_free_walk].
    apply ssh_connection_leak_free. leak_free_walk.
  - intros [|]; [leak_free_walk|]. apply (adds_bind no_leak no_leak_app).
    + destruct (HAS_PARAMIKO W); [|leak_free_walk].
      unfold send_file_sftp_paramiko.
      apply (adds_try_except_Exception no_leak no_leak_app); [|intros; leak_free_walk].
      apply sftp_connection_leak_free. unfold paramiko_upload.
      apply (adds_bind no_leak no_leak_app);
        [apply leak_free_only; apply check_remote_directory_only; intros; by repeat split|].
      intros _. leak_free_walk.
    + intros [|]; [leak_free_walk|].
      unfold send_file_sftp_subprocess. leak_free_walk.
Qed.

Lemma execute_remote_commands_leak_free W ip r filename :
  adds no_leak (execute_remote_commands W ip r filename).
Proof.
  unfold execute_remote_commands.
  apply (adds_try_except_Exception no_leak no_leak_app); [|intros; leak_free_walk].
  apply ssh_connection_leak_free.
  apply (adds_bind no_leak no_leak_app); [leak_free_walk|]. intros moved.
  destruct (negb _); [leak_free_walk|].
  apply (adds_bind no_leak no_leak_app); [leak_free_walk|]. intros listed.
  apply (adds_bind no_leak no_leak_app); [|intros; leak_free_walk].
  destruct (PyStr.truthy _); [|leak_free_walk].
  generalize (PyStr.split "010" (PyStr.strip listed.1.2)) as pids.
  induction pids as [|pid pids IH]; cbn [kill_pids]; [leak_free_walk|].
  apply (adds_bind no_leak no_leak_app); [leak_free_walk|]. intros _. exact IH.
Qed.

Lemma send_single_file_leak_free W fuel ip filename l r move_mode :
  adds no_leak (send_single_file W fuel ip filename l r move_mode).
Proof.
  induction fuel as [|fuel IH]; [apply adds_looping|]. cbn [send_single_file].
  apply (adds_bind no_leak no_leak_app); [apply send_file_with_fallback_leak_free|].
  intros [|].
  - destruct (move_mode && HAS_PARAMIKO W); [|leak_free_walk].
    apply (adds_bind no_leak no_leak_app); [apply execute_remote_commands_leak_free|].
    intros [|]; [leak_free_walk|].
    apply (adds_bind no_leak no_leak_app); [leak_free_walk|]. intros _. exact IH.
  - apply (adds_bind no_leak no_leak_app); [leak_free_walk|]. intros _. exact IH.
Qed.

(** X12.  A worker leaks no session: whenever it comes back, from the
    readiness gate, the transfers, the hash checks and the remote commands
    taken together, it has closed as many SSH clients as it tried to connect,
    as many transports as it constructed and as many SFTP clients as it
    obtained, whatever failed in between. *)
Theorem worker_closes_every_session
    (W : World) (fuel : nat) (ip : string) (file_map : list (string * string))
    (move_mode : bool) (t : trace) :
  match process_single_ip W fuel ip file_map move_mode t with
  | Returns _ t' | Raised _ t' =>
      exists new,
        t' = t ++ new /\
        count opens_ssh new = count closes_ssh new /\
        count opens_transport new = count closes_transport new /\
        count opens_sftp new = count closes_sftp new
  | Looping => True
  end.
Proof.
  revert t. change (adds no_leak (process_single_ip W fuel ip file_map move_mode)).
  unfold process_single_ip.
  apply (adds_try_except_Exception no_leak no_leak_app); [|intros; leak_free_walk].
  apply (adds_bind no_leak no_leak_app); [apply wait_for_ssh_ready_leak_free|]. intros _.
  apply (adds_bind no_leak no_leak_app); [|intros; leak_free_walk].
  induction file_map as [|entry rest IH]; cbn [process_entries]; [leak_free_walk|].
  apply (adds_bind no_leak no_leak_app); [|intros _; exact IH].
  unfold process_entry. apply (adds_bind no_leak no_leak_app); [leak_free_walk|].
  intros found. destruct (negb found); [leak_free_walk|].
  apply (adds_bind no_leak no_leak_app); [apply send_single_file_leak_free|].
  intros _. leak_free_walk.
Qed.

(** A worker in move mode with paramiko alone, on a calm host: the probe
    and the remote commands each take an SSH session, the upload a transport
    with its SFTP client, and all are closed. *)
Example worker_sessions_sample :
  exists t',
    process_single_ip (Sample.world true false Sample.calm) 1
      "10.0.0.7" [("svc", "/usr/local/bin/")] true [] = Returns true t' /\
    count opens_ssh t' = 2%nat /\ count closes_ssh t' = 2%nat /\
    count opens_transport t' = 1%nat /\ count closes_transport t' = 1%nat /\
    count opens_sftp t' = 1%nat /\ count closes_sftp t' = 1%nat.
Proof. eexists. split; [vm_compute; reflexivity|]. repeat split; vm_compute; reflexivity. Qed.

(** ** The fallback chain *)

(** X13.  [send_file_with_fallback] gives a transfer up only after the
    [sftp] binary, run as a subprocess on the bracketed address with the
    [put] and [quit] batch, has failed too: when it returns [False] that run
    is the last thing it did, and it did not exit with status zero. *)
Theorem fallback_gives_up_only_after_the_subprocess
    (W : World) (ip l r : string) (t t' : trace) :
  send_file_with_fallback W ip l r t = Returns false t' ->
  exists before answer,
    t' = t ++ before ++ [(sftp_subprocess_call W ip l r, answer)] /\
    forall out err, answer <> Ok 0 out err.
Proof.
  unfold send_file_with_fallback. intros H.
  apply bind_returns in H as (sent_pexpect & t1 & H1 & H).
  destruct sent_pexpect; [discriminate|].
  apply bind_returns in H as (sent_paramiko & t2 & H2 & H).
  destruct sent_paramiko; [discriminate|].
  assert (exists n1, t1 = t ++ n1) as (n1 & ->).
  { destruct (HAS_PEXPECT W).
    - destruct (only_returns _ _ _ _ _ (send_file_sftp_pexpect_any W ip l r) H1)
        as (n1 & -> & _). by exists n1.
    - injection H1 as <-. exists []. by rewrite app_nil_r. }
  assert (exists n2, t2 = (t ++ n1) ++ n2) as (n2 & ->).
  { destruct (HAS_PARAMIKO W).
    - destruct (only_returns _ _ _ _ _ (send_file_sftp_paramiko_any W ip l r) H2)
        as (n2 & -> & _). by exists n2.
    - injection H2 as <-. exists []. by rewrite app_nil_r. }
  unfold send_file_sftp_subprocess, try_except in H.
  fold (sftp_batch l r) in H. fold (sftp_subprocess_call W ip l r) in H.
  set (c := sftp_subprocess_call W ip l r) in *.
  destruct (env W ((t ++ n1) ++ n2) c) as [code out err|e] eqn:E.
  - rewrite (bind_of_returns _ _ _ _ _ (invoke_ok W c _ code out err E)) in H.
    cbn [fst] in H. injection H as Hcode <-.
    exists (n1 ++ n2), (Ok code out err). split; [by rewrite <- !app_assoc|].
    intros o e' [= -> _ _]. discriminate.
  - rewrite (bind_of_raised _ _ _ _ _ (invoke_raises W c _ e E)) in H.
    destruct (caught_by _ e); [|discriminate]. injection H as <-.
    exists (n1 ++ n2), (Raises e). split; [by rewrite <- !app_assoc|]. discriminate.
Qed.

Lemma fallback_gives_up_only_after_the_subprocess_witness :
  send_file_with_fallback (Sample.world false false Scene.sftp_refused)
    "fde0::1" "file/svc" "/tmp/svc.BMT" []
  = Returns false
      [(SubprocessRun
          ["sftp"; "-P"; "22"; "-o"; "HostKeyAlgorithms ssh-rsa";
           "-o"; "StrictHostKeyChecking=no"; "-o"; "ConnectTimeout=10"; "root@[fde0::1]"]
          (Some ("put file/svc /tmp/svc.BMT" +:+ LF +:+ "quit" +:+ LF)) 30,
        Ok 255 "" "Permission denied")].
Proof.
  destruct (fallback_gives_up_only_after_the_subprocess
              (Sample.world false false Scene.sftp_refused)
              "fde0::1" "file/svc" "/tmp/svc.BMT" []
              [(sftp_subprocess_call (Sample.world false false Scene.sftp_refused)
                  "fde0::1" "file/svc" "/tmp/svc.BMT", Ok 255 "" "Permission denied")])
    as (before & answer & E & _); reflexivity.
Defined.

(** ** Move mode with paramiko *)

Lemma execute_remote_commands_true_moved W ip r filename t t' :
  HAS_PARAMIKO W = true ->
  execute_remote_commands W ip r filename t = Returns true t' ->
  exists out err, (SshExec (mv_command r) None, Ok 0 out err) ∈ t'.
Proof.
  intros Hp. unfold execute_remote_commands, ssh_connection. rewrite Hp. cbn [negb].
  unfold try_except_Exception, finally.
  destruct (bind _ _ t) as [b t1|e t1|] eqn:E; [| |discriminate].
  - rewrite perform_eq. intros [= -> <-].
    apply bind_returns in E as (connected & t2 & _ & E).
    apply bind_returns in E as (moved & t3 & Hmv & E).
    destruct (negb (moved.1.1 =? 0)) eqn:Hcode; [discriminate|].
    apply negb_false_iff, Z.eqb_eq in Hcode.
    assert (exists rest, t1 = t3 ++ rest) as (rest & ->).
    { assert (only any_event
                (let* listed := invoke W (SshExec (ps_command filename) None) in
                 do (if PyStr.truthy (PyStr.strip listed.1.2)
                     then kill_pids W (PyStr.split "010" (PyStr.strip listed.1.2))
                     else ret tt)
                 then ret true)) as Hrest.
      { apply only_bind; [by apply only_invoke|]. intros listed.
        apply only_bind; [|intros; apply only_ret].
        destruct (PyStr.truthy _); [|apply only_ret].
        generalize (PyStr.split "010" (PyStr.strip listed.1.2)) as pids.
        induction pids as [|pid pids IH]; cbn [kill_pids]; [apply only_ret|].
        apply only_bind; [only_walk; exact I|]. intros _. exact IH. }
      destruct (only_returns _ _ _ _ _ Hrest E) as (rest & -> & _). by exists rest. }
    unfold invoke in Hmv. apply bind_returns in Hmv as (reply & t4 & Hperf & Hmv).
    rewrite perform_eq in Hperf. injection Hperf as <- <-.
    destruct (env W t2 (SshExec (mv_command r) None)) as [code out err|e] eqn:Er;
      [|discriminate].
    injection Hmv as <- <-. cbn [fst] in Hcode. subst code.
    exists out, err. rewrite !elem_of_app. left. left. right. by left.
  - destruct (perform W SshClose t1); discriminate.
Qed.

(** X14.  In move mode with paramiko there, [send_single_file] returns
    only [True] and only at the point where [execute_remote_commands] has
    returned [True] on an upload that [send_file_with_fallback] reported as
    sent; by then the [mv] of the uploaded file has exited with status zero.
    A transfer or a rename that fails is tried again from the transfer. *)
Theorem move_mode_returns_only_after_the_rename
    (W : World) (fuel : nat) (ip filename l r : string) (t : trace) (b : bool)
    (t' : trace) :
  HAS_PARAMIKO W = true ->
  send_single_file W fuel ip filename l r true t = Returns b t' ->
  b = true /\
  exists t0 t1,
    send_file_with_fallback W ip l r t0 = Returns true t1 /\
    execute_remote_commands W ip r filename t1 = Returns true t' /\
    exists out err, (SshExec (mv_command r) None, Ok 0 out err) ∈ t'.
Proof.
  intros Hp. revert t. induction fuel as [|fuel IH]; intros t H; [discriminate|].
  cbn [send_single_file] in H. rewrite Hp in H. cbn [andb] in H.
  apply bind_returns in H as (success & t1 & Hsend & H). destruct success.
  - apply bind_returns in H as (done & t2 & Hdone & H). destruct done.
    + injection H as <- <-. split; [reflexivity|]. exists t, t1.
      split; [exact Hsend|]. split; [exact Hdone|].
      by eapply execute_remote_commands_true_moved.
    + rewrite (bind_of_returns _ _ _ _ _ (sleep_eq W 2 t2)) in H. by apply IH in H.
  - rewrite (bind_of_returns _ _ _ _ _ (sleep_eq W 5 t1)) in H. by apply IH in H.
Qed.

Lemma move_mode_returns_only_after_the_rename_witness :
  exists t',
    send_single_file (Sample.world true false Sample.calm) 1
      "10.0.0.7" "svc" "file/svc" "/usr/local/bin/svc.BMT" true [] = Returns true t' /\
    (SshExec "mv /usr/local/bin/svc.BMT /usr/local/bin/svc" None, Ok 0 "" "") ∈ t'.
Proof.
  destruct (send_single_file (Sample.world true false Sample.calm) 1
              "10.0.0.7" "svc" "file/svc" "/usr/local/bin/svc.BMT" true [])
    as [b t'|e t'|] eqn:E.
  - destruct (move_mode_returns_only_after_the_rename
                (Sample.world true false Sample.calm) 1
                "10.0.0.7" "svc" "file/svc" "/usr/local/bin/svc.BMT" [] b t' eq_refl E)
      as (-> & _).
    exists t'. split; [reflexivity|].
    vm_compute in E. injection E as <-.
    apply (bool_decide_unpack _). vm_compute. exact I.
  - vm_compute in E. discriminate.
  - vm_compute in E. discriminate.
Defined.

(** ** Rounds of SSH attempts *)

Lemma ssh_probe_counts W ip t :
  HAS_PARAMIKO W = true ->
  exists b new,
    ssh_probe W ip t = Returns b (t ++ new) /\
    count opens_ssh new = 1%nat /\ count (is_sleep (ssh_attempt_interval (config W))) new = 0%nat.
Proof.
  intros Hp. unfold ssh_probe, ssh_connection. rewrite Hp. cbn [negb].
  cbv beta iota zeta delta [try_except_Exception finally bind invoke perform ret raise].
  destruct (env W t _) as [c0 o0 e0|e]; cbv beta iota zeta.
  - destruct (env W _ (SshExec "echo test" (Some 3))) as [code out err|e];
      cbv beta iota zeta;
      eexists _, [_; _; _]; (split; [by rewrite <- !app_assoc|]); by split.
  - eexists _, [_; _]. split; [by rewrite <- !app_assoc|]. by split.
Qed.

(** X15.  With paramiko there and an [ssh_attempt_interval] that is not
    negative (so that [time.sleep] takes it), a round of SSH attempts always
    comes to an end and connects at most as often as it was told to.  A round
    that gives up has connected exactly that often and has paused for
    [ssh_attempt_interval] after each attempt, the last one included. *)
Theorem ssh_attempts_are_bounded (W : World) (n : nat) (ip : string) (t : trace) :
  HAS_PARAMIKO W = true ->
  0 <= ssh_attempt_interval (config W) ->
  exists b new,
    ssh_attempts W n ip t = Returns b (t ++ new) /\
    (count opens_ssh new <= n)%nat /\
    (b = false ->
     count opens_ssh new = n /\
     count (is_sleep (ssh_attempt_interval (config W))) new = n).
Proof.
  intros Hp _. revert t. induction n as [|n IH]; intros t; cbn [ssh_attempts].
  - exists false, []. split; [by rewrite app_nil_r|]. by split.
  - destruct (ssh_probe_counts W ip t Hp) as (ok & n1 & E1 & Ho1 & Hs1).
    rewrite (bind_of_returns _ _ _ _ _ E1). destruct ok.
    + exists true, n1. split; [reflexivity|]. split; [lia|discriminate].
    + rewrite (bind_of_returns _ _ _ _ _ (sleep_eq W _ _)).
      destruct (IH ((t ++ n1) ++ [(Sleep (ssh_attempt_interval (config W)),
                                  env W (t ++ n1) (Sleep (ssh_attempt_interval (config W))))]))
        as (b & n2 & E2 & Ho2 & Hb).
      rewrite E2. eexists b, (n1 ++ [_] ++ n2).
      split; [by rewrite <- !app_assoc|].
      rewrite !count_app.
      assert (count opens_ssh [(Sleep (ssh_attempt_interval (config W)),
                                env W (t ++ n1) (Sleep (ssh_attempt_interval (config W))))]
              = 0%nat) as -> by reflexivity.
      assert (count (is_sleep (ssh_attempt_interval (config W)))
                [(Sleep (ssh_attempt_interval (config W)),
                  env W (t ++ n1) (Sleep (ssh_attempt_interval (config W))))]
              = 1%nat) as ->.
      { unfold count, is_sleep. cbn [List.filter fst].
        by rewrite bool_decide_eq_true_2. }
      split; [lia|]. intros Hf. destruct (Hb Hf) as [-> ->]. lia.
Qed.

Lemma ssh_attempts_are_bounded_witness :
  exists new,
    ssh_attempts (Sample.world true true Scene.sshd_down) 3 "10.0.0.7" []
    = Returns false new /\
    count opens_ssh new = 3%nat /\ count (is_sleep 3) new = 3%nat.
Proof.
  assert (0 <= ssh_attempt_interval (config (Sample.world true true Scene.sshd_down)))
    as Hinterval by (cbn; lia).
  destruct (ssh_attempts_are_bounded (Sample.world true true Scene.sshd_down) 3
              "10.0.0.7" [] eq_refl Hinterval) as (b & new & E & _ & Hb).
  exists new. cbn [app] in E.
  assert (b = false) as ->.
  { vm_compute in E. by injection E. }
  split; [exact E|]. by apply Hb.
Defined.

(** X16.  With paramiko there and [ssh_attempts_per_round] at zero or
    below, the readiness gate never returns: each round makes no attempt and
    the loop goes back to the ping, without a pause when the ping gets
    through. *)
Theorem readiness_gate_without_attempts_never_returns
    (W : World) (fuel : nat) (ip : string) (t : trace) :
  HAS_PARAMIKO W = true ->
  ssh_attempts_per_round (config W) <= 0 ->
  wait_for_ssh_ready W fuel ip t = Looping \/
  exists e t', wait_for_ssh_ready W fuel ip t = Raised e t'.
Proof.
  intros Hp Hn. unfold wait_for_ssh_ready. rewrite Hp. cbn [negb].
  assert (Z.to_nat (ssh_attempts_per_round (config W)) = 0%nat) as Hz by lia.
  revert t. induction fuel as [|fuel IH]; intros t; [by left|].
  cbn [wait_for_ssh_ready_loop]. rewrite Hz. cbn [ssh_attempts].
  destruct (wait_for_ping W (S fuel) ip t) as [ok t1|e t1|] eqn:E.
  - rewrite (bind_of_returns _ _ _ _ _ E). unfold bind, ret. apply IH.
  - rewrite (bind_of_raised _ _ _ _ _ E). right. eauto.
  - left. unfold bind. by rewrite E.
Qed.

Lemma readiness_gate_without_attempts_never_returns_witness :
  wait_for_ssh_ready Scene.world_no_attempts 4 "10.0.0.7" [] = Looping.
Proof.
  destruct (readiness_gate_without_attempts_never_returns
              Scene.world_no_attempts 4 "10.0.0.7" [] eq_refl) as [E|(e & t' & E)].
  - cbn. lia.
  - exact E.
  - vm_compute in E. discriminate.
Defined.

(** ** Remote directories, from the root *)

Lemma make_dirs_from_the_root W dirs current t :
  current = "" \/ PyStr.startswith current "/" = true ->
  exists new,
    (make_dirs W dirs current t = Returns tt (t ++ new)
     \/ exists e, make_dirs W dirs current t = Raised e (t ++ new)) /\
    Forall from_the_root new.
Proof.
  revert current t. induction dirs as [|d dirs IH]; intros current t Hcur.
  - exists []. split; [left; by rewrite app_nil_r|constructor].
  - cbn [make_dirs].
    set (path := if PyStr.truthy current then current +:+ "/" +:+ d else "/" +:+ d).
    assert (PyStr.startswith path "/" = true) as Hpath.
    { subst path. unfold PyStr.startswith in *. apply prefix_char_spec.
      destruct Hcur as [->|Hs]; [by eexists|].
      apply prefix_char_spec in Hs as (rest & ->). by eexists. }
    assert (from_the_root_mk : forall r, from_the_root (SftpMkdir path, r)).
    { intros r. exists path. split; [by left|exact Hpath]. }
    assert (from_the_root_st : forall r, from_the_root (SftpStat path, r)).
    { intros r. exists path. split; [by right|exact Hpath]. }
    assert (only from_the_root
              (try_except (do invoke W (SftpMkdir path) then ret tt) [OSError]
                 (fun _ => try_except (do invoke W (SftpStat path) then ret tt)
                             [OSError] (fun _ => ret tt)))) as Hstep.
    { only_walk; auto. }
    specialize (Hstep t).
    destruct (try_except _ _ _ t) as [[] t1|e t1|] eqn:Es.
    + rewrite (bind_of_returns _ _ _ _ _ Es).
      destruct Hstep as (n1 & -> & F1).
      destruct (IH path (t ++ n1) (or_intror Hpath)) as (n2 & E2 & F2).
      exists (n1 ++ n2). split; [|by apply Forall_app].
      rewrite app_assoc. exact E2.
    + rewrite (bind_of_raised _ _ _ _ _ Es).
      destruct Hstep as (n1 & -> & F1). exists n1. split; [right; eauto|exact F1].
    + exfalso. clear -Es.
      revert Es. cbv beta iota zeta delta [try_except bind invoke perform ret raise].
      destruct (env W t (SftpMkdir path)); [discriminate|].
      destruct (caught_by [OSError] e); [|discriminate].
      destruct (env W _ (SftpStat path)); [discriminate|].
      destruct (caught_by [OSError] e0); discriminate.
Qed.

(** X17.  [check_remote_directory] never fails, and every path it asks the
    remote side to make or to look at begins at the root, also when the remote
    file path is a relative one. *)
Theorem remote_directories_are_made_from_the_root
    (W : World) (remote_file_path : string) (t : trace) :
  exists new,
    check_remote_directory W remote_file_path t = Returns tt (t ++ new) /\
    Forall from_the_root new.
Proof.
  unfold check_remote_directory. destruct (negb _).
  - exists []. split; [by rewrite app_nil_r|constructor].
  - unfold try_except_Exception.
    match goal with
    | |- context [make_dirs W ?dirs "" t] =>
        destruct (make_dirs_from_the_root W dirs "" t (or_introl eq_refl))
          as (new & [E|(e & E)] & F); rewrite E; exists new; by split
    end.
Qed.

(** A relative remote path: the directories are made under the root, the
    file is put where the path says. *)
Example relative_remote_path :
  exists t',
    paramiko_upload (Sample.world true false Sample.calm) "file/svc" "opt/app/svc.BMT" []
    = Returns true t' /\
    List.map fst (firstn 3 t')
    = [SftpMkdir "/opt"; SftpMkdir "/opt/app"; SftpPut "file/svc" "opt/app/svc.BMT"].
Proof. eexists. split; [vm_compute; reflexivity|reflexivity]. Qed.

(** ** The end of the run *)

(** X18.  [main] leaves the round loop only when every host of the list is
    in the success set: as long as one is missing, the pass through the loop
    head opens another round.  From then on the success set is the set of the
    listed hosts. *)
Theorem main_leaves_the_loop_with_every_host_done
    (W : World) (ip_list : list string) (file_map : list (string * string))
    (move_mode remove_fails : bool) (old : option string)
    (evs : list main_event) (s0 s : run_state) :
  main_start W ip_list file_map remove_fails old = Some s0 ->
  main_run W ip_list file_map move_mode evs s0 = Some s ->
  (at_phase s = AfterLoop \/ at_phase s = Finished ->
   forall h, h ∈ ip_list <-> h ∈ success_ip s) /\
  (at_phase s = LoopHead ->
   (exists h, h ∈ ip_list /\ h ∉ success_ip s) ->
   exists s', main_step W ip_list file_map move_mode EnterRound s = Some s' /\
              at_phase s' = InRound (not_yet_successful ip_list (success_ip s))
                              (not_yet_successful ip_list (success_ip s))).
Proof.
  intros Hstart Hrun. split.
  - intros Hleft h.
    rewrite (main_after_the_loop _ _ _ _ _ _ _ _ _ Hstart Hrun Hleft).
    by rewrite elem_of_list_to_set.
  - intros Hph (h & Hin & Hnot).
    assert (run_invariant W ip_list file_map move_mode s) as [Hsucc _].
    { eapply main_run_invariant; [|exact Hrun|by eapply main_start_run_invariant].
      intros ev a b. apply transition_run_invariant. }
    unfold main_step. rewrite Hph.
    assert ((size (success_ip s) <? length ip_list)%nat = true) as ->.
    { apply Nat.ltb_lt.
      assert (success_ip s ⊆ list_to_set ip_list) as Hsub.
      { intros x Hx. apply elem_of_list_to_set. by apply Hsucc. }
      destruct (Nat.lt_ge_cases (size (success_ip s)) (length ip_list)) as [Hlt|Hge];
        [exact Hlt|exfalso].
      assert (success_ip s = list_to_set ip_list) as Heq.
      { apply set_subseteq_size_eq; [exact Hsub|].
        pose proof (size_list_to_set_le ip_list). lia. }
      apply Hnot. rewrite Heq. by apply elem_of_list_to_set. }
    rewrite bool_decide_eq_false_2.
    + eexists. split; reflexivity.
    + intros Hnil.
      assert (h ∈ not_yet_successful ip_list (success_ip s)) as Hrem
        by (by apply elem_of_not_yet_successful).
      rewrite Hnil in Hrem. by apply elem_of_nil in Hrem.
Qed.

Lemma main_leaves_the_loop_with_every_host_done_witness :
  exists s0 s,
    main_start (Sample.world false false Sample.calm) (read_ip_list Sample.ip_txt)
      Sample.manifest false None = Some s0 /\
    main_run (Sample.world false false Sample.calm) (read_ip_list Sample.ip_txt)
      Sample.manifest true Sample.both_succeed s0 = Some s /\
    at_phase s = Finished /\
    (forall h, h ∈ read_ip_list Sample.ip_txt <-> h ∈ success_ip s).
Proof.
  eexists _, _. split; [reflexivity|].
  match goal with
  | |- ?run = Some ?s /\ _ =>
      let r := eval vm_compute in run in
      match r with
      | Some ?v => unify s v
      end
  end.
  split; [vm_compute; reflexivity|]. split; [reflexivity|].
  eapply (main_leaves_the_loop_with_every_host_done
            (Sample.world false false Sample.calm) (read_ip_list Sample.ip_txt)
            Sample.manifest true false None Sample.both_succeed).
  - reflexivity.
  - vm_compute. reflexivity.
  - right. reflexivity.
Defined.

(** X19.  At the end of a run the completion notice is dispatched exactly
    when notifications are enabled, [complete] is listed in [notify_on], and
    no host is named twice in the list: the run ends once every host has
    succeeded, and the notice asks for as many hosts in the success set as
    there are entries in the list, which a repeated entry makes impossible.
    The notice, when there is one, is the last thing dispatched. *)
Theorem completion_notice_needs_distinct_hosts
    (W : World) (ip_list : list string) (file_map : list (string * string))
    (move_mode remove_fails : bool) (old : option string)
    (evs : list main_event) (s0 s : run_state) :
  main_start W ip_list file_map remove_fails old = Some s0 ->
  main_run W ip_list file_map move_mode evs s0 = Some s ->
  at_phase s = Finished ->
  ((exists d, d ∈ dispatched s /\ event d = ["complete"]) <->
   notification_on (config W) = true /\ listed (config W) "complete" = true /\
   NoDup ip_list) /\
  (forall d, d ∈ dispatched s -> event d = ["complete"] -> last (dispatched s) = Some d).
Proof.
  intros Hstart Hrun Hfin.
  destruct (main_start_at_loop_head _ _ _ _ _ _ Hstart) as (Hph0 & _ & Hd0).
  assert (at_phase s0 <> Finished) as Hnf by (rewrite Hph0; discriminate).
  destruct (main_run_finished _ _ _ _ _ _ _ Hrun Hnf Hfin)
    as (evs' & s1 & -> & Hrun1 & Hph1 & Hs & Hd).
  assert (Forall (fun d => ~ tells_complete d) (dispatched s1)) as Hearly.
  { eapply main_run_tells_no_end_early; [exact Hrun1| |rewrite Hph1; discriminate].
    split; [exact Hnf|]. rewrite Hd0. apply notify_start_not_complete. }
  assert (success_ip s1 = list_to_set ip_list) as Hall.
  { eapply main_after_the_loop; [exact Hstart|exact Hrun1|by left]. }
  assert ((size (success_ip s1) =? length ip_list)%nat = true <-> NoDup ip_list) as Hsize.
  { rewrite Hall, Nat.eqb_eq. split; [apply size_list_to_set_NoDup|].
    apply size_list_to_set. }
  rewrite Hd. unfold notify_complete, send_notification.
  destruct (notification_on (config W)) eqn:Hon;
    [destruct (listed (config W) "complete") eqn:Hl;
     [destruct (size (success_ip s1) =? length ip_list)%nat eqn:Hn|]|];
    cbn [andb]; rewrite ?app_nil_r.
  - split.
    + split; [intros _; repeat split; by apply Hsize|]. intros _.
      eexists. split; [apply elem_of_app; right; by left|reflexivity].
    + intros d Hin Hev. apply elem_of_app in Hin as [Hin|Hin].
      * exfalso. by apply (proj1 (Forall_forall _ _) Hearly d Hin).
      * apply list_elem_of_singleton in Hin as ->. by rewrite last_snoc.
  - split.
    + split; [|intros (_ & _ & Hnd); apply Hsize in Hnd; discriminate].
      intros (d & Hin & Hev). exfalso.
      by apply (proj1 (Forall_forall _ _) Hearly d Hin).
    + intros d Hin Hev. exfalso. by apply (proj1 (Forall_forall _ _) Hearly d Hin).
  - split.
    + split; [|intros (_ & [=] & _)].
      intros (d & Hin & Hev). exfalso.
      by apply (proj1 (Forall_forall _ _) Hearly d Hin).
    + intros d Hin Hev. exfalso. by apply (proj1 (Forall_forall _ _) Hearly d Hin).
  - split.
    + split; [|intros ([=] & _)].
      intros (d & Hin & Hev). exfalso.
      by apply (proj1 (Forall_forall _ _) Hearly d Hin).
    + intros d Hin Hev. exfalso. by apply (proj1 (Forall_forall _ _) Hearly d Hin).
Qed.

Lemma completion_notice_needs_distinct_hosts_witness :
  exists s0 s,
    main_start Sample.world_start_and_complete Roster.twice Sample.manifest false None
    = Some s0 /\
    main_run Sample.world_start_and_complete Roster.twice Sample.manifest false
      Roster.run s0 = Some s /\
    at_phase s = Finished /\
    "10.0.0.7" ∈ success_ip s /\
    ~ exists d, d ∈ dispatched s /\ event d = ["complete"].
Proof.
  eexists _, _. split; [reflexivity|].
  match goal with
  | |- ?run = Some ?s /\ _ =>
      let r := eval vm_compute in run in
      match r with
      | Some ?v => unify s v
      end
  end.
  split; [vm_compute; reflexivity|]. split; [reflexivity|].
  split; [apply (bool_decide_unpack _); vm_compute; exact I|].
  intros Hd.
  eapply (completion_notice_needs_distinct_hosts
            Sample.world_start_and_complete Roster.twice Sample.manifest false false None
            Roster.run) in Hd as (_ & _ & Hnd).
  - apply NoDup_cons in Hnd as [Hnot _]. apply Hnot. by left.
  - reflexivity.
  - vm_compute. reflexivity.
  - reflexivity.
Defined.

(** X20.  The [complete.txt] of a run that went through, on a file system
    that raised no [OSError], is a host list in its own right: read as an
    [ip.txt] it names each host once, and the hosts it names are those of the
    [ip.txt] the run was started with. *)
Theorem complete_txt_reads_back_as_the_host_list
    (W : World) (ip_txt : string) (file_map : list (string * string))
    (move_mode : bool) (old : option string)
    (evs : list main_event) (s0 s : run_state) :
  let ip_list := read_ip_list ip_txt in
  main_start W ip_list file_map false old = Some s0 ->
  main_run W ip_list file_map move_mode evs s0 = Some s ->
  Forall ledger_fine evs ->
  at_phase s = Finished ->
  exists text,
    complete_txt s = Some text /\
    NoDup (read_ip_list text) /\
    forall h, h ∈ read_ip_list text <-> h ∈ ip_list.
Proof.
  intros ip_list Hstart Hrun Hfine Hfin.
  destruct (main_start_at_loop_head _ _ _ _ _ _ Hstart) as (Hph0 & Hs0 & _).
  assert (complete_txt s0 = None) as Hfile0.
  { unfold main_start in Hstart. repeat case_bool_decide; try discriminate.
    injection Hstart as <-. cbn [complete_txt]. by destruct old. }
  assert (ip_list <> []) as Hne.
  { unfold main_start in Hstart. by case_bool_decide. }
  assert (ledger_invariant s) as (hosts & Hnd & Hf & Hmem & Hfile).
  { eapply (main_run_ledger_invariant W ip_list file_map move_mode evs s0 s);
      [apply read_ip_list_host_lines|exact Hfine|exact Hrun
      |by eapply main_start_run_invariant|].
    exists []. split; [constructor|]. split; [constructor|].
    split; [|by left]. intros h. rewrite Hs0. split; intros Hh.
    - by apply elem_of_nil in Hh.
    - by apply not_elem_of_empty in Hh. }
  assert (success_ip s = list_to_set ip_list) as Hall.
  { eapply main_after_the_loop; [exact Hstart|exact Hrun|by right]. }
  assert (forall h, h ∈ hosts <-> h ∈ ip_list) as Hsame.
  { intros h. by rewrite Hmem, Hall, elem_of_list_to_set. }
  assert (read_ip_list (ledger_text hosts) = hosts) as Hread.
  { unfold read_ip_list. rewrite (stripped_lines_ledger_text hosts Hf).
    apply filter_all, Forall_forall. intros h Hh.
    apply Hsame in Hh. unfold ip_list, read_ip_list in Hh.
    by apply list_elem_of_In, filter_In in Hh as [_ Hc]. }
  destruct Hfile as [[_ ->]| Hfile].
  - exfalso. destruct ip_list as [|h rest]; [done|].
    assert (h ∈ []) as Hh by (apply Hsame; by left). by apply elem_of_nil in Hh.
  - exists (ledger_text hosts). split; [exact Hfile|]. rewrite Hread. by split.
Qed.

Lemma complete_txt_reads_back_as_the_host_list_witness :
  exists s0 s,
    main_start (Sample.world false false Sample.calm) (read_ip_list Sample.ip_txt)
      Sample.manifest false None = Some s0 /\
    main_run (Sample.world false false Sample.calm) (read_ip_list Sample.ip_txt)
      Sample.manifest true Sample.both_succeed s0 = Some s /\
    exists text,
      complete_txt s = Some text /\
      forall h, h ∈ read_ip_list text <-> h ∈ read_ip_list Sample.ip_txt.
Proof.
  eexists _, _. split; [reflexivity|].
  match goal with
  | |- ?run = Some ?s /\ _ =>
      let r := eval vm_compute in run in
      match r with
      | Some ?v => unify s v
      end
  end.
  split; [vm_compute; reflexivity|].
  edestruct (complete_txt_reads_back_as_the_host_list
               (Sample.world false false Sample.calm) Sample.ip_txt Sample.manifest true
               None Sample.both_succeed) as (text & Hfile & _ & Hsame).
  - reflexivity.
  - vm_compute. reflexivity.
  - unfold Sample.both_succeed. repeat constructor.
  - reflexivity.
  - exists text. split; [exact Hfile|exact Hsame].
Defined.

(** ** Statistics *)

Lemma stats_record_invariant {Time} (reports : list Stats.report)
    (s : Stats.DeploymentStats Time) :
  let s' := fold_left Stats.record reports s in
  Stats.total_ip s' = Stats.total_ip s /\
  Stats.start_time s' = Stats.start_time s /\
  Stats.end_time s' = Stats.end_time s /\
  Stats.success_ip s' = Stats.success_ip s + Z.of_nat (length (Stats.succeeded reports)) /\
  (reports <> [] -> Stats.fail_ip s' = Stats.total_ip s' - Stats.success_ip s') /\
  (forall ip, ip ∈ dom (Stats.ip_time s')
              <-> ip ∈ dom (Stats.ip_time s) \/ ip ∈ Stats.succeeded reports).
Proof.
  revert s. induction reports as [|r reports IH]; intros s; cbn [fold_left].
  - cbn [Stats.succeeded omap length]. rewrite Z.add_0_r.
    repeat split; try done.
    + by left.
    + intros [H|H]; [exact H|by apply elem_of_nil in H].
  - destruct (IH (Stats.record s r)) as (Ht & Hst & Hen & Hs & Hf & Hd).
    cbn zeta in *. repeat split.
    + rewrite Ht. by destruct r.
    + rewrite Hst. by destruct r.
    + rewrite Hen. by destruct r.
    + rewrite Hs. destruct r as [ip elapsed|]; cbn [Stats.record].
      * change (Stats.succeeded (Stats.Succeeded ip elapsed :: reports))
          with (ip :: Stats.succeeded reports).
        cbn [Stats.record_success Stats.success_ip length]. lia.
      * reflexivity.
    + intros _. destruct reports as [|r' reports]; [|apply Hf; discriminate].
      cbn [fold_left]. by destruct r.
    + rewrite Hd. destruct r as [ip' elapsed|]; cbn [Stats.record].
      * change (Stats.succeeded (Stats.Succeeded ip' elapsed :: reports))
          with (ip' :: Stats.succeeded reports).
        cbn [Stats.record_success Stats.ip_time].
        rewrite dom_insert, elem_of_union, elem_of_singleton, elem_of_cons. tauto.
      * change (Stats.succeeded (Stats.Failed :: reports)) with (Stats.succeeded reports).
        cbn [Stats.record_fail Stats.ip_time]. tauto.
    + rewrite Hd. destruct r as [ip' elapsed|]; cbn [Stats.record].
      * change (Stats.succeeded (Stats.Succeeded ip' elapsed :: reports))
          with (ip' :: Stats.succeeded reports).
        cbn [Stats.record_success Stats.ip_time].
        rewrite dom_insert, elem_of_union, elem_of_singleton, elem_of_cons. tauto.
      * change (Stats.succeeded (Stats.Failed :: reports)) with (Stats.succeeded reports).
        cbn [Stats.record_fail Stats.ip_time]. tauto.
Qed.

(** X21.  The statistics object, reset, told the number of hosts and then
    given the workers' reports one after the other: the total stays what it
    was told; the count of successes is the number of reports of success; from
    the first report on the count of failures is the total less the successes;
    and the hosts with a recorded time are the hosts reported successful, so
    there are no more of them than successes. *)
Theorem statistics_follow_the_reports {Time : Type}
    (now : Time) (n : Z) (reports : list Stats.report)
    (stale : Stats.DeploymentStats Time) :
  let stats :=
    fold_left Stats.record reports (Stats.set_total_ip n (Stats.record_reset now stale)) in
  Stats.total_ip stats = n /\
  Stats.success_ip stats = Z.of_nat (length (Stats.succeeded reports)) /\
  (reports <> [] -> Stats.fail_ip stats = n - Stats.success_ip stats) /\
  (reports = [] -> Stats.fail_ip stats = 0) /\
  (forall ip, ip ∈ dom (Stats.ip_time stats) <-> ip ∈ Stats.succeeded reports) /\
  Z.of_nat (size (Stats.ip_time stats)) <= Stats.success_ip stats /\
  Stats.start_time stats = Some now /\ Stats.end_time stats = None.
Proof.
  intros stats.
  destruct (stats_record_invariant reports
              (Stats.set_total_ip n (Stats.record_reset now stale)))
    as (Ht & Hst & Hen & Hs & Hf & Hd).
  fold stats in Ht, Hst, Hen, Hs, Hf, Hd.
  cbn [Stats.set_total_ip Stats.record_reset Stats.total_ip Stats.success_ip
       Stats.start_time Stats.end_time Stats.ip_time] in Ht, Hst, Hen, Hs, Hd.
  assert (forall ip, ip ∈ dom (Stats.ip_time stats) <-> ip ∈ Stats.succeeded reports) as Hdom.
  { intros ip. rewrite Hd, dom_empty. split; [|by right].
    intros [H|H]; [by apply not_elem_of_empty in H|exact H]. }
  repeat apply conj.
  - exact Ht.
  - rewrite Hs. lia.
  - intros Hr. rewrite Hf by exact Hr. by rewrite Ht.
  - intros ->. reflexivity.
  - exact Hdom.
  - rewrite Hs, Z.add_0_l. apply inj_le. rewrite <- size_dom.
    assert (dom (Stats.ip_time stats) ⊆ (list_to_set (Stats.succeeded reports) : gset string))
      as Hsub.
    { intros ip Hip. apply elem_of_list_to_set. by apply Hdom. }
    apply subseteq_size in Hsub.
    pose proof (size_list_to_set_le (Stats.succeeded reports)). lia.
  - exact Hst.
  - exact Hen.
Qed.

Example statistics_sample :
  let stats :=
    fold_left Stats.record
      [Stats.Failed; Stats.Succeeded "10.0.0.7" 12; Stats.Succeeded "10.0.0.7" 15]
      (Stats.set_total_ip 2 (Stats.record_reset 0 Stats.init)) in
  Stats.success_ip stats = 2 /\ Stats.fail_ip stats = 0 /\
  Stats.ip_time stats = {["10.0.0.7" := 15]}.
Proof. repeat split. Qed.

(** ** The directories of a manifest entry *)

Lemma head_upto_last_slash_plain s :
  has_char "/" s = false -> PosixPath.head_upto_last_slash s = "".
Proof.
  destruct s as [|c s]; [reflexivity|]. unfold has_char. intros H.
  cbn [PosixPath.head_upto_last_slash]. by rewrite H.
Qed.

Lemma endswith_cons c s suf :
  PyStr.endswith (String c s) suf = true ->
  String c s = suf \/ PyStr.endswith s suf = true.
Proof.
  cbn [PyStr.endswith]. destruct (String.eqb_spec (String c s) suf); [by left|by right].
Qed.

Lemma endswith_contains s c :
  PyStr.endswith s (String c "") = true -> has_char c s = true.
Proof.
  induction s as [|a s IH]; [discriminate|].
  intros [[= -> ->]|H]%endswith_cons.
  - rewrite has_char_cons. by destruct (ascii_dec c c).
  - rewrite has_char_cons, (IH H). by destruct (ascii_dec c a).
Qed.

(** The directory part of [p] followed by a name without a slash is [p],
    for a [p] that ends with a slash. *)
Lemma head_upto_last_slash_append p rest :
  PyStr.endswith p "/" = true -> has_char "/" rest = false ->
  PosixPath.head_upto_last_slash (p +:+ rest) = p.
Proof.
  intros He Hr. induction p as [|c p IH]; [discriminate|].
  rewrite append_cons. cbn [PosixPath.head_upto_last_slash].
  assert (PyStr.contains "/" (String c (p +:+ rest)) = true) as ->.
  { rewrite <- append_cons. change (PyStr.contains "/") with (has_char "/").
    by rewrite has_char_append, (endswith_contains _ _ He). }
  f_equal. apply endswith_cons in He as [[= -> ->]|He].
  - by apply head_upto_last_slash_plain.
  - by apply IH.
Qed.

Lemma rstrip_slash_decompose s :
  exists tail, s = PosixPath.rstrip_slash s +:+ tail /\ PosixPath.all_slashes tail = true.
Proof.
  induction s as [|c s (tail & E & Ht)]; [by exists ""|].
  cbn [PosixPath.rstrip_slash].
  destruct (String.eqb_spec (PosixPath.rstrip_slash s) "") as [Hr|Hr]; cbn [andb].
  - destruct (Ascii.eqb_spec c "/") as [->|Hc].
    + exists (String "/" tail). rewrite Hr in E. cbn in E. subst s.
      split; [reflexivity|]. cbn [PosixPath.all_slashes Ascii.eqb Bool.eqb andb]. exact Ht.
    + exists tail. rewrite append_cons. by rewrite <- E.
  - exists tail. rewrite append_cons. by rewrite <- E.
Qed.

(** Slashes at the end of a path add nothing but empty pieces. *)
Lemma split_trailing_slashes r tail :
  PosixPath.all_slashes tail = true ->
  exists h t t',
    PyStr.split "/" (r +:+ tail) = h :: t /\ PyStr.split "/" r = h :: t' /\
    List.filter PyStr.truthy t = List.filter PyStr.truthy t'.
Proof.
  intros Ht. induction r as [|c r (h & t & t' & E1 & E2 & F)].
  - cbn [String.append PyStr.split].
    assert (exists t, PyStr.split "/" tail = "" :: t /\ List.filter PyStr.truthy t = [])
      as (t & E & F).
    { clear -Ht. induction tail as [|c tail IH]; [by exists []|].
      cbn [PosixPath.all_slashes] in Ht. apply andb_prop in Ht as [Hc Ht].
      apply Ascii.eqb_eq in Hc as ->. destruct (IH Ht) as (t & E & F).
      cbn [PyStr.split Ascii.eqb Bool.eqb]. exists ("" :: t). split; [by rewrite E|].
      cbn [List.filter PyStr.truthy String.eqb negb]. exact F. }
    exists "", t, []. change ("" +:+ tail) with tail. by rewrite E.
  - rewrite append_cons. cbn [PyStr.split]. rewrite E1, E2.
    destruct (Ascii.eqb c "/").
    + exists "", (h :: t), (h :: t'). split; [reflexivity|]. split; [reflexivity|].
      cbn [List.filter]. rewrite F. reflexivity.
    + exists (String c h), t, t'. by repeat split.
Qed.

Lemma segments_of_rstrip_slash s :
  List.filter PyStr.truthy (PyStr.split "/" (PosixPath.rstrip_slash s))
  = List.filter PyStr.truthy (PyStr.split "/" s).
Proof.
  destruct (rstrip_slash_decompose s) as (tail & E & Ht).
  destruct (split_trailing_slashes (PosixPath.rstrip_slash s) tail Ht)
    as (h & t & t' & E1 & E2 & F).
  rewrite E at 2. rewrite E1, E2. cbn [List.filter]. by rewrite F.
Qed.

(** X22.  For a manifest entry whose remote directory ends with a slash, as
    [read_file] leaves it, and whose file name holds no slash, the directories
    [check_remote_directory] goes through before the upload are those of the
    remote directory of the manifest, segment by segment: the file name and
    the [.BMT] suffix add none. *)
Theorem upload_directories_are_those_of_the_manifest (remote_path filename : string) :
  PyStr.endswith remote_path "/" = true ->
  has_char "/" filename = false ->
  directory_segments (make_remote_file_path remote_path filename)
  = List.filter PyStr.truthy (PyStr.split "/" remote_path).
Proof.
  intros He Hf. unfold directory_segments, make_remote_file_path, PosixPath.dirname.
  rewrite He, head_upto_last_slash_append; [|exact He|].
  - destruct (PyStr.truthy remote_path && negb (PosixPath.all_slashes remote_path));
      [apply segments_of_rstrip_slash|reflexivity].
  - by rewrite has_char_append, Hf.
Qed.

Lemma upload_directories_are_those_of_the_manifest_witness :
  directory_chain "" (directory_segments (make_remote_file_path "/usr/local//bin/" "svc"))
  = ["/usr"; "/usr/local"; "/usr/local/bin"].
Proof.
  rewrite (upload_directories_are_those_of_the_manifest "/usr/local//bin/" "svc");
    reflexivity.
Defined.

(** ** A manifest whose files are not there *)

Lemma process_entries_all_missing W fuel ip move_mode file_map t :
  (forall t' p, exists out err, env W t' (PathExists p) = Ok 0 out err) ->
  exists looks,
    process_entries W fuel ip move_mode file_map t = Returns tt (t ++ looks) /\
    List.map fst looks
    = List.map (fun entry => PathExists (PosixPath.join FILE_DIR entry.1)) file_map.
Proof.
  intros Hmiss. revert t. induction file_map as [|entry rest IH]; intros t.
  - exists []. split; [by rewrite app_nil_r|reflexivity].
  - cbn [process_entries].
    set (p := PosixPath.join FILE_DIR entry.1).
    destruct (Hmiss t p) as (out & err & E).
    assert (process_entry W fuel ip move_mode entry t
            = Returns tt (t ++ [(PathExists p, Ok 0 out err)])) as Eentry.
    { unfold process_entry. fold p.
      assert (os_path_exists W p t = Returns false (t ++ [(PathExists p, Ok 0 out err)]))
        as Elook.
      { unfold os_path_exists. cbv beta iota zeta delta [bind perform ret]. by rewrite E. }
      by rewrite (bind_of_returns _ _ _ _ _ Elook). }
    rewrite (bind_of_returns _ _ _ _ _ Eentry).
    destruct (IH (t ++ [(PathExists p, Ok 0 out err)])) as (looks & El & Hl).
    rewrite El. exists ((PathExists p, Ok 0 out err) :: looks).
    split; [by rewrite <- app_assoc|]. cbn [List.map fst]. by rewrite Hl.
Qed.

(** X24.  A worker does not ask that anything be sent: an entry of the
    manifest whose local file is not there is passed over, and on a machine
    where none of the files is there the worker, once through the readiness
    gate, looks for each file in turn, transfers nothing and returns [True],
    so that the host counts as deployed. *)
Theorem worker_succeeds_with_every_file_missing
    (W : World) (fuel : nat) (ip : string) (file_map : list (string * string))
    (move_mode : bool) (t t1 : trace) :
  (forall t' p, exists out err, env W t' (PathExists p) = Ok 0 out err) ->
  wait_for_ssh_ready W fuel ip t = Returns true t1 ->
  exists looks,
    process_single_ip W fuel ip file_map move_mode t = Returns true (t1 ++ looks) /\
    List.map fst looks
    = List.map (fun entry => PathExists (PosixPath.join FILE_DIR entry.1)) file_map.
Proof.
  intros Hmiss Hready.
  destruct (process_entries_all_missing W fuel ip move_mode file_map t1 Hmiss)
    as (looks & E & Hl).
  exists looks. split; [|exact Hl].
  unfold process_single_ip. apply try_except_Exception_returns.
  rewrite (bind_of_returns _ _ _ _ _ Hready).
  by rewrite (bind_of_returns _ _ _ _ _ E).
Qed.

Lemma worker_succeeds_with_every_file_missing_witness :
  process_single_ip (Sample.world false false Scene.sshd_down) 1
    "10.0.0.7" [("svc", "/usr/local/bin/"); ("agent", "/opt/")] true []
  = Returns true
      [(SubprocessRun ["ping"; "-c"; "1"; "-W"; "2"; "10.0.0.7"] None 3, Ok 0 "" "");
       (PathExists "file/svc", Ok 0 "" ""); (PathExists "file/agent", Ok 0 "" "")].
Proof.
  destruct (worker_succeeds_with_every_file_missing
              (Sample.world false false Scene.sshd_down) 1 "10.0.0.7"
              [("svc", "/usr/local/bin/"); ("agent", "/opt/")] true []
              [(SubprocessRun ["ping"; "-c"; "1"; "-W"; "2"; "10.0.0.7"] None 3, Ok 0 "" "")])
    as (looks & E & _).
  - intros t' p. by exists "", "".
  - reflexivity.
  - rewrite E. vm_compute in E. by injection E as <-.
Defined.
